(** * Coverage plotting tools: a shallow embedding of
      [tools/plot_coverage.py] and [tools/plot_graphs_only.py].

    Text is a list of characters and a Python [int] is a [Z].  A Python
    [float] is a binary64 number, a [spec_float] of the Standard Library
    with its operations; a numeral or a quotient of integers becomes the
    nearest float, a tie going to the even mantissa.  An exception that the
    source lets escape is a [Raise] result.  The first part of the file
    holds the model, the later parts the lemmas and theorems about it. *)

From Stdlib Require Import Ascii String.
From Stdlib Require Import List ZArith QArith Qabs Qround.
From Stdlib Require Import Lia Lqa Bool Arith.
From Stdlib Require Import Floats.SpecFloat.
From Stdlib Require Decimal DecimalZ DecimalPos DecimalN.
From Stdlib Require Import Sorting.Sorted Sorting.Permutation.
Import ListNotations.

Set Implicit Arguments.
Local Close Scope Q_scope.
Local Open Scope list_scope.

(** * Part I: the model *)

(** ** Python values and primitives *)

Module Py.

Definition str := list ascii.

Definition lit (s : string) : str := list_ascii_of_string s.

(** Exceptions that the two scripts can let escape. *)
Inductive exn : Type :=
| ValueError
| IndexError
| OverflowError
| ZeroDivisionError
| NotADirectoryError.

Inductive result (A : Type) : Type :=
| Ok (a : A)
| Raise (e : exn).

Arguments Ok {A} a.
Arguments Raise {A} e.

Definition bind {A B : Type} (m : result A) (k : A -> result B) : result B :=
  match m with
  | Ok a => k a
  | Raise e => Raise e
  end.

Fixpoint mapM {A B : Type} (f : A -> result B) (l : list A) : result (list B) :=
  match l with
  | [] => Ok []
  | x :: t =>
      bind (f x) (fun y => bind (mapM f t) (fun ys => Ok (y :: ys)))
  end.

Definition of_option {A : Type} (e : exn) (o : option A) : result A :=
  match o with
  | Some a => Ok a
  | None => Raise e
  end.

Definition chr_eqb (a b : ascii) : bool := Ascii.eqb a b.

Definition str_eqb (a b : str) : bool :=
  if list_eq_dec ascii_dec a b then true else false.

(** *** Characters *)

Definition code (c : ascii) : nat := nat_of_ascii c.

(** [str.isspace] on the code points below 256: tab to carriage return, the
    four separators 28 to 31, the space, the next-line control 133 and the
    no-break space 160. *)
Definition is_space (c : ascii) : bool :=
  let n := code c in
  ((9 <=? n) && (n <=? 13)) || ((28 <=? n) && (n <=? 32))
  || (n =? 133) || (n =? 160).

Definition is_digit (c : ascii) : bool :=
  let n := code c in (48 <=? n) && (n <=? 57).

Definition LF : ascii := "010"%char.
Definition CR : ascii := "013"%char.
Definition SP : ascii := " "%char.

(** *** [str.strip], [str.split] without argument *)

Fixpoint lstrip (s : str) : str :=
  match s with
  | [] => []
  | c :: t => if is_space c then lstrip t else s
  end.

Definition rstrip (s : str) : str := rev (lstrip (rev s)).

Definition strip (s : str) : str := rstrip (lstrip s).

(** Maximal runs of characters that are not white space. *)
Fixpoint split (s : str) : list str :=
  match s with
  | [] => []
  | c :: t =>
      if is_space c then split t
      else
        match t with
        | [] => [[c]]
        | d :: _ =>
            if is_space d then [c] :: split t
            else
              match split t with
              | w :: ws => (c :: w) :: ws
              | [] => [[c]]
              end
        end
  end.

(** *** Text files *)

(** Reading in text mode turns a carriage return, with the line feed after
    it if there is one, into a line feed. *)
Fixpoint universal_newlines (s : str) : str :=
  match s with
  | [] => []
  | c :: t =>
      if chr_eqb c CR then
        LF :: match t with
              | d :: t' =>
                  if chr_eqb d LF then universal_newlines t'
                  else universal_newlines t
              | [] => []
              end
      else c :: universal_newlines t
  end.

(** Lines keep their line feed; the last one may lack it. *)
Fixpoint lines_of (s : str) : list str :=
  match s with
  | [] => []
  | c :: t =>
      if chr_eqb c LF then [c] :: lines_of t
      else
        match lines_of t with
        | l :: ls => (c :: l) :: ls
        | [] => [[c]]
        end
  end.

Definition readlines (content : str) : list str :=
  lines_of (universal_newlines content).

(** *** Decimal numerals *)

Definition digit_of_char (c : ascii) : option (Decimal.uint -> Decimal.uint) :=
  match c with
  | "0"%char => Some Decimal.D0 | "1"%char => Some Decimal.D1
  | "2"%char => Some Decimal.D2 | "3"%char => Some Decimal.D3
  | "4"%char => Some Decimal.D4 | "5"%char => Some Decimal.D5
  | "6"%char => Some Decimal.D6 | "7"%char => Some Decimal.D7
  | "8"%char => Some Decimal.D8 | "9"%char => Some Decimal.D9
  | _ => None
  end.

Fixpoint chars_of_uint (d : Decimal.uint) : str :=
  match d with
  | Decimal.Nil => []
  | Decimal.D0 d => "0"%char :: chars_of_uint d
  | Decimal.D1 d => "1"%char :: chars_of_uint d
  | Decimal.D2 d => "2"%char :: chars_of_uint d
  | Decimal.D3 d => "3"%char :: chars_of_uint d
  | Decimal.D4 d => "4"%char :: chars_of_uint d
  | Decimal.D5 d => "5"%char :: chars_of_uint d
  | Decimal.D6 d => "6"%char :: chars_of_uint d
  | Decimal.D7 d => "7"%char :: chars_of_uint d
  | Decimal.D8 d => "8"%char :: chars_of_uint d
  | Decimal.D9 d => "9"%char :: chars_of_uint d
  end.

(** A run of digits, and nothing else. *)
Fixpoint uint_of_chars (s : str) : option Decimal.uint :=
  match s with
  | [] => Some Decimal.Nil
  | c :: t =>
      match digit_of_char c, uint_of_chars t with
      | Some k, Some d => Some (k d)
      | _, _ => None
      end
  end.

(** The digits of [int(...)]: at least one digit, single underscores allowed
    between digits. *)
Fixpoint int_digits (after_digit : bool) (s : str) : option Decimal.uint :=
  match s with
  | [] => if after_digit then Some Decimal.Nil else None
  | c :: t =>
      match digit_of_char c with
      | Some k => option_map k (int_digits true t)
      | None =>
          if chr_eqb c "_"%char && after_digit then int_digits false t
          else None
      end
  end.

(** [int(s)] for a string: surrounding white space, an optional sign, the
    digits.  [None] is [ValueError].  The limit that the interpreter can be
    set to put on the number of digits is not modelled. *)
Definition py_int (s : str) : option Z :=
  match strip s with
  | [] => None
  | c :: t =>
      if chr_eqb c "-"%char then
        option_map (fun d => Z.opp (Z.of_uint d)) (int_digits false t)
      else if chr_eqb c "+"%char then
        option_map Z.of_uint (int_digits false t)
      else option_map Z.of_uint (int_digits false (c :: t))
  end.

(** [f"{n}"] for an [int]. *)
Definition format_int (n : Z) : str :=
  match Z.to_int n with
  | Decimal.Pos d => chars_of_uint d
  | Decimal.Neg d => "-"%char :: chars_of_uint d
  end.

(** Splitting at the first occurrence of a character. *)
Fixpoint cut_at (sep : ascii) (s : str) : option (str * str) :=
  match s with
  | [] => None
  | c :: t =>
      if chr_eqb c sep then Some ([], t)
      else
        match cut_at sep t with
        | Some (a, b) => Some (c :: a, b)
        | None => None
        end
  end.

(** *** [float]: binary64 *)

Definition float : Type := spec_float.

Definition prec : Z := 53.
Definition emax : Z := 1024.

(** The float nearest to the quotient of two positive integers, a tie going
    to the even mantissa, and an infinity past the largest float.  The
    quotient is cut to a mantissa and the place of the remainder, as for
    the division of two floats, and rounded once. *)
Definition nearest (neg : bool) (n d : positive) : float :=
  let '(m, e, l) := SFdiv_core_binary prec emax (Zpos n) 0 (Zpos d) 0 in
  binary_round_aux prec emax neg m e l.

(** The float with sign [neg] nearest to a rational that is not negative. *)
Definition round_Q (neg : bool) (q : Q) : float :=
  match Qnum q with
  | Zpos n => nearest neg n (Qden q)
  | _ => S754_zero neg
  end.

(** The float that the numeral of an [int] denotes, as where the source
    mixes the constants 0, 10 and 50 with floats. *)
Definition float_of_int (n : Z) : float :=
  round_Q (n <? 0)%Z (inject_Z (Z.abs n)).

(** [a / b] for two [int]: the float nearest to the quotient. *)
Definition true_divide (a b : Z) : result float :=
  if (b =? 0)%Z then Raise ZeroDivisionError
  else
    match round_Q (xorb (a <? 0)%Z (b <? 0)%Z)
                  (Qmake (Z.abs a) (Z.to_pos (Z.abs b))) with
    | S754_infinity _ => Raise OverflowError
    | f => Ok f
    end.

(** The sign bit, and the magnitude of a finite float as a rational. *)
Definition sign_bit (f : float) : bool :=
  match f with
  | S754_zero s | S754_infinity s | S754_finite s _ _ => s
  | S754_nan => false
  end.

Definition magnitude (f : float) : Q :=
  match f with
  | S754_finite _ m e =>
      if (0 <=? e)%Z then inject_Z (Zpos m * 2 ^ e)
      else Qmake (Zpos m) (Z.to_pos (2 ^ (- e)))
  | _ => 0%Q
  end.

(** *** [float(s)] for a string *)

(** The unsigned decimal numerals: digits, optionally a point and more
    digits, with a digit somewhere. *)
Definition unsigned_decimal (s : str) : option Q :=
  match cut_at "."%char s with
  | None =>
      match s, uint_of_chars s with
      | _ :: _, Some d => Some (inject_Z (Z.of_uint d))
      | _, _ => None
      end
  | Some (ip, fp) =>
      match ip ++ fp, uint_of_chars ip, uint_of_chars fp with
      | _ :: _, Some a, Some b =>
          let scale := (10 ^ Z.of_nat (length fp))%Z in
          Some (Qmake (Z.of_uint a * scale + Z.of_uint b)%Z (Z.to_pos scale))
      | _, _, _ => None
      end
  end.

Definition lower (c : ascii) : ascii :=
  let n := code c in
  if (65 <=? n) && (n <=? 90) then ascii_of_nat (n + 32) else c.

(** An underscore is accepted after a digit and before a digit only. *)
Fixpoint underscores_ok (after_digit : bool) (s : str) : bool :=
  match s with
  | [] => true
  | c :: t =>
      if chr_eqb c "_"%char then
        after_digit
        && match t with
           | d :: _ => is_digit d
           | [] => false
           end
        && underscores_ok false t
      else underscores_ok (is_digit c) t
  end.

Definition drop_underscores (s : str) : str :=
  filter (fun c => negb (chr_eqb c "_"%char)) s.

(** The spellings of the infinities and of not-a-number, after the sign. *)
Definition inf_or_nan (neg : bool) (s : str) : option float :=
  let t := map lower s in
  if str_eqb t (lit "inf") || str_eqb t (lit "infinity")
  then Some (S754_infinity neg)
  else if str_eqb t (lit "nan") then Some S754_nan
  else None.

(** The text before the first [e] or [E], and the text after it. *)
Fixpoint cut_exponent (s : str) : str * option str :=
  match s with
  | [] => ([], None)
  | c :: t =>
      if chr_eqb (lower c) "e"%char then ([], Some t)
      else let (m, x) := cut_exponent t in (c :: m, x)
  end.

Definition digits_value (s : str) : option Z :=
  match s, uint_of_chars s with
  | _ :: _, Some d => Some (Z.of_uint d)
  | _, _ => None
  end.

(** An exponent: an optional sign and at least one digit. *)
Definition exponent (s : str) : option Z :=
  match s with
  | [] => None
  | c :: t =>
      if chr_eqb c "-"%char then option_map Z.opp (digits_value t)
      else if chr_eqb c "+"%char then digits_value t
      else digits_value (c :: t)
  end.

Definition scale10 (q : Q) (e : Z) : Q :=
  if (0 <=? e)%Z then (q * inject_Z (10 ^ e))%Q
  else (q / inject_Z (10 ^ (- e)))%Q.

(** The rational that an unsigned numeral denotes. *)
Definition unsigned_number (s : str) : option Q :=
  match cut_exponent s with
  | (m, None) => unsigned_decimal m
  | (m, Some x) =>
      match unsigned_decimal m, exponent x with
      | Some q, Some e => Some (scale10 q e)
      | _, _ => None
      end
  end.

(** [float(s)] for a string: the underscores are checked and dropped, the
    white space around is stripped, and what is left is a sign and a
    spelling of infinity or of not-a-number, or a numeral, which becomes the
    nearest float, an infinity when it is past the range.  [None] is
    [ValueError]. *)
Definition py_float (s : str) : option float :=
  if underscores_ok false s then
    match strip (drop_underscores s) with
    | [] => None
    | c :: t =>
        let neg := chr_eqb c "-"%char in
        let body :=
          if chr_eqb c "-"%char || chr_eqb c "+"%char then t else c :: t in
        match inf_or_nan neg body with
        | Some f => Some f
        | None => option_map (round_Q neg) (unsigned_number body)
        end
    end
  else None.

(** *** [f"{x:.2f}"] *)

(** Rounding to the nearest integer, a tie going to the even neighbour. *)
Definition round_half_even (q : Q) : Z :=
  let f := Qfloor q in
  match Qcompare (q - inject_Z f)%Q (1 # 2)%Q with
  | Lt => f
  | Gt => (f + 1)%Z
  | Eq => if Z.even f then f else (f + 1)%Z
  end.

(** The number of hundredths that [.2f] prints for a magnitude [q]. *)
Definition hundredths (q : Q) : Z := round_half_even (Qabs q * 100)%Q.

Definition two_digits (n : Z) : str :=
  if (n <? 10)%Z then "0"%char :: format_int n else format_int n.

Definition format_hundredths (h : Z) : str :=
  format_int (h / 100)%Z ++ "."%char :: two_digits (h mod 100)%Z.

(** The exact value of the float is rounded to two decimals, a tie going to
    the even digit; the sign is that of the float, also when the digits are
    all zero. *)
Definition format_2f (x : float) : str :=
  match x with
  | S754_nan => lit "nan"
  | S754_infinity s => if s then lit "-inf" else lit "inf"
  | _ =>
      if sign_bit x
      then "-"%char :: format_hundredths (hundredths (magnitude x))
      else format_hundredths (hundredths (magnitude x))
  end.

(** *** [sorted] and [list.sort]: a stable sort *)

Section Sorting.
Variable A : Type.
Variable leb : A -> A -> bool.

Fixpoint insert (x : A) (l : list A) : list A :=
  match l with
  | [] => [x]
  | y :: t => if leb x y then x :: l else y :: insert x t
  end.

Fixpoint sort (l : list A) : list A :=
  match l with
  | [] => []
  | x :: t => insert x (sort t)
  end.
End Sorting.

(** The order of [str]: by character code, a prefix first. *)
Fixpoint str_leb (a b : str) : bool :=
  match a, b with
  | [], _ => true
  | _ :: _, [] => false
  | x :: a', y :: b' =>
      if code x <? code y then true
      else if code y <? code x then false
      else str_leb a' b'
  end.

(** [sorted(l)] for a list of strings. *)
Definition sorted (l : list str) : list str := sort str_leb l.

(** [sorted(l, key=f)] once the keys are computed; the keys are integers. *)
Definition sort_by_key {A : Type} (l : list (Z * A)) : list (Z * A) :=
  sort (fun a b => Z.leb (fst a) (fst b)) l.

(** *** [dict] with string keys: entries in insertion order *)

Section Dict.
Variable V : Type.

Definition dict := list (str * V).

Fixpoint dict_set (k : str) (v : V) (d : dict) : dict :=
  match d with
  | [] => [(k, v)]
  | (k', v') :: t =>
      if str_eqb k k' then (k, v) :: t else (k', v') :: dict_set k v t
  end.

Fixpoint dict_get (k : str) (d : dict) : option V :=
  match d with
  | [] => None
  | (k', v') :: t => if str_eqb k k' then Some v' else dict_get k t
  end.

Definition keys (d : dict) : list str := map fst d.
Definition values (d : dict) : list V := map snd d.
End Dict.

(** *** [str.startswith], [str.replace(old, "")], [str.rsplit(sep, 1)] *)

Fixpoint startswith (p s : str) : bool :=
  match p, s with
  | [], _ => true
  | _ :: _, [] => false
  | x :: p', y :: s' => chr_eqb x y && startswith p' s'
  end.

Definition endswith (p s : str) : bool := startswith (rev p) (rev s).

(** [s.replace(old, "")] for a non-empty [old]: occurrences are found from
    the left and do not overlap; [skip] counts the characters of the
    occurrence being dropped. *)
Fixpoint remove_from (old : str) (skip : nat) (s : str) : str :=
  match s with
  | [] => []
  | c :: t =>
      match skip with
      | S k => remove_from old k t
      | O =>
          if startswith old s then remove_from old (length old - 1) t
          else c :: remove_from old 0 t
      end
  end.

Definition remove_all (old s : str) : str := remove_from old 0 s.

(** The two sides of the last occurrence of [sep]. *)
Fixpoint rcut_at (sep : ascii) (s : str) : option (str * str) :=
  match s with
  | [] => None
  | c :: t =>
      match rcut_at sep t with
      | Some (a, b) => Some (c :: a, b)
      | None => if chr_eqb c sep then Some ([], t) else None
      end
  end.

Definition rsplit1 (sep : ascii) (s : str) : list str :=
  match rcut_at sep s with
  | Some (a, b) => [a; b]
  | None => [s]
  end.

(** [PurePath.stem]: the name without its last suffix; a dot that starts or
    ends the name opens no suffix. *)
Definition stem (name : str) : str :=
  match rcut_at "."%char name with
  | Some (a :: u, b :: v) => a :: u
  | _ => name
  end.

(** [[i * 30 for i in range(n)]]. *)
Definition time_points (n : nat) : list Z :=
  map (fun i => (Z.of_nat i * 30)%Z) (seq 0 n).

End Py.
Import Py.

(** ** The log parser: [extract_branch_hit_counts] *)

Module LogParser.

(** The longest run of digits that starts [s], and what follows it. *)
Fixpoint take_digits (s : str) : str * str :=
  match s with
  | [] => ([], [])
  | c :: t =>
      if is_digit c then let (d, r) := take_digits t in (c :: d, r)
      else ([], s)
  end.

Fixpoint drop_prefix (p s : str) : option str :=
  match p, s with
  | [], _ => Some s
  | _ :: _, [] => None
  | x :: p', y :: s' => if chr_eqb x y then drop_prefix p' s' else None
  end.

(** The pattern [\((\d+) of \d+ branches\)] tried at the start of [s]; the
    result is group 1.  Each [\d+] is followed by a space in the pattern, so
    only the longest run of digits can match. *)
Definition match_here (s : str) : option str :=
  match s with
  | [] => None
  | c :: t =>
      if chr_eqb c "("%char then
        match take_digits t with
        | ([], _) => None
        | (n, r1) =>
            match drop_prefix (lit " of ") r1 with
            | None => None
            | Some r2 =>
                match take_digits r2 with
                | ([], _) => None
                | (_, r3) =>
                    if startswith (lit " branches)") r3 then Some n else None
                end
            end
        end
      else None
  end.

(** [re.search(pattern, line)]: the leftmost match. *)
Fixpoint re_search (line : str) : option str :=
  match match_here line with
  | Some g => Some g
  | None =>
      match line with
      | [] => None
      | _ :: t => re_search t
      end
  end.

(** The elements of [lines] at the indices [range(2, len(lines), 3)]. *)
Fixpoint every_third (lines : list str) : list str :=
  match lines with
  | _ :: _ :: l :: rest => l :: every_third rest
  | _ => []
  end.

(** The loop over the branch lines; an [int(...)] that raised would end in
    the handler of the function. *)
Fixpoint branch_counts (ls : list str) : option (list Z) :=
  match ls with
  | [] => Some []
  | line :: rest =>
      match re_search line with
      | Some g =>
          match py_int g, branch_counts rest with
          | Some n, Some ns => Some (n :: ns)
          | _, _ => None
          end
      | None => branch_counts rest
      end
  end.

(** A log is given by its content, or is [None] when opening or reading it
    raises.  The result [None] is the [None] of the source: the handler ran,
    or no count was found. *)
Definition extract_branch_hit_counts (log : option str) : option (list Z) :=
  match log with
  | None => None
  | Some content =>
      match branch_counts (every_third (readlines content)) with
      | Some (n :: ns) => Some (n :: ns)
      | _ => None
      end
  end.

End LogParser.

(** ** The aggregator: [collect_and_save_branch_data] *)

Module Aggregator.

Import LogParser.

(** Directory trees.  A regular file is its content, [None] when it cannot
    be read; a directory lists its entries in the order [iterdir] yields
    them. *)
#[local] Unset Elimination Schemes.
Inductive node : Type :=
| File (content : option str)
| Dir (entries : list (str * node)).
#[local] Set Elimination Schemes.

(** [campaign_path / 'coverage.log'] among the entries of a campaign. *)
Fixpoint lookup (name : str) (entries : list (str * node)) : option node :=
  match entries with
  | [] => None
  | (n, x) :: t => if str_eqb n name then Some x else lookup name t
  end.

(** One turn of the loop over the campaigns of a target: what is appended to
    [campaign_data].  Opening a directory raises, which the parser turns
    into [None]. *)
Definition campaign_entry (e : str * node) : option (str * list Z) :=
  match e with
  | (_, File _) => None
  | (campaign_num, Dir files) =>
      match lookup (lit "coverage.log") files with
      | None => None
      | Some log =>
          let content := match log with File c => c | Dir _ => None end in
          match extract_branch_hit_counts content with
          | Some counts => Some (campaign_num, counts)
          | None => None
          end
      end
  end.

Fixpoint filter_map {A B : Type} (f : A -> option B) (l : list A) : list B :=
  match l with
  | [] => []
  | x :: t =>
      match f x with
      | Some y => y :: filter_map f t
      | None => filter_map f t
      end
  end.

Definition campaigns_of (campaigns : list (str * node)) : list (str * list Z) :=
  filter_map campaign_entry campaigns.

Definition table := list (str * list Z).

(** [campaign_data.sort(key=lambda x: int(x[0]))]: every key is computed
    before any comparison. *)
Definition sort_campaigns (campaign_data : table) : result table :=
  bind (mapM (fun e => of_option ValueError
                         (option_map (fun k => (k, e)) (py_int (fst e))))
             campaign_data)
       (fun keyed => Ok (map snd (sort_by_key keyed))).

(** One line of a table: the label, then each count after a space. *)
Definition campaign_line (e : str * list Z) : str :=
  fst e ++ concat (map (fun count => SP :: format_int count) (snd e)) ++ [LF].

(** [min(len(counts) for _, counts in campaign_data)] of a non-empty table;
    the default only types the empty case. *)
Definition min_columns (campaign_data : table) : nat :=
  match map (fun e => length (snd e)) campaign_data with
  | [] => 0
  | n :: ns => fold_left Nat.min ns n
  end.

Definition sum (l : list Z) : Z := fold_left Z.add l 0%Z.

(** [counts[col_idx]]; the index is below every length where it is used. *)
Definition column (campaign_data : table) (col_idx : nat) : list Z :=
  map (fun e => nth col_idx (snd e) 0%Z) campaign_data.

(** The loop that fills the list [averages]: one quotient for each column,
    and the exception of the first quotient that is past the range of the
    floats. *)
Fixpoint averages_from (campaign_data : table) (cols : list nat)
    : result (list float) :=
  match cols with
  | [] => Ok []
  | col_idx :: rest =>
      let col_values := column campaign_data col_idx in
      match col_values with
      | [] => averages_from campaign_data rest
      | _ :: _ =>
          bind (true_divide (sum col_values)
                            (Z.of_nat (length col_values)))
               (fun avg =>
                  bind (averages_from campaign_data rest)
                       (fun avgs => Ok (avg :: avgs)))
      end
  end.

Definition averages (campaign_data : table) : result (list float) :=
  averages_from campaign_data (seq 0 (min_columns campaign_data)).

Definition avg_line (avgs : list float) : str :=
  lit "avg" ++ concat (map (fun avg => SP :: format_2f avg) avgs) ++ [LF].

(** What the [with open(output_path, 'w')] block does for a sorted,
    non-empty [campaign_data]: the text that is in the file when the block
    is left, and the exception that left it, if one did.  The campaign
    lines are written before the averages are computed, and the average
    line is written after all of them are. *)
Definition write_block (campaign_data : table) : str * option exn :=
  let body := concat (map campaign_line campaign_data) in
  match campaign_data with
  | [] => (body, None)
  | _ :: _ =>
      if 0 <? min_columns campaign_data
      then match averages campaign_data with
           | Ok avgs => (body ++ avg_line avgs, None)
           | Raise x => (body, Some x)
           end
      else (body, None)
  end.

Definition table_text (campaign_data : table) : str :=
  fst (write_block campaign_data).

Definition output_filename (target_name fuzzer_name : str) : str :=
  target_name ++ lit "_" ++ fuzzer_name ++ lit "_branch_count.txt".

(** A file of the data directory: its name and its content. *)
Definition written := (str * str)%type.

(** The body of the loop over the targets of a fuzzer, for one target that
    is a directory: the file that is left in the data directory, if one was
    opened, and either [len(campaign_data)], when the target has a campaign
    with counts, or the exception that escapes.  Sorting comes before the
    file is opened. *)
Definition save_target (fuzzer_name target_name : str)
    (campaigns : list (str * node))
    : option written * result (option nat) :=
  match campaigns_of campaigns with
  | [] => (None, Ok None)
  | e :: es =>
      match sort_campaigns (e :: es) with
      | Raise x => (None, Raise x)
      | Ok sorted_data =>
          let (text, x) := write_block sorted_data in
          (Some (output_filename target_name fuzzer_name, text),
           match x with
           | Some x => Raise x
           | None => Ok (Some (length sorted_data))
           end)
      end
  end.

(** The state of the traversal: the files written so far, in order, and the
    summary [data_summary], which maps a target to the campaign count of
    each of its fuzzers. *)
Record progress : Type := {
  files : list written;
  summary : dict (dict nat)
}.

Definition record_summary (target_name fuzzer_name : str) (n : nat)
    (s : dict (dict nat)) : dict (dict nat) :=
  let inner := match dict_get target_name s with
               | Some d => d
               | None => []
               end in
  dict_set target_name (dict_set fuzzer_name n inner) s.

(** The loops over the targets of one fuzzer and over the fuzzers.  An
    exception stops the traversal; the files already written stay, the one
    that was open included. *)
Fixpoint collect_targets (fuzzer_name : str) (targets : list (str * node))
    (p : progress) : progress * option exn :=
  match targets with
  | [] => (p, None)
  | (_, File _) :: rest => collect_targets fuzzer_name rest p
  | (target_name, Dir campaigns) :: rest =>
      let (left, r) := save_target fuzzer_name target_name campaigns in
      let fs := files p ++ match left with
                           | Some w => [w]
                           | None => []
                           end in
      match r with
      | Raise x => ({| files := fs; summary := summary p |}, Some x)
      | Ok None =>
          collect_targets fuzzer_name rest
            {| files := fs; summary := summary p |}
      | Ok (Some n) =>
          collect_targets fuzzer_name rest
            {| files := fs;
               summary := record_summary target_name fuzzer_name n
                            (summary p) |}
      end
  end.

Fixpoint collect_fuzzers (fuzzers : list (str * node)) (p : progress)
    : progress * option exn :=
  match fuzzers with
  | [] => (p, None)
  | (_, File _) :: rest => collect_fuzzers rest p
  | (fuzzer_name, Dir targets) :: rest =>
      match collect_targets fuzzer_name targets p with
      | (p', None) => collect_fuzzers rest p'
      | (p', Some x) => (p', Some x)
      end
  end.

(** [collect_and_save_branch_data] on the entries of the coverage
    directory: the files written, the summary, and the exception that ended
    the traversal, if one did.  [files_created] is the number of files
    whose block was left without exception. *)
Definition collect_and_save_branch_data (coverage : list (str * node))
    : progress * option exn :=
  collect_fuzzers coverage {| files := []; summary := [] |}.

End Aggregator.

(** ** The Y axis of a chart *)

Module Axis.

(** [x < y] and [x == y] on floats: false when one of them is
    not-a-number. *)
Definition ltb (x y : float) : bool := SFltb x y.
Definition eqb (x y : float) : bool := SFeqb x y.

Definition sub (x y : float) : float := SFsub prec emax x y.
Definition add (x y : float) : float := SFadd prec emax x y.
Definition mul (x y : float) : float := SFmul prec emax x y.

(** The constants [0.25] and [0.01], and the floats of [0], [10] and
    [50]. *)
Definition quarter : float := round_Q false (25 # 100).
Definition hundredth : float := round_Q false (1 # 100).
Definition zero : float := float_of_int 0.
Definition ten : float := float_of_int 10.
Definition fifty : float := float_of_int 50.

(** [min] and [max] of a list with first element [x]: the first extremal
    element is kept. *)
Definition py_min (x : float) (l : list float) : float :=
  fold_left (fun m y => if ltb y m then y else m) l x.

Definition py_max (x : float) (l : list float) : float :=
  fold_left (fun m y => if ltb m y then y else m) l x.

(** [max(a, b)]: [b] only when it is strictly greater. *)
Definition max2 (a b : float) : float := if ltb a b then b else a.

(** [margin = max((max_val - min_val) * 0.25, 50)]. *)
Definition first_margin (min_val max_val : float) : float :=
  max2 (mul (sub max_val min_val) quarter) fifty.

(** What the statement under [if margin == 0] assigns. *)
Definition fallback_margin (min_val : float) : float :=
  max2 ten (mul min_val hundredth).

(** The margin that reaches [ax.set_ylim]. *)
Definition margin (min_val max_val : float) : float :=
  let m := first_margin min_val max_val in
  if eqb m zero then fallback_margin min_val else m.

(** The argument of [ax.set_ylim]; [None] when [all_values] is empty and the
    call is skipped. *)
Definition ylim (all_values : list float) : option (float * float) :=
  match all_values with
  | [] => None
  | x :: l =>
      let min_val := py_min x l in
      let max_val := py_max x l in
      let m := margin min_val max_val in
      Some (sub min_val m, add max_val m)
  end.

End Axis.

(** ** The chart renderer: [plot_branch_graphs], [plot_comparison_graphs] *)

Module Renderer.

(** An entry of the data directory: its name, and its content, [None] when
    opening or reading it raises. *)
Record data_file : Type := {
  name : str;
  content : option str
}.

(** One call of [ax.plot]. *)
Record line : Type := {
  xs : list Z;
  ys : list float;
  color : str;
  label : option str
}.

(** A saved figure. *)
Record chart : Type := {
  output_filename : str;
  title : str;
  lines : list line;
  ylim : option (float * float);
  xlim : Z * Z
}.

Definition marker : str := lit "_branch_count".

(** [data_dir.glob('*_branch_count.txt')], sorted: the entries of one
    directory are ordered by their names. *)
Definition is_data_file (f : data_file) : bool :=
  endswith (lit "_branch_count.txt") (name f).

Definition glob_sorted (entries : list data_file) : list data_file :=
  sort (fun a b => str_leb (name a) (name b)) (filter is_data_file entries).

(** The target and fuzzer names that a file name encodes; [None] when
    [rsplit] does not yield two parts. *)
Definition decode_name (file_name : str) : option (str * str) :=
  match rsplit1 "_"%char (remove_all marker (stem file_name)) with
  | [target_name; fuzzer_name] => Some (target_name, fuzzer_name)
  | _ => None
  end.

Definition floats (tokens : list str) : result (list float) :=
  mapM (fun x => of_option ValueError (py_float x)) tokens.

(** The loop that fills [campaign_data] and [avg_data]. *)
Fixpoint parse_lines (ls : list str) (campaign_data : dict (list float))
    (avg_data : option (list float))
    : result (dict (list float) * option (list float)) :=
  match ls with
  | [] => Ok (campaign_data, avg_data)
  | l :: rest =>
      match split (strip l) with
      | [] => parse_lines rest campaign_data avg_data
      | lbl :: tokens =>
          bind (floats tokens)
               (fun values =>
                  if str_eqb lbl (lit "avg")
                  then parse_lines rest campaign_data (Some values)
                  else parse_lines rest (dict_set lbl values campaign_data)
                                   avg_data)
      end
  end.

(** The table that [plot_branch_graphs] reads from the text of a file. *)
Definition parse_table (text : str)
    : result (dict (list float) * option (list float)) :=
  parse_lines (readlines text) [] None.

(** The truth value of [avg_data]: [None] and the empty list are false. *)
Definition truthy (avg_data : option (list float)) : option (list float) :=
  match avg_data with
  | Some (a :: l) => Some (a :: l)
  | _ => None
  end.

(** [num_points], for a non-empty [campaign_data] whose first entry is
    [first]. *)
Definition num_points (first : list float)
    (avg_data : option (list float)) : nat :=
  match truthy avg_data with
  | Some avg => length avg
  | None => length first
  end.

Definition all_values (campaign_data : dict (list float))
    (avg_data : option (list float)) (n : nat) : list float :=
  flat_map (firstn n) (values campaign_data)
  ++ match truthy avg_data with
     | Some avg => avg
     | None => []
     end.

(** [sorted(campaign_data.keys(), key=lambda x: int(x))]. *)
Definition sorted_labels (campaign_data : dict (list float))
    : result (list str) :=
  bind (mapM (fun k => of_option ValueError
                         (option_map (fun i => (i, k)) (py_int k)))
             (keys campaign_data))
       (fun keyed => Ok (map snd (sort_by_key keyed))).

(** The blue line of a campaign, unless its series is shorter than
    [num_points]. *)
Definition campaign_plot (campaign_data : dict (list float)) (n : nat)
    (campaign_num : str) : option line :=
  match dict_get campaign_num campaign_data with
  | None => None
  | Some vals =>
      if n <=? length vals
      then Some {| xs := time_points n; ys := firstn n vals;
                   color := lit "blue"; label := None |}
      else None
  end.

Definition avg_plot (avg_data : option (list float)) (n : nat) : list line :=
  match truthy avg_data with
  | Some avg => [{| xs := time_points n; ys := avg;
                    color := lit "red"; label := Some (lit "avg") |}]
  | None => []
  end.

(** [time_points[-1]]. *)
Definition last_point (tp : list Z) : result Z :=
  match rev tp with
  | [] => Raise IndexError
  | x :: _ => Ok x
  end.

(** The figure drawn from a parsed table with at least one campaign. *)
Definition draw (target_name fuzzer_name : str)
    (campaign_data : dict (list float)) (avg_data : option (list float))
    : result chart :=
  let first := match campaign_data with
               | [] => []
               | (_, vals) :: _ => vals
               end in
  let n := num_points first avg_data in
  let tp := time_points n in
  let vals := all_values campaign_data avg_data n in
  bind (sorted_labels campaign_data)
       (fun labels =>
          let plots := Aggregator.filter_map (campaign_plot campaign_data n)
                                             labels
                       ++ avg_plot avg_data n in
          bind (last_point tp)
               (fun last =>
                  Ok {| output_filename :=
                          target_name ++ lit "_" ++ fuzzer_name
                          ++ lit "_branch_graph.png";
                        title :=
                          target_name ++ lit " - " ++ fuzzer_name
                          ++ lit " - Branch Hit Count Progress";
                        lines := plots;
                        ylim := Axis.ylim vals;
                        xlim := (0%Z, last) |})).

(** One turn of the loop over the data files: [Ok None] is [continue]. *)
Definition plot_file (f : data_file) : result (option chart) :=
  match decode_name (name f) with
  | None => Ok None
  | Some (target_name, fuzzer_name) =>
      match content f with
      | None => Ok None
      | Some text =>
          match readlines text with
          | [] => Ok None
          | l :: ls =>
              bind (parse_lines (l :: ls) [] None)
                   (fun parsed =>
                      match fst parsed with
                      | [] => Ok None
                      | _ :: _ =>
                          bind (draw target_name fuzzer_name
                                     (fst parsed) (snd parsed))
                               (fun c => Ok (Some c))
                      end)
          end
      end
  end.

(** The loop over the data files: the figures saved, and the exception that
    ended the loop, if one did. *)
Fixpoint plot_files (fs : list data_file) : list chart * option exn :=
  match fs with
  | [] => ([], None)
  | f :: rest =>
      match plot_file f with
      | Raise e => ([], Some e)
      | Ok None => plot_files rest
      | Ok (Some c) => let (cs, e) := plot_files rest in (c :: cs, e)
      end
  end.

(** [plot_branch_graphs] on the data directory, [None] when it is absent. *)
Definition plot_branch_graphs (data_dir : option (list data_file))
    : list chart * option exn :=
  match data_dir with
  | None => ([], None)
  | Some entries => plot_files (glob_sorted entries)
  end.

(** *** Comparison charts *)

Definition colors : list str :=
  map lit ["red"; "blue"; "green"; "orange"; "purple"; "brown"; "pink";
           "gray"]%string.

(** The first [avg] line of a file. *)
Fixpoint first_avg (ls : list str) : result (option (list float)) :=
  match ls with
  | [] => Ok None
  | l :: rest =>
      match split (strip l) with
      | [] => first_avg rest
      | lbl :: tokens =>
          if str_eqb lbl (lit "avg")
          then bind (floats tokens) (fun values => Ok (Some values))
          else first_avg rest
      end
  end.

(** The value stored for a fuzzer: [(avg_data, time_points)]. *)
Definition series := (list float * list Z)%type.

(** One turn of the first loop: the entry added to [target_fuzzers]. *)
Definition comparison_entry (f : data_file)
    : result (option (str * str * series)) :=
  match decode_name (name f) with
  | None => Ok None
  | Some (target_name, fuzzer_name) =>
      match content f with
      | None => Ok None
      | Some text =>
          bind (first_avg (readlines text))
               (fun avg =>
                  match avg with
                  | None => Ok None
                  | Some avg_data =>
                      Ok (Some (target_name, fuzzer_name,
                                (avg_data,
                                 time_points (length avg_data))))
                  end)
      end
  end.

Definition store (target_name fuzzer_name : str) (v : series)
    (target_fuzzers : dict (dict series)) : dict (dict series) :=
  let inner := match dict_get target_name target_fuzzers with
               | Some d => d
               | None => []
               end in
  dict_set target_name (dict_set fuzzer_name v inner) target_fuzzers.

Fixpoint group_by_target (fs : list data_file) (target_fuzzers : dict (dict series))
    : result (dict (dict series)) :=
  match fs with
  | [] => Ok target_fuzzers
  | f :: rest =>
      bind (comparison_entry f)
           (fun e =>
              match e with
              | None => group_by_target rest target_fuzzers
              | Some (target_name, fuzzer_name, v) =>
                  group_by_target rest
                    (store target_name fuzzer_name v target_fuzzers)
              end)
  end.

(** The coloured lines of a comparison chart, [idx] being the index of the
    first fuzzer of [fuzzer_names]. *)
Fixpoint comparison_lines (fuzzers_data : dict series) (idx : nat)
    (fuzzer_names : list str) : list line :=
  match fuzzer_names with
  | [] => []
  | fuzzer_name :: rest =>
      match dict_get fuzzer_name fuzzers_data with
      | None => comparison_lines fuzzers_data (S idx) rest
      | Some (avg_data, tp) =>
          {| xs := tp; ys := avg_data;
             color := nth (idx mod length colors) colors [];
             label := Some fuzzer_name |}
          :: comparison_lines fuzzers_data (S idx) rest
      end
  end.

(** The figure of one target with more than one fuzzer.  [time_points] is
    what the last turn of the colouring loop left in the variable. *)
Definition draw_comparison (target_name : str) (fuzzers_data : dict series)
    : result chart :=
  let fuzzer_names := sorted (keys fuzzers_data) in
  let vals := flat_map
                (fun k => match dict_get k fuzzers_data with
                          | Some (avg_data, _) => avg_data
                          | None => []
                          end)
                fuzzer_names in
  let tp := match dict_get (last fuzzer_names []) fuzzers_data with
            | Some (_, tp) => tp
            | None => []
            end in
  bind (last_point tp)
       (fun last =>
          Ok {| output_filename := target_name ++ lit "_comparison.png";
                title := target_name ++ lit " - Fuzzer Comparison";
                lines := comparison_lines fuzzers_data 0 fuzzer_names;
                ylim := Axis.ylim vals;
                xlim := (0%Z, last) |}).

Fixpoint draw_targets (target_fuzzers : dict (dict series))
    (target_names : list str) : list chart * option exn :=
  match target_names with
  | [] => ([], None)
  | target_name :: rest =>
      match dict_get target_name target_fuzzers with
      | None => draw_targets target_fuzzers rest
      | Some fuzzers_data =>
          if length fuzzers_data <=? 1
          then draw_targets target_fuzzers rest
          else
            match draw_comparison target_name fuzzers_data with
            | Raise e => ([], Some e)
            | Ok c =>
                let (cs, e) := draw_targets target_fuzzers rest in
                (c :: cs, e)
            end
      end
  end.

Definition compare_files (fs : list data_file) : list chart * option exn :=
  match fs with
  | [] => ([], None)
  | _ :: _ =>
      match group_by_target fs [] with
      | Raise e => ([], Some e)
      | Ok target_fuzzers =>
          draw_targets target_fuzzers (sorted (keys target_fuzzers))
      end
  end.

(** [plot_comparison_graphs] on the data directory, [None] when it is
    absent. *)
Definition plot_comparison_graphs (data_dir : option (list data_file))
    : list chart * option exn :=
  match data_dir with
  | None => ([], None)
  | Some entries => compare_files (glob_sorted entries)
  end.

End Renderer.

(** ** The command: [main] of [plot_coverage.py] *)

Module Pipeline.

Import Aggregator Renderer.

(** What the command finds under the work directory: the entry [coverage],
    and the entries of [graph/data], [None] when that directory is not there
    yet. *)
Record world : Type := {
  coverage : option node;
  data : option (list data_file)
}.

(** The messages of [check_coverage_directory]. *)
Inductive message : Type :=
| CoverageNotFound
| CoverageEmpty
| CoverageFound.

(** [check_coverage_directory]: [exists()] holds for a regular file too, and
    [iterdir()] then raises. *)
Definition check_coverage_directory (c : option node)
    : list message * result bool :=
  match c with
  | None => ([CoverageNotFound], Ok false)
  | Some (File _) => ([], Raise NotADirectoryError)
  | Some (Dir []) => ([CoverageEmpty], Ok false)
  | Some (Dir (_ :: _)) => ([CoverageFound], Ok true)
  end.

(** Opening a file of the data directory for writing. *)
Fixpoint write_file (w : written) (entries : list data_file)
    : list data_file :=
  match entries with
  | [] => [{| name := fst w; content := Some (snd w) |}]
  | f :: rest =>
      if str_eqb (name f) (fst w)
      then {| name := fst w; content := Some (snd w) |} :: rest
      else f :: write_file w rest
  end.

(** What a run leaves behind: the exit status, the messages of the check,
    the tables written, and the figures saved by each of the two rendering
    phases. *)
Record outcome : Type := {
  status : Z;
  reported : list message;
  tables : list written;
  graphs : list chart;
  comparisons : list chart
}.

Definition exit_status (e : option exn) : Z :=
  match e with
  | None => 0%Z
  | Some _ => 1%Z
  end.

(** The phases after the check, for the entries of the coverage directory:
    an exception that escapes ends the process with status 1. *)
Definition run_phases (msgs : list message) (entries : list (str * node))
    (existing : option (list data_file)) : outcome :=
  let (p, e1) := collect_and_save_branch_data entries in
  let data_dir :=
    fold_left (fun d w => write_file w d) (files p)
              (match existing with Some d => d | None => [] end) in
  match e1 with
  | Some _ =>
      {| status := 1; reported := msgs; tables := files p;
         graphs := []; comparisons := [] |}
  | None =>
      let (cs, e2) := plot_branch_graphs (Some data_dir) in
      match e2 with
      | Some _ =>
          {| status := 1; reported := msgs; tables := files p;
             graphs := cs; comparisons := [] |}
      | None =>
          let (ks, e3) := plot_comparison_graphs (Some data_dir) in
          {| status := exit_status e3; reported := msgs; tables := files p;
             graphs := cs; comparisons := ks |}
      end
  end.

Definition main (w : world) : outcome :=
  match check_coverage_directory (coverage w) with
  | (msgs, Ok true) =>
      run_phases msgs
        (match coverage w with Some (Dir es) => es | _ => [] end)
        (data w)
  | (msgs, _) =>
      {| status := 1; reported := msgs; tables := [];
         graphs := []; comparisons := [] |}
  end.

End Pipeline.

(** ** The command: [main] of [plot_graphs_only.py] *)

Module GraphsOnly.

Import Renderer Pipeline.

(** A resolved path: its components below the root, the root being the
    empty list. *)
Definition path : Type := list str.

(** [PurePath.name]: the last component, the empty string for the root. *)
Definition path_name (p : path) : str := last p [].

(** [PurePath.parent]: the root is its own parent. *)
Definition parent (p : path) : path := removelast p.

(** [p / c], for a relative component [c]. *)
Definition join (p : path) (c : str) : path := p ++ [c].

(** The command line after [resolve()]: [data_dir] is [None] when the
    option is absent or empty, which the test [if args.data_dir] takes for
    the same. *)
Record args : Type := {
  workdir : path;
  data_dir : option path
}.

(** The directory that is read and the directory that is written. *)
Definition directories (a : args) : path * path :=
  match data_dir a with
  | Some d => (d, parent d)
  | None =>
      let w := workdir a in
      if str_eqb (path_name w) (lit "data")
         && str_eqb (path_name (parent w)) (lit "graph")
      then (w, parent w)
      else (join (join w (lit "graph")) (lit "data"), join w (lit "graph"))
  end.

(** What a run leaves behind: the exit status, the directory of the
    figures, and the figures saved by each of the two phases. *)
Record run : Type := {
  exit_code : Z;
  graph_dir : path;
  figures : list chart;
  comparison_figures : list chart
}.

(** [main], for a file system that gives the entries of the paths that
    exist, none for a path that is a regular file.  The parent of a path
    that exists is a directory, so that [mkdir] with [exist_ok] changes
    nothing; an exception that escapes ends the process with status 1. *)
Definition main (fs : path -> option (list data_file)) (a : args) : run :=
  let (d, g) := directories a in
  match fs d with
  | None =>
      {| exit_code := 1; graph_dir := g; figures := [];
         comparison_figures := [] |}
  | Some entries =>
      let (cs, e1) := plot_branch_graphs (Some entries) in
      match e1 with
      | Some _ =>
          {| exit_code := 1; graph_dir := g; figures := cs;
             comparison_figures := [] |}
      | None =>
          let (ks, e2) := plot_comparison_graphs (Some entries) in
          {| exit_code := exit_status e2; graph_dir := g; figures := cs;
             comparison_figures := ks |}
      end
  end.

End GraphsOnly.

(** ** Inputs and predicates of the statements *)

Module Inputs.

Import LogParser Aggregator Renderer Pipeline.

(** *** Logs *)

(** A line of text holds no line feed and no carriage return. *)
Definition no_break (l : str) : Prop := ~ In LF l /\ ~ In CR l.

(** The text whose lines are [ls], each ended by a line feed. *)
Definition text_of_lines (ls : list str) : str :=
  concat (map (fun l => l ++ [LF]) ls).

(** A group of three lines: the lines, functions and branches summaries. *)
Definition group := (str * str * str)%type.

Definition branches_of (g : group) : str := snd g.

Definition lines_of_groups (gs : list group) : list str :=
  flat_map (fun g => [fst (fst g); snd (fst g); snd g]) gs.

Definition log_of_groups (gs : list group) : str :=
  text_of_lines (lines_of_groups gs).

(** A branches line [... (N of M branches) ...], [N] and [M] being written
    with the digits [n] and [m]. *)
Definition branches_line (pre : str) (n m : Decimal.uint) (post : str) : str :=
  pre ++ lit "(" ++ chars_of_uint n ++ lit " of " ++ chars_of_uint m
  ++ lit " branches)" ++ post.

(** What a branches line contributes: the integer [N] when it has the form
    above, with no parenthesis before the match; nothing when the pattern
    has no match in the line. *)
Inductive captures : str -> option Z -> Prop :=
| captures_count (pre post : str) (n m : Decimal.uint) :
    ~ In "("%char pre -> n <> Decimal.Nil -> m <> Decimal.Nil ->
    captures (branches_line pre n m post) (Some (Z.of_uint n))
| captures_nothing (l : str) :
    re_search l = None -> captures l None.

(** The values among a list of optional values. *)
Definition somes {A : Type} (l : list (option A)) : list A :=
  filter_map (fun o => o) l.

(** The result of the parser for the counts [ns]: [None] when there is
    none. *)
Definition counts_or_none (ns : list Z) : option (list Z) :=
  match ns with
  | [] => None
  | _ :: _ => Some ns
  end.

(** A log of two groups, with the counts [a] and [b]. *)
Definition sample_groups (a b : nat) : list group :=
  [(lit "lines......: 1.0% (1 of 100 lines)",
    lit "functions..: 1.0% (1 of 100 functions)",
    branches_line (lit "branches...: 1.0% ") (Nat.to_uint a)
                  (Nat.to_uint 99) []);
   (lit "lines......: 2.0% (2 of 100 lines)",
    lit "functions..: 2.0% (2 of 100 functions)",
    branches_line (lit "branches...: 2.0% ") (Nat.to_uint b)
                  (Nat.to_uint 99) [])].

(** A log of three groups, the second of which has no branches summary. *)
Definition groups_with_gap : list group :=
  [(lit "lines......: 1.0% (1 of 100 lines)",
    lit "functions..: 1.0% (1 of 100 functions)",
    branches_line (lit "branches...: 1.0% ") (Nat.to_uint 10)
                  (Nat.to_uint 99) []);
   (lit "lines......: 2.0% (2 of 100 lines)",
    lit "functions..: 2.0% (2 of 100 functions)",
    lit "branches...: no data found");
   (lit "lines......: 3.0% (3 of 100 lines)",
    lit "functions..: 3.0% (3 of 100 functions)",
    branches_line (lit "branches...: 3.0% ") (Nat.to_uint 20)
                  (Nat.to_uint 99) [])].

Definition sample_log (a b : nat) : str := log_of_groups (sample_groups a b).

(** A coverage tree with one fuzzer, one target and two campaigns. *)
Definition sample_coverage : list (str * node) :=
  [(lit "afl",
    Dir [(lit "target_a",
          Dir [(lit "2", Dir [(lit "coverage.log",
                               File (Some (sample_log 12 22)))]);
               (lit "1", Dir [(lit "coverage.log",
                               File (Some (sample_log 10 20)))])])])].

(** *** Tables *)

(** The arithmetic mean of column [j] of a table, as a fraction. *)
Definition column_mean (cd : table) (j : nat) : Q :=
  Qmake (sum (column cd j)) (Pos.of_nat (length cd)).

(** The float nearest to a rational; zero has no sign bit. *)
Definition nearest_float (q : Q) : float :=
  round_Q (Qnum q <? 0)%Z (Qabs q).

(** A quotient that is handed on unless it is past the range. *)
Definition checked (x : float) : result float :=
  match x with
  | S754_infinity _ => Raise OverflowError
  | _ => Ok x
  end.

(** A log with one group, whose count is 1 followed by 400 zeros, and a
    coverage tree with this log for its one campaign. *)
Definition huge_count : str := "1"%char :: repeat "0"%char 400.

Definition huge_count_log : str :=
  text_of_lines [lit "lines......: 1.0% (1 of 100 lines)";
                 lit "functions..: 1.0% (1 of 100 functions)";
                 lit "branches...: 1.0% (" ++ huge_count
                 ++ lit " of 1 branches)"].

Definition huge_count_coverage : list (str * node) :=
  [(lit "afl",
    Dir [(lit "target_a",
          Dir [(lit "1", Dir [(lit "coverage.log",
                               File (Some huge_count_log))])])])].




(** The text of a table with at least one campaign line and one average
    line after them; every label reads as an integer, so that none is
    [avg], and every sample has a count. *)
Definition complete_table_text (text : str) : Prop :=
  exists (cd : table) (avgs : list float),
    cd <> []
    /\ Forall (fun e => py_int (fst e) <> None /\ fst e <> lit "avg") cd
    /\ Forall (fun e => snd e <> []) cd
    /\ 1 <= min_columns cd
    /\ averages cd = Ok avgs
    /\ length avgs = min_columns cd
    /\ text = concat (map campaign_line cd) ++ avg_line avgs.

(** The text of a table that stops after its campaign lines. *)
Definition campaign_lines_only (text : str) : Prop :=
  exists cd : table,
    cd <> []
    /\ Forall (fun e => py_int (fst e) <> None /\ fst e <> lit "avg") cd
    /\ text = concat (map campaign_line cd).

(** What the files of a traversal look like: all complete, or, when
    [OverflowError] ended it, all complete but the last one, which stops
    after its campaign lines. *)
Definition well_ended (r : progress * option exn) : Prop :=
  match snd r with
  | Some OverflowError =>
      exists done w,
        files (fst r) = done ++ [w]
        /\ Forall (fun w => complete_table_text (snd w)) done
        /\ campaign_lines_only (snd w)
  | _ => Forall (fun w => complete_table_text (snd w)) (files (fst r))
  end.

(** *** Tables as text *)

(** A token of a table: not empty, and without white space. *)
Definition token (t : str) : Prop :=
  t <> [] /\ Forall (fun c => is_space c = false) t.

(** A label as the table format can hold it: it reads as an integer and has
    no white space. *)
Definition label_ok (l : str) : Prop :=
  py_int l <> None /\ Forall (fun c => is_space c = false) l.

(** The integer value of a label that has one. *)
Definition int_of (k : str) : Z :=
  match py_int k with
  | Some i => i
  | None => 0%Z
  end.

(** Two labels in ascending order of their integer values. *)
Definition label_le (a b : str) : Prop :=
  exists i j, py_int a = Some i /\ py_int b = Some j /\ (i <= j)%Z.

(** The number that [.2f] prints for the magnitude of a float, and the
    float nearest to what it prints, with the sign of the float. *)
Definition printed (x : float) : Q := Qmake (hundredths (magnitude x)) 100.

Definition two_decimals (x : float) : float :=
  match x with
  | S754_nan => S754_nan
  | S754_infinity s => S754_infinity s
  | _ => round_Q (sign_bit x) (printed x)
  end.

(** A campaign as the renderer holds it: every count has become the float
    nearest to it. *)
Definition to_floats (e : str * list Z) : str * list float :=
  (fst e, map float_of_int (snd e)).

(** The average row that is read back from the text of a table. *)
Definition read_average (cd : table) : option (list float) :=
  if 0 <? min_columns cd
  then match averages cd with
       | Ok avgs => Some (map two_decimals avgs)
       | Raise _ => None
       end
  else None.

(** A float that is not an infinity. *)
Definition finite_or_nan (x : float) : Prop :=
  match x with
  | S754_infinity _ => False
  | _ => True
  end.

(** A line of a table without its line feed. *)
Definition campaign_body (e : str * list Z) : str :=
  fst e ++ concat (map (fun count => SP :: format_int count) (snd e)).

Definition avg_body (avgs : list float) : str :=
  lit "avg" ++ concat (map (fun avg => SP :: format_2f avg) avgs).

(** The lines of the text of a table. *)
Definition table_bodies (cd : table) : list str :=
  map campaign_body cd
  ++ (if 0 <? min_columns cd
      then match averages cd with
           | Ok avgs => [avg_body avgs]
           | Raise _ => []
           end
      else []).

(** *** File names *)

(** [old in s]: [old] starts at some position of [s]. *)
Fixpoint contains (old s : str) : bool :=
  startswith old s
  || match s with
     | [] => false
     | _ :: t => contains old t
     end.

(** *** Charts of one table *)

(** The point count of a table: the length of the average row when there
    is one with a value, and the length of the first campaign's series
    otherwise.  (An [avg] line without value counts as no average row.) *)
Definition point_count (cd : dict (list float))
    (avg : option (list float)) : nat :=
  match avg with
  | Some (a :: l) => length (a :: l)
  | _ => match cd with
         | [] => 0
         | (_, vals) :: _ => length vals
         end
  end.

(** The line drawn for a campaign: the first [n] values of its series. *)
Definition series_line (n : nat) (vals : list float) : line :=
  {| xs := time_points n; ys := firstn n vals;
     color := lit "blue"; label := None |}.

(** A table file with three campaigns, the second shorter than the average
    row. *)
Definition short_series_file : data_file :=
  {| name := lit "target_afl_branch_count.txt";
     content := Some (lit "1 5 6" ++ [LF] ++ lit "2 7" ++ [LF]
                      ++ lit "3 1 2 3" ++ [LF]
                      ++ lit "avg 3.00 4.00" ++ [LF]) |}.

(** A file with a well-formed name and one campaign line that has a label
    and no value. *)
Definition label_only_file : data_file :=
  {| name := lit "target_afl_branch_count.txt";
     content := Some (lit "1" ++ [LF]) |}.

(** *** Comparison charts *)

(** What a data file contributes to [target_fuzzers]: the target and fuzzer
    names, and the series of the average. *)
Definition entry := (str * str * series)%type.

Definition target_of (e : entry) : str := fst (fst e).
Definition fuzzer_of (e : entry) : str := snd (fst e).

(** The contributions of the data files, in their order; a file without
    average row, or that is skipped, contributes nothing. *)
Definition comparison_entries (fs : list data_file) : result (list entry) :=
  bind (mapM comparison_entry fs) (fun os => Ok (somes os)).

(** The fuzzers of target [t] that have an average row, with their
    series. *)
Definition fuzzers_of (t : str) (es : list entry) : dict series :=
  map (fun e => (fuzzer_of e, snd e))
      (filter (fun e => str_eqb (target_of e) t) es).

(** [target_fuzzers] after the contributions [es]. *)
Definition build (es : list entry) (acc : dict (dict series))
    : dict (dict series) :=
  fold_left (fun tf e => store (target_of e) (fuzzer_of e) (snd e) tf) es acc.

Definition series_of (d : dict series) (z : str) : series :=
  match dict_get z d with
  | Some v => v
  | None => ([], [])
  end.

(** The line of the fuzzer at index [i] of the sorted fuzzer names. *)
Definition comparison_line (d : dict series) (i : nat) (z : str) : line :=
  {| xs := snd (series_of d z); ys := fst (series_of d z);
     color := nth (i mod 8) colors []; label := Some z |}.

(** The lines of a comparison chart: one per fuzzer, in the order of the
    sorted names. *)
Definition average_lines (d : dict series) : list line :=
  map (fun iz => comparison_line d (fst iz) (snd iz))
      (combine (seq 0 (length d)) (sorted (keys d))).

(** A series whose average row has a value, with its time points. *)
Definition good_series (v : series) : Prop :=
  fst v <> [] /\ snd v = time_points (length (fst v)).

(** The figure that the loop over the targets saves for [t], if any. *)
Definition pick (tf : dict (dict series)) (t : str) : option chart :=
  match dict_get t tf with
  | Some d =>
      if length d <=? 1 then None
      else match draw_comparison t d with
           | Ok c => Some c
           | Raise _ => None
           end
  | None => None
  end.

(** Two table files of one target with an average row, and one of another
    target. *)
Definition comparison_files : list data_file :=
  [{| name := lit "tgt_afl_branch_count.txt";
      content := Some (lit "1 10 20" ++ [LF]
                       ++ lit "avg 10.00 20.00" ++ [LF]) |};
   {| name := lit "tgt_zzuf_branch_count.txt";
      content := Some (lit "1 30 40" ++ [LF]
                       ++ lit "avg 30.00 40.00" ++ [LF]) |};
   {| name := lit "zlib_afl_branch_count.txt";
      content := Some (lit "1 5" ++ [LF] ++ lit "avg 5.00" ++ [LF]) |}].

(** What these files contribute. *)
Definition comparison_entries_sample : list entry :=
  [(lit "tgt", lit "afl",
    ([float_of_int 10; float_of_int 20], [0; 30]%Z));
   (lit "tgt", lit "zzuf",
    ([float_of_int 30; float_of_int 40], [0; 30]%Z));
   (lit "zlib", lit "afl", ([float_of_int 5], [0]%Z))].

End Inputs.

(** ** Further inputs and predicates *)

Module Statements.

Import LogParser Aggregator Renderer Pipeline Inputs.

(** *** Logs *)

(** What a branches line contributes: the integer value of group 1 of the
    leftmost match. *)
Definition captured (l : str) : option Z :=
  match re_search l with
  | Some g => py_int g
  | None => None
  end.

(** The text whose lines are [ls], each ended by a carriage return and a
    line feed. *)
Definition text_of_lines_crlf (ls : list str) : str :=
  concat (map (fun l => l ++ [CR; LF]) ls).

(** *** Coverage trees *)

Definition is_dir (x : node) : bool :=
  match x with
  | Dir _ => true
  | File _ => false
  end.

(** The entries of a directory that are directories. *)
Definition only_dirs (es : list (str * node)) : list (str * node) :=
  filter (fun e => is_dir (snd e)) es.

(** The sub-directories of a directory, their entries changed by [f]. *)
Definition prune_inside (f : list (str * node) -> list (str * node))
    (es : list (str * node)) : list (str * node) :=
  map (fun e => (fst e, match snd e with
                        | Dir xs => Dir (f xs)
                        | File c => File c
                        end))
      (only_dirs es).

(** A coverage tree without the regular files that lie beside the fuzzer,
    target and campaign directories. *)
Definition prune (coverage : list (str * node)) : list (str * node) :=
  prune_inside (prune_inside only_dirs) coverage.

(** The campaigns of a table whose label has the integer value [k]. *)
Definition with_key (k : Z) (cd : table) : table :=
  filter (fun e => (int_of (fst e) =? k)%Z) cd.

(** A target with one campaign, whose name is no number. *)
Definition misnamed_campaigns : list (str * node) :=
  [(lit "run1", Dir [(lit "coverage.log", File (Some (sample_log 10 20)))])].

(** *** Charts *)

(** The series kept for the fuzzers hold the time points of their row. *)
Definition timed (tf : dict (dict series)) : Prop :=
  forall t d z v,
    dict_get t tf = Some d -> dict_get z d = Some v ->
    snd v = time_points (length (fst v)).

(** The figure that the loop over the data files saves for [f], if any. *)
Definition chart_of (f : data_file) : option chart :=
  match plot_file f with
  | Ok (Some c) => Some c
  | _ => None
  end.

(** A file whose table has no point, between two files that are drawn. *)
Definition batch_with_bad_file : list data_file :=
  [short_series_file; label_only_file;
   {| name := lit "zlib_afl_branch_count.txt";
      content := Some (lit "1 5" ++ [LF] ++ lit "avg 5.00" ++ [LF]) |}].

(** The campaign directories of the one target of [sample_coverage]. *)
Definition sample_campaigns : list (str * node) :=
  [(lit "2", Dir [(lit "coverage.log", File (Some (sample_log 12 22)))]);
   (lit "1", Dir [(lit "coverage.log", File (Some (sample_log 10 20)))])].

(** *** Runs *)

(** The entries of [graph/data] once the aggregation phase of
    [plot_coverage.py] has written its tables. *)
Definition data_after (w : world) : list data_file :=
  fold_left (fun d t => write_file t d)
            (files (fst (collect_and_save_branch_data
                           (match coverage w with
                            | Some (Dir es) => es
                            | _ => []
                            end))))
            (match data w with Some d => d | None => [] end).

(** A path is the data directory of some graph directory. *)
Definition is_data_path (p : GraphsOnly.path) : bool :=
  str_eqb (GraphsOnly.path_name p) (lit "data")
  && str_eqb (GraphsOnly.path_name (GraphsOnly.parent p)) (lit "graph").

(** A result directory with the coverage tree [sample_coverage]. *)
Definition sample_world : world :=
  {| coverage := Some (Dir sample_coverage); data := None |}.

(** The file system after the run on [sample_world] in [/results]. *)
Definition sample_fs (p : GraphsOnly.path) : option (list data_file) :=
  if list_eq_dec (list_eq_dec ascii_dec) p
       [lit "results"; lit "graph"; lit "data"]
  then Some (data_after sample_world)
  else None.


(** *** Floats *)

(** A float that is a zero or a number: neither an infinity nor
    not-a-number. *)
Definition finite (x : float) : Prop :=
  match x with
  | S754_zero _ | S754_finite _ _ _ => True
  | _ => False
  end.

End Statements.

(** * Part II: properties *)

Import LogParser Aggregator Renderer Pipeline Inputs.

(** ** The Y axis *)

Section AxisFacts.

Lemma zero_is_zero : Axis.zero = S754_zero false.
Proof. vm_compute. reflexivity. Qed.

Lemma fifty_is_finite :
  Axis.fifty = S754_finite false 7036874417766400 (-47).
Proof. vm_compute. reflexivity. Qed.

Lemma eqb_zero_below_fifty (x : float) :
  Axis.eqb x Axis.zero = true -> Axis.ltb x Axis.fifty = true.
Proof.
  rewrite zero_is_zero, fifty_is_finite.
  destruct x as [s|s| |s m e]; unfold Axis.eqb, Axis.ltb, SFeqb, SFltb;
    cbn [SFcompare]; try discriminate; try reflexivity;
    destruct s; try discriminate; try reflexivity.
Qed.

Lemma max2_not_below (a b : float) :
  Axis.ltb b b = false -> Axis.ltb (Axis.max2 a b) b = false.
Proof.
  intro H. unfold Axis.max2. destruct (Axis.ltb a b) eqn:E; assumption.
Qed.

Lemma first_margin_not_below_50 (lo hi : float) :
  Axis.ltb (Axis.first_margin lo hi) Axis.fifty = false.
Proof. apply max2_not_below. vm_compute. reflexivity. Qed.

Lemma first_margin_not_zero (lo hi : float) :
  Axis.eqb (Axis.first_margin lo hi) Axis.zero = false.
Proof.
  destruct (Axis.eqb (Axis.first_margin lo hi) Axis.zero) eqn:E;
    [|reflexivity].
  apply eqb_zero_below_fifty in E.
  now rewrite first_margin_not_below_50 in E.
Qed.

Lemma margin_is_first_margin (lo hi : float) :
  Axis.margin lo hi = Axis.first_margin lo hi.
Proof. unfold Axis.margin. now rewrite first_margin_not_zero. Qed.

Lemma py_min_repeat (x : float) (n : nat) :
  Axis.py_min x (repeat x n) = x.
Proof.
  unfold Axis.py_min. induction n as [|n IH]; simpl; [reflexivity|].
  destruct (Axis.ltb x x); exact IH.
Qed.

Lemma py_max_repeat (x : float) (n : nat) :
  Axis.py_max x (repeat x n) = x.
Proof.
  unfold Axis.py_max. induction n as [|n IH]; simpl; [reflexivity|].
  destruct (Axis.ltb x x); exact IH.
Qed.

Lemma ylim_general (x : float) (l : list float) :
  Axis.ylim (x :: l)
  = Some (Axis.sub (Axis.py_min x l)
                   (Axis.first_margin (Axis.py_min x l) (Axis.py_max x l)),
          Axis.add (Axis.py_max x l)
                   (Axis.first_margin (Axis.py_min x l) (Axis.py_max x l))).
Proof. unfold Axis.ylim. now rewrite margin_is_first_margin. Qed.

Theorem ylim_of_flat_40 :
  (forall x l,
      Axis.ylim (x :: l)
      = Some (Axis.sub (Axis.py_min x l)
                (Axis.first_margin (Axis.py_min x l) (Axis.py_max x l)),
              Axis.add (Axis.py_max x l)
                (Axis.first_margin (Axis.py_min x l) (Axis.py_max x l)))
      /\ Axis.ltb (Axis.first_margin (Axis.py_min x l) (Axis.py_max x l))
                  Axis.fifty = false
      /\ Axis.eqb (Axis.first_margin (Axis.py_min x l) (Axis.py_max x l))
                  Axis.zero = false)
  /\ (forall n,
         Axis.ylim (repeat (float_of_int 40) (S n))
         = Some (float_of_int (-10), float_of_int 90))
  /\ Axis.margin (float_of_int 40) (float_of_int 40) = float_of_int 50
  /\ Axis.fallback_margin (float_of_int 40) = float_of_int 10
  /\ Axis.sub (float_of_int 40) (float_of_int 10) = float_of_int 30
  /\ Axis.add (float_of_int 40) (float_of_int 10) = float_of_int 50.
Proof.
  split; [|split; [|repeat split; vm_compute; reflexivity]].
  - intros x l. split; [apply ylim_general|].
    split; [apply first_margin_not_below_50 | apply first_margin_not_zero].
  - intro n. unfold Axis.ylim. cbn [repeat].
    rewrite py_min_repeat, py_max_repeat. vm_compute. reflexivity.
Qed.

End AxisFacts.

(** ** The command *)

Section PipelineFacts.

Lemma tables_of_run_phases msgs entries existing :
  tables (run_phases msgs entries existing)
  = files (fst (collect_and_save_branch_data entries)).
Proof.
  unfold run_phases.
  destruct (collect_and_save_branch_data entries) as [p [x|]];
    [reflexivity|].
  cbv zeta.
  match goal with
  | |- context [plot_branch_graphs ?d] =>
      destruct (plot_branch_graphs d) as [cs [x|]]; [reflexivity|];
      destruct (plot_comparison_graphs d) as [ks e3]; reflexivity
  end.
Qed.

(** C8.  When the coverage directory is absent or has no entry, the command
    reports it and ends with status 1, and no table is written and no figure
    saved.  When the directory has an entry, the command runs the phases on
    its entries: the tables written are those of the aggregation. *)
Theorem main_checks_coverage_first :
  (forall w : world,
      coverage w = None \/ coverage w = Some (Dir []) ->
      status (main w) = 1%Z
      /\ (reported (main w) = [CoverageNotFound]
          \/ reported (main w) = [CoverageEmpty])
      /\ tables (main w) = []
      /\ graphs (main w) = []
      /\ comparisons (main w) = [])
  /\ (forall (w : world) e es,
         coverage w = Some (Dir (e :: es)) ->
         main w = run_phases [CoverageFound] (e :: es) (data w)
         /\ tables (main w)
            = files (fst (collect_and_save_branch_data (e :: es)))).
Proof.
  split.
  - intros [c d] [H|H]; simpl in H; subst c; cbn; auto 10.
  - intros [c d] e es H; simpl in H; subst c.
    unfold main; cbn [coverage check_coverage_directory data].
    split; [reflexivity|]. apply tables_of_run_phases.
Qed.

Lemma main_checks_coverage_first_witness :
  status (main {| coverage := None; data := None |}) = 1%Z
  /\ tables (main {| coverage := Some (Dir []); data := Some [] |}) = []
  /\ main {| coverage := Some (Dir [(lit "afl", Dir [])]); data := None |}
     = run_phases [CoverageFound] [(lit "afl", Dir [])] None.
Proof.
  split; [|split].
  - apply (proj1 main_checks_coverage_first
                 {| coverage := None; data := None |}).
    left; reflexivity.
  - apply (proj1 main_checks_coverage_first
                 {| coverage := Some (Dir []); data := Some [] |}).
    right; reflexivity.
  - apply (proj2 main_checks_coverage_first
                 {| coverage := Some (Dir [(lit "afl", Dir [])]);
                    data := None |}
                 (lit "afl", Dir []) []).
    reflexivity.
Defined.

End PipelineFacts.

(** ** A table that cannot be drawn *)

Section Partiality.

(** C10.  The file is accepted: its name decodes and its text parses to one
    campaign without values and no average.  The point count is then zero,
    the list of time points is empty, taking its last element raises
    [IndexError], and the loop over the data files ends there, whatever
    files follow. *)
Theorem label_only_table_aborts_batch :
  decode_name (name label_only_file) = Some (lit "target", lit "afl")
  /\ parse_table (lit "1" ++ [LF]) = Ok ([(lit "1", [])], None)
  /\ num_points [] None = 0
  /\ time_points 0 = []
  /\ last_point (time_points 0) = Raise IndexError
  /\ plot_file label_only_file = Raise IndexError
  /\ forall rest,
       plot_files (label_only_file :: rest) = ([], Some IndexError).
Proof.
  repeat split; try reflexivity.
Qed.

End Partiality.

(** ** The average row *)

Section AverageFacts.

Lemma filter_map_ext_in {A B : Type} (f g : A -> option B) (l : list A) :
  (forall x, In x l -> f x = g x) -> filter_map f l = filter_map g l.
Proof.
  induction l as [|x t IH]; intro H; simpl; [reflexivity|].
  rewrite (H x (or_introl eq_refl)), IH; [reflexivity|].
  intros y Hy. apply H. now right.
Qed.

Lemma filter_map_total {A B : Type} (f : A -> option B) (g : A -> B)
    (l : list A) :
  (forall x, In x l -> f x = Some (g x)) -> filter_map f l = map g l.
Proof.
  induction l as [|x t IH]; intro H; simpl; [reflexivity|].
  rewrite (H x (or_introl eq_refl)), IH; [reflexivity|].
  intros y Hy. apply H. now right.
Qed.

Lemma fold_min_le (ns : list nat) (n : nat) :
  fold_left Nat.min ns n <= n
  /\ forall m, In m ns -> fold_left Nat.min ns n <= m.
Proof.
  revert n. induction ns as [|k ns IH]; intro n; simpl.
  - split; [lia | intros m []].
  - destruct (IH (Nat.min n k)) as [H1 H2]. split; [lia|].
    intros m [<-|Hm]; [lia | now apply H2].
Qed.

Lemma fold_min_in (ns : list nat) (n : nat) :
  fold_left Nat.min ns n = n \/ In (fold_left Nat.min ns n) ns.
Proof.
  revert n. induction ns as [|k ns IH]; intro n; simpl; [now left|].
  destruct (IH (Nat.min n k)) as [H|H]; [|now right; right].
  rewrite H. destruct (Nat.min_spec n k) as [[_ E]|[_ E]]; rewrite E; auto.
Qed.

Lemma min_columns_le (cd : table) (e : str * list Z) :
  In e cd -> min_columns cd <= length (snd e).
Proof.
  unfold min_columns. destruct cd as [|e0 cd]; [intros []|].
  cbn [map]. intros [<-|H].
  - apply (proj1 (fold_min_le _ _)).
  - apply (proj2 (fold_min_le _ _)).
    now apply (in_map (fun e => length (snd e))).
Qed.

Lemma min_columns_attained (cd : table) :
  cd <> [] -> exists e, In e cd /\ length (snd e) = min_columns cd.
Proof.
  unfold min_columns. destruct cd as [|e0 cd]; [congruence|]. intros _.
  cbn [map].
  destruct (fold_min_in (map (fun e => length (snd e)) cd) (length (snd e0)))
    as [H|H].
  - exists e0. split; [now left | now rewrite H].
  - apply in_map_iff in H. destruct H as [e [E He]].
    exists e. split; [now right | exact E].
Qed.

Lemma column_length (cd : table) (j : nat) : length (column cd j) = length cd.
Proof. apply length_map. Qed.

Lemma column_not_empty (cd : table) (j : nat) :
  cd <> [] -> column cd j <> [].
Proof. destruct cd; [congruence | discriminate]. Qed.

Lemma to_pos_of_nat (n : nat) :
  n <> 0 -> Z.to_pos (Z.abs (Z.of_nat n)) = Pos.of_nat n.
Proof.
  destruct n as [|n]; [congruence|]. intros _.
  rewrite Z.abs_eq by lia. cbn [Z.of_nat Z.to_pos].
  apply Pos.of_nat_succ.
Qed.

(** The quotient of an integer by a length: the float nearest to the
    fraction, unless it is past the range. *)
Lemma true_divide_nat (a : Z) (n : nat) :
  n <> 0 ->
  true_divide a (Z.of_nat n) = checked (nearest_float (a # Pos.of_nat n)).
Proof.
  intro H. unfold true_divide.
  destruct (Z.eqb_spec (Z.of_nat n) 0) as [E|_]; [lia|].
  assert (L : (Z.of_nat n <? 0)%Z = false) by (apply Z.ltb_ge; lia).
  rewrite L, xorb_false_r, (to_pos_of_nat H).
  unfold checked, nearest_float, Qabs. cbn [Qnum].
  now destruct (round_Q (a <? 0)%Z (Z.abs a # Pos.of_nat n)).
Qed.

Lemma averages_from_spec (cd : table) (cols : list nat) :
  cd <> [] ->
  averages_from cd cols
  = mapM (fun j => checked (nearest_float (column_mean cd j))) cols.
Proof.
  intro H. induction cols as [|j cols IH]; [reflexivity|].
  cbn [averages_from mapM]. rewrite IH.
  pose proof (column_not_empty j H) as N.
  destruct (column cd j) as [|c cs] eqn:E; [congruence|].
  rewrite <- E, true_divide_nat by (rewrite E; discriminate).
  unfold column_mean. now rewrite column_length.
Qed.

Lemma averages_spec (cd : table) :
  cd <> [] ->
  averages cd
  = mapM (fun j => checked (nearest_float (column_mean cd j)))
         (seq 0 (min_columns cd)).
Proof. apply averages_from_spec. Qed.

Lemma checked_Ok (x y : float) : checked x = Ok y -> y = x /\ finite_or_nan x.
Proof.
  destruct x; cbn; intro H; try discriminate; injection H as <-;
    split; reflexivity || exact I.
Qed.

Lemma mapM_checked {A : Type} (f : A -> float) (l : list A)
    (ys : list float) :
  mapM (fun x => checked (f x)) l = Ok ys ->
  ys = map f l /\ Forall (fun x => finite_or_nan (f x)) l.
Proof.
  revert ys. induction l as [|x l IH]; intros ys H.
  - injection H as <-. split; [reflexivity|constructor].
  - cbn [mapM] in H. destruct (checked (f x)) as [y|e] eqn:C;
      cbn [bind] in H; [|discriminate].
    destruct (mapM (fun x => checked (f x)) l) as [zs|e]; cbn [bind] in H;
      [|discriminate].
    injection H as <-. destruct (IH zs eq_refl) as [-> F].
    destruct (checked_Ok _ C) as [-> Fx].
    split; [reflexivity | now constructor].
Qed.

Lemma mapM_checked_raise {A : Type} (f : A -> float) (l : list A)
    (x : exn) :
  mapM (fun x => checked (f x)) l = Raise x -> x = OverflowError.
Proof.
  induction l as [|a l IH]; [discriminate|]. cbn [mapM].
  destruct (f a); cbn [checked bind];
    try (intro H; now injection H as <-);
    destruct (mapM (fun x => checked (f x)) l); cbn [bind];
    try discriminate; intro H; injection H as <-; now apply IH.
Qed.

Lemma averages_Ok (cd : table) (avgs : list float) :
  cd <> [] -> averages cd = Ok avgs ->
  avgs = map (fun j => nearest_float (column_mean cd j))
             (seq 0 (min_columns cd)).
Proof.
  intros H E. rewrite (averages_spec H) in E.
  exact (proj1 (mapM_checked _ _ E)).
Qed.

Lemma averages_length (cd : table) (avgs : list float) :
  cd <> [] -> averages cd = Ok avgs -> length avgs = min_columns cd.
Proof.
  intros H E. rewrite (averages_Ok H E). now rewrite length_map, length_seq.
Qed.

Lemma averages_raise (cd : table) (x : exn) :
  averages cd = Raise x -> x = OverflowError.
Proof.
  destruct cd as [|e cd].
  - discriminate.
  - rewrite averages_spec by discriminate. apply mapM_checked_raise.
Qed.









End AverageFacts.

(** ** Sorting and the error monad *)

Section SortFacts.

Variable A : Type.
Variable leb : A -> A -> bool.

Lemma insert_perm (x : A) (l : list A) :
  Permutation (x :: l) (insert leb x l).
Proof.
  induction l as [|y t IH]; simpl; [reflexivity|].
  destruct (leb x y); [reflexivity|].
  rewrite perm_swap. now apply perm_skip.
Qed.

Lemma sort_perm (l : list A) : Permutation l (sort leb l).
Proof.
  induction l as [|x t IH]; simpl; [reflexivity|].
  rewrite <- insert_perm. now apply perm_skip.
Qed.

Hypothesis leb_total : forall x y, leb x y = true \/ leb y x = true.
Hypothesis leb_trans :
  forall x y z, leb x y = true -> leb y z = true -> leb x z = true.

Lemma insert_sorted (x : A) (l : list A) :
  StronglySorted (fun a b => leb a b = true) l ->
  StronglySorted (fun a b => leb a b = true) (insert leb x l).
Proof.
  induction 1 as [|y t Ht IH Hy]; simpl.
  - repeat constructor.
  - destruct (leb x y) eqn:E.
    + constructor; [now constructor|].
      constructor; [exact E|].
      eapply Forall_impl; [|exact Hy]. intros z Hz. eapply leb_trans; eauto.
    + constructor; [exact IH|].
      apply (Permutation_Forall (insert_perm x t)).
      constructor; [|exact Hy].
      destruct (leb_total x y) as [C|C]; [congruence | exact C].
Qed.

Lemma sort_sorted (l : list A) :
  StronglySorted (fun a b => leb a b = true) (sort leb l).
Proof.
  induction l as [|x t IH]; simpl; [constructor | now apply insert_sorted].
Qed.

(** A list that is already in order is left as it is. *)
Lemma sort_of_sorted (l : list A) :
  StronglySorted (fun a b => leb a b = true) l -> sort leb l = l.
Proof.
  induction 1 as [|y t Ht IH Hy]; simpl; [reflexivity|].
  rewrite IH. destruct t as [|z t]; simpl; [reflexivity|].
  inversion Hy as [|? ? E _]; subst. now rewrite E.
Qed.

End SortFacts.

Section MonadFacts.

Variables A B : Type.

Lemma mapM_Ok (f : A -> result B) (l : list A) (ys : list B) :
  mapM f l = Ok ys -> Forall2 (fun x y => f x = Ok y) l ys.
Proof.
  revert ys. induction l as [|x t IH]; simpl; intros ys H.
  - injection H as <-. constructor.
  - destruct (f x) as [y|e] eqn:E; simpl in H; [|discriminate].
    destruct (mapM f t) as [zs|e]; simpl in H; [|discriminate].
    injection H as <-. constructor; [exact E | now apply IH].
Qed.

Lemma mapM_total (f : A -> result B) (g : A -> B) (l : list A) :
  (forall x, In x l -> f x = Ok (g x)) -> mapM f l = Ok (map g l).
Proof.
  induction l as [|x t IH]; intro H; simpl; [reflexivity|].
  rewrite (H x (or_introl eq_refl)). simpl.
  rewrite IH; [reflexivity|]. intros y Hy. apply H. now right.
Qed.

End MonadFacts.

Section SortCampaigns.

(** The keys that [sort] computes for a table. *)
Lemma keyed_snd (T : Type) (key : T -> option Z) (l : list T)
    (keyed : list (Z * T)) :
  mapM (fun e => of_option ValueError (option_map (fun k => (k, e)) (key e)))
       l = Ok keyed ->
  map snd keyed = l /\ Forall (fun p => key (snd p) = Some (fst p)) keyed.
Proof.
  intro H. apply mapM_Ok in H.
  induction H as [|x y l ys Hxy H IH]; [split; constructor|].
  destruct IH as [IH1 IH2].
  destruct (key x) as [k|] eqn:K; simpl in Hxy; [|discriminate].
  injection Hxy as <-. simpl. split; [now rewrite IH1|].
  constructor; [exact K | exact IH2].
Qed.

Lemma sort_campaigns_perm (cd sd : table) :
  sort_campaigns cd = Ok sd -> Permutation cd sd.
Proof.
  unfold sort_campaigns. intro H.
  destruct (mapM _ cd) as [keyed|e] eqn:E; simpl in H; [|discriminate].
  injection H as <-. apply keyed_snd in E. destruct E as [E _].
  rewrite <- E at 1. apply Permutation_map. apply sort_perm.
Qed.

Lemma sort_campaigns_keys (cd sd : table) :
  sort_campaigns cd = Ok sd -> Forall (fun e => py_int (fst e) <> None) sd.
Proof.
  unfold sort_campaigns. intro H.
  destruct (mapM _ cd) as [keyed|e] eqn:E; simpl in H; [|discriminate].
  injection H as <-.
  apply (keyed_snd (fun e => py_int (fst e))) in E. destruct E as [_ E].
  apply Forall_map. unfold sort_by_key.
  eapply Permutation_Forall; [apply sort_perm|].
  eapply Forall_impl; [|exact E].
  intros [k e] He. simpl in *. congruence.
Qed.

Lemma mapM_of_option_raise {A B : Type} (f : A -> option B) (e x : exn)
    (l : list A) :
  mapM (fun a => of_option e (f a)) l = Raise x -> x = e.
Proof.
  induction l as [|a l IH]; [discriminate|]. cbn [mapM].
  destruct (f a); cbn [of_option bind].
  - destruct (mapM _ l); cbn [bind]; [discriminate|].
    intro H. injection H as <-. now apply IH.
  - intro H. now injection H as <-.
Qed.

Lemma sort_campaigns_raise (cd : table) (x : exn) :
  sort_campaigns cd = Raise x -> x = ValueError.
Proof.
  unfold sort_campaigns.
  destruct (mapM _ cd) as [keyed|y] eqn:E; cbn [bind]; [discriminate|].
  intro H. injection H as <-.
  exact (mapM_of_option_raise
           (fun e => option_map (fun k => (k, e)) (py_int (fst e))) _ _ E).
Qed.

End SortCampaigns.

(** ** The files that the aggregator writes *)

Section AggregatorFacts.

Lemma extract_never_empty (log : option str) :
  extract_branch_hit_counts log <> Some [].
Proof.
  unfold extract_branch_hit_counts. destruct log as [content|]; [|discriminate].
  destruct (branch_counts _) as [[|n ns]|]; discriminate.
Qed.

Lemma filter_map_In {A B : Type} (f : A -> option B) (l : list A) (y : B) :
  In y (filter_map f l) <-> exists x, In x l /\ f x = Some y.
Proof.
  induction l as [|x t IH]; simpl.
  - split; [intros [] | intros [x [[] _]]].
  - destruct (f x) as [z|] eqn:E; simpl; rewrite IH; split.
    + intros [<-|[x' [H1 H2]]]; [exists x; auto | exists x'; auto].
    + intros [x' [[<-|H1] H2]]; [left; congruence | right; exists x'; auto].
    + intros [x' [H1 H2]]; exists x'; auto.
    + intros [x' [[<-|H1] H2]]; [congruence | exists x'; auto].
Qed.

Lemma campaigns_nonempty (campaigns : list (str * node)) (e : str * list Z) :
  In e (campaigns_of campaigns) -> snd e <> [].
Proof.
  unfold campaigns_of. rewrite filter_map_In. intros [[n x] [_ H]].
  unfold campaign_entry in H. destruct x as [c|fs]; [discriminate|].
  destruct (lookup _ fs) as [log|]; [|discriminate].
  destruct (extract_branch_hit_counts _) as [counts|] eqn:E; [|discriminate].
  injection H as <-. simpl. intros ->. exact (extract_never_empty _ E).
Qed.

Lemma min_columns_positive (sd : table) :
  sd <> [] -> Forall (fun e => snd e <> []) sd -> 1 <= min_columns sd.
Proof.
  intros N F. destruct (@min_columns_attained _ N) as [e [He E]].
  rewrite <- E. rewrite Forall_forall in F. specialize (F e He).
  destruct (snd e); [congruence | simpl; lia].
Qed.

(** The two ways in which the block is left when every sample has a
    count: after the average line, or before it with [OverflowError]. *)
Lemma write_block_cases (sd : table) :
  sd <> [] -> Forall (fun e => snd e <> []) sd ->
  (exists avgs,
      averages sd = Ok avgs
      /\ write_block sd
         = (concat (map campaign_line sd) ++ avg_line avgs, None))
  \/ (averages sd = Raise OverflowError
      /\ write_block sd
         = (concat (map campaign_line sd), Some OverflowError)).
Proof.
  intros N F. pose proof (@min_columns_positive _ N F) as M.
  apply Nat.ltb_lt in M. unfold write_block.
  destruct sd as [|e sd]; [congruence|]. rewrite M.
  destruct (averages (e :: sd)) as [avgs|x] eqn:A.
  - left. now exists avgs.
  - right. rewrite (@averages_raise _ _ A) in *. now split.
Qed.

Lemma labels_not_avg (sd : table) :
  Forall (fun e => py_int (fst e) <> None) sd ->
  Forall (fun e => py_int (fst e) <> None /\ fst e <> lit "avg") sd.
Proof.
  intro K. eapply Forall_impl; [|exact K]. intros e He. split; [exact He|].
  intros E. apply He. rewrite E. reflexivity.
Qed.

(** The four ways in which the body of the loop over the targets ends, with
    what is left in the data directory. *)
Lemma save_target_cases fuzzer_name target_name campaigns :
  (campaigns_of campaigns = []
   /\ save_target fuzzer_name target_name campaigns = (None, Ok None))
  \/ (sort_campaigns (campaigns_of campaigns) = Raise ValueError
      /\ save_target fuzzer_name target_name campaigns
         = (None, Raise ValueError))
  \/ (exists sd avgs,
         sort_campaigns (campaigns_of campaigns) = Ok sd
         /\ sd <> []
         /\ Forall (fun e => snd e <> []) sd
         /\ averages sd = Ok avgs
         /\ save_target fuzzer_name target_name campaigns
            = (Some (Aggregator.output_filename target_name fuzzer_name,
                     concat (map campaign_line sd) ++ avg_line avgs),
               Ok (Some (length sd))))
  \/ (exists sd,
         sort_campaigns (campaigns_of campaigns) = Ok sd
         /\ sd <> []
         /\ averages sd = Raise OverflowError
         /\ save_target fuzzer_name target_name campaigns
            = (Some (Aggregator.output_filename target_name fuzzer_name,
                     concat (map campaign_line sd)),
               Raise OverflowError)).
Proof.
  unfold save_target.
  pose proof (@campaigns_nonempty campaigns) as NV.
  destruct (campaigns_of campaigns) as [|e es] eqn:C; [now left|].
  right. destruct (sort_campaigns (e :: es)) as [sd|x] eqn:SC.
  - right. pose proof (@sort_campaigns_perm _ _ SC) as P.
    assert (N : sd <> []).
    { intros ->. apply Permutation_sym, Permutation_nil in P.
      discriminate. }
    assert (F : Forall (fun e => snd e <> []) sd).
    { apply (Permutation_Forall P). apply Forall_forall. exact NV. }
    destruct (@write_block_cases _ N F) as [[avgs [A W]]|[A W]]; rewrite W.
    + left. exists sd, avgs. repeat split; assumption.
    + right. exists sd. repeat split; assumption.
  - left. rewrite (@sort_campaigns_raise _ _ SC) in *. now split.
Qed.

Lemma sorted_table_text (sd : table) (avgs : list float) :
  sd <> [] -> Forall (fun e => py_int (fst e) <> None) sd ->
  Forall (fun e => snd e <> []) sd -> averages sd = Ok avgs ->
  complete_table_text (concat (map campaign_line sd) ++ avg_line avgs).
Proof.
  intros N K F A. exists sd, avgs.
  repeat split; try assumption.
  - now apply labels_not_avg.
  - now apply min_columns_positive.
  - now apply averages_length.
Qed.

Lemma collect_targets_well_ended fuzzer_name targets p :
  Forall (fun w => complete_table_text (snd w)) (files p) ->
  well_ended (collect_targets fuzzer_name targets p).
Proof.
  revert p. induction targets as [|[target_name x] rest IH]; intros p H;
    cbn [collect_targets]; [exact H|].
  destruct x as [c|campaigns]; [now apply IH|].
  destruct (save_target_cases fuzzer_name target_name campaigns)
    as [[_ S]|[[_ S]|[[sd [avgs [SC [N [F [A S]]]]]]|[sd [SC [N [A S]]]]]]];
    rewrite S.
  - apply IH. cbn [files]. now rewrite app_nil_r.
  - unfold well_ended. cbn [fst snd files]. now rewrite app_nil_r.
  - apply IH. cbn [files]. apply Forall_app. split; [exact H|].
    constructor; [|constructor]. cbn [snd].
    apply sorted_table_text; try assumption.
    exact (@sort_campaigns_keys _ _ SC).
  - unfold well_ended. cbn [fst snd files].
    eexists _, _. split; [reflexivity|]. split; [exact H|].
    exists sd. split; [exact N|]. split; [|reflexivity].
    apply labels_not_avg. exact (@sort_campaigns_keys _ _ SC).
Qed.

Lemma collect_fuzzers_well_ended fuzzers p :
  Forall (fun w => complete_table_text (snd w)) (files p) ->
  well_ended (collect_fuzzers fuzzers p).
Proof.
  revert p. induction fuzzers as [|[fuzzer_name x] rest IH]; intros p H;
    cbn [collect_fuzzers]; [exact H|].
  destruct x as [c|targets]; [now apply IH|].
  pose proof (@collect_targets_well_ended fuzzer_name targets p H) as T.
  destruct (collect_targets fuzzer_name targets p) as [p' [x|]];
    [exact T | now apply IH].
Qed.

Lemma no_avg_line (cd : table) (avgs : list float) (text : str) :
  ~ In "a"%char text ->
  text <> concat (map campaign_line cd) ++ avg_line avgs.
Proof.
  intros N E. apply N. rewrite E. apply in_or_app. right.
  unfold avg_line. apply in_or_app. left. now left.
Qed.

(** C9, as the code has it.  The parser never returns an empty list, so
    every sample stored for a campaign has a count and the shortest length
    of a table that is written is at least 1: the average line is never
    left out for a shortest length of zero.  Every file written by the
    aggregator is the text of a table with at least one campaign line,
    whose label reads as an integer, and one average line after the
    campaign lines, unless [OverflowError] ended the traversal: then the
    last file, and only this one, stops after its campaign lines. *)
Theorem emitted_tables_are_complete :
  (forall log, extract_branch_hit_counts log <> Some [])
  /\ (forall campaigns e, In e (campaigns_of campaigns) -> snd e <> [])
  /\ (forall campaigns sd,
         campaigns_of campaigns <> [] ->
         sort_campaigns (campaigns_of campaigns) = Ok sd ->
         1 <= min_columns sd)
  /\ (forall coverage w,
         snd (collect_and_save_branch_data coverage) <> Some OverflowError ->
         In w (files (fst (collect_and_save_branch_data coverage))) ->
         complete_table_text (snd w))
  /\ (forall coverage,
         snd (collect_and_save_branch_data coverage) = Some OverflowError ->
         exists done w,
           files (fst (collect_and_save_branch_data coverage)) = done ++ [w]
           /\ Forall (fun w => complete_table_text (snd w)) done
           /\ campaign_lines_only (snd w)).
Proof.
  split; [exact extract_never_empty|].
  split; [exact campaigns_nonempty|].
  split; [|split].
  - intros campaigns sd N SC. pose proof (@sort_campaigns_perm _ _ SC) as P.
    apply min_columns_positive.
    + intros ->. apply Permutation_sym, Permutation_nil in P. contradiction.
    + apply (Permutation_Forall P). apply Forall_forall.
      exact (@campaigns_nonempty campaigns).
  - intros coverage w X H.
    assert (W : well_ended (collect_and_save_branch_data coverage))
      by (apply collect_fuzzers_well_ended; constructor).
    unfold well_ended in W.
    destruct (snd (collect_and_save_branch_data coverage)) as [[]|];
      try congruence; rewrite Forall_forall in W; now apply W.
  - intros coverage X.
    assert (W : well_ended (collect_and_save_branch_data coverage))
      by (apply collect_fuzzers_well_ended; constructor).
    unfold well_ended in W. now rewrite X in W.
Qed.

Lemma emitted_tables_are_complete_witness :
  complete_table_text
    (lit "1 10 20" ++ [LF] ++ lit "2 12 22" ++ [LF]
     ++ lit "avg 11.00 21.00" ++ [LF]).
Proof.
  apply (proj1 (proj2 (proj2 (proj2 emitted_tables_are_complete)))
               sample_coverage
               (lit "target_a_afl_branch_count.txt",
                lit "1 10 20" ++ [LF] ++ lit "2 12 22" ++ [LF]
                ++ lit "avg 11.00 21.00" ++ [LF])).
  - vm_compute. discriminate.
  - vm_compute. left. reflexivity.
Defined.

(** The claim of C9 fails as it is stated: for a log whose count has 401
    digits the campaign line is written, the quotient of the average is
    past the range of the floats, and the file that is left has no average
    line. *)
Lemma huge_count_leaves_no_average_line :
  collect_and_save_branch_data huge_count_coverage
  = ({| files := [(lit "target_a_afl_branch_count.txt",
                   lit "1 " ++ huge_count ++ [LF])];
        summary := [] |},
     Some OverflowError)
  /\ ~ complete_table_text (lit "1 " ++ huge_count ++ [LF]).
Proof.
  split; [vm_compute; reflexivity|].
  intros [cd [avgs [_ [_ [_ [_ [_ [_ E]]]]]]]].
  revert E. apply no_avg_line.
  unfold huge_count. cbn [lit list_ascii_of_string app].
  intros [H|[H|[H|H]]]; try discriminate.
  apply in_app_or in H. destruct H as [H|[H|[]]]; [|discriminate].
  apply repeat_spec in H. discriminate.
Qed.

End AggregatorFacts.

(** ** File names *)

Section NameFacts.

Lemma chr_eqb_eq (a b : ascii) : chr_eqb a b = true <-> a = b.
Proof. apply Ascii.eqb_eq. Qed.

Lemma chr_eqb_neq (a b : ascii) : chr_eqb a b = false <-> a <> b.
Proof. apply Ascii.eqb_neq. Qed.

Lemma chr_eqb_refl (a : ascii) : chr_eqb a a = true.
Proof. now apply chr_eqb_eq. Qed.

(** The last occurrence of a separator. *)
Lemma rcut_at_none (sep : ascii) (s : str) :
  ~ In sep s -> rcut_at sep s = None.
Proof.
  induction s as [|c t IH]; intro H; simpl; [reflexivity|].
  rewrite IH by (intro; apply H; now right).
  destruct (chr_eqb c sep) eqn:E; [|reflexivity].
  apply chr_eqb_eq in E. exfalso. apply H. now left.
Qed.

Lemma rcut_at_last (sep : ascii) (a b : str) :
  ~ In sep b -> rcut_at sep (a ++ sep :: b) = Some (a, b).
Proof.
  intro H. induction a as [|c t IH]; simpl.
  - now rewrite (rcut_at_none _ _ H), chr_eqb_refl.
  - now rewrite IH.
Qed.

Lemma stem_of_data_file (base : str) :
  stem (base ++ lit "_branch_count.txt") = base ++ marker.
Proof.
  unfold stem.
  replace (base ++ lit "_branch_count.txt")
    with ((base ++ marker) ++ "."%char :: lit "txt")
    by (rewrite <- app_assoc; reflexivity).
  rewrite rcut_at_last.
  - destruct base; reflexivity.
  - simpl. intros [H|[H|[H|[]]]]; discriminate.
Qed.

Lemma startswith_app (p s r : str) :
  length p <= length s -> startswith p (s ++ r) = startswith p s.
Proof.
  revert s. induction p as [|x p IH]; intros s H; [now destruct s|].
  destruct s as [|y s]; simpl in *; [lia|].
  rewrite IH by lia. reflexivity.
Qed.

(** No occurrence of the marker starts in [s] and ends in a marker put
    after [s]. *)
Lemma marker_does_not_straddle (s : str) :
  s <> [] -> startswith marker s = false ->
  startswith marker (s ++ marker) = false.
Proof.
  intros N H.
  destruct (Nat.le_gt_cases (length marker) (length s)) as [L|L].
  - now rewrite startswith_app.
  - clear H. change (length marker) with 13 in L.
    do 13 (destruct s as [|? s];
           [ first [ congruence
                   | cbn; repeat (rewrite ?andb_false_r;
                                  try reflexivity) ]
           | ]).
    simpl in L; lia.
Qed.

Lemma remove_marker (base : str) :
  contains marker base = false -> remove_all marker (base ++ marker) = base.
Proof.
  unfold remove_all. induction base as [|c t IH]; intro H; [reflexivity|].
  cbn [contains] in H. apply orb_false_iff in H. destruct H as [H1 H2].
  change ((c :: t) ++ marker) with (c :: (t ++ marker)).
  cbn [remove_from].
  change (c :: (t ++ marker)) with ((c :: t) ++ marker).
  rewrite marker_does_not_straddle by (congruence || assumption).
  now rewrite IH.
Qed.





End NameFacts.

(** ** Reading text *)

Section TextFacts.

Lemma universal_newlines_id (s : str) :
  ~ In CR s -> universal_newlines s = s.
Proof.
  induction s as [|c t IH]; intro H; simpl; [reflexivity|].
  destruct (chr_eqb c CR) eqn:E.
  - apply chr_eqb_eq in E. exfalso. apply H. now left.
  - rewrite IH; [reflexivity|]. intro; apply H; now right.
Qed.

Lemma lines_of_line (l rest : str) :
  ~ In LF l -> lines_of ((l ++ [LF]) ++ rest) = (l ++ [LF]) :: lines_of rest.
Proof.
  induction l as [|c t IH]; intro H; [reflexivity|].
  change (((c :: t) ++ [LF]) ++ rest) with (c :: ((t ++ [LF]) ++ rest)).
  cbn [lines_of].
  destruct (chr_eqb c LF) eqn:E.
  - apply chr_eqb_eq in E. exfalso. apply H. now left.
  - rewrite IH; [reflexivity|]. intro; apply H; now right.
Qed.

Lemma lines_of_text (ls : list str) :
  Forall (fun l => ~ In LF l) ls ->
  lines_of (text_of_lines ls) = map (fun l => l ++ [LF]) ls.
Proof.
  unfold text_of_lines. induction 1 as [|l ls Hl H IH]; [reflexivity|].
  cbn [map concat]. now rewrite lines_of_line, IH.
Qed.

Lemma In_text_of_lines (c : ascii) (ls : list str) :
  In c (text_of_lines ls) -> c = LF \/ exists l, In l ls /\ In c l.
Proof.
  unfold text_of_lines. intro H. apply in_concat in H.
  destruct H as [x [Hx Hc]]. apply in_map_iff in Hx.
  destruct Hx as [l [<- Hl]]. apply in_app_or in Hc.
  destruct Hc as [Hc|[Hc|[]]]; [right; exists l; auto | left; auto].
Qed.

(** Reading back a text made of whole lines. *)
Lemma readlines_text (ls : list str) :
  Forall no_break ls ->
  readlines (text_of_lines ls) = map (fun l => l ++ [LF]) ls.
Proof.
  intro H. unfold readlines. rewrite universal_newlines_id.
  - apply lines_of_text. eapply Forall_impl; [|exact H]. now intros l [A _].
  - intro C. apply In_text_of_lines in C. destruct C as [C|[l [Hl C]]].
    + discriminate.
    + rewrite Forall_forall in H. now apply (proj2 (H l Hl)).
Qed.

End TextFacts.

(** ** Numerals *)

Section NumeralFacts.

Lemma digit_of_char_chars (d : Decimal.uint) :
  d <> Decimal.Nil ->
  exists c t k d',
    chars_of_uint d = c :: t /\ digit_of_char c = Some k /\ d = k d'
    /\ t = chars_of_uint d' /\ is_space c = false
    /\ chr_eqb c "-"%char = false /\ chr_eqb c "+"%char = false
    /\ chr_eqb c "."%char = false.
Proof.
  destruct d as [|d|d|d|d|d|d|d|d|d|d]; [congruence|..]; intros _;
    eexists; eexists; eexists; exists d; repeat split.
Qed.

Lemma uint_of_chars_digits (d : Decimal.uint) :
  uint_of_chars (chars_of_uint d) = Some d.
Proof.
  induction d; cbn [chars_of_uint uint_of_chars]; try reflexivity;
    rewrite IHd; reflexivity.
Qed.

Lemma int_digits_digits (d : Decimal.uint) (b : bool) :
  b = true \/ d <> Decimal.Nil -> int_digits b (chars_of_uint d) = Some d.
Proof.
  revert b. induction d; intros b H; cbn [chars_of_uint int_digits];
    try (cbn; rewrite IHd by (now left); reflexivity).
  destruct H as [->|H]; [reflexivity | congruence].
Qed.

Lemma digits_no_space (d : Decimal.uint) :
  Forall (fun c => is_space c = false) (chars_of_uint d).
Proof. induction d; constructor; auto. Qed.

Lemma lstrip_id (c : ascii) (s : str) :
  is_space c = false -> lstrip (c :: s) = c :: s.
Proof. intro H. simpl. now rewrite H. Qed.

Lemma Forall_rev_iff {A : Type} (P : A -> Prop) (l : list A) :
  Forall P l -> Forall P (rev l).
Proof.
  intro H. apply Forall_forall. intros x Hx. apply in_rev in Hx.
  rewrite Forall_forall in H. now apply H.
Qed.

(** A text without white space is left as it is by [strip]. *)
Lemma strip_id (s : str) :
  Forall (fun c => is_space c = false) s -> strip s = s.
Proof.
  intro H. unfold strip, rstrip.
  assert (L : forall t, Forall (fun c => is_space c = false) t ->
                        lstrip t = t).
  { intros [|c t] F; [reflexivity|]. inversion F; subst. now apply lstrip_id. }
  rewrite (L s H), (L (rev s)) by (now apply Forall_rev_iff).
  apply rev_involutive.
Qed.

Lemma py_int_digits (d : Decimal.uint) :
  d <> Decimal.Nil -> py_int (chars_of_uint d) = Some (Z.of_uint d).
Proof.
  intro H. unfold py_int. rewrite strip_id by apply digits_no_space.
  destruct (digit_of_char_chars H)
    as [c [t [k [d' [E [_ [_ [_ [_ [M [P _]]]]]]]]]]].
  rewrite E, M, P, <- E, int_digits_digits by (now right). reflexivity.
Qed.

End NumeralFacts.

(** ** The log parser *)

Section ParserFacts.

Lemma take_digits_stop (rest : str) :
  match rest with c :: _ => is_digit c = false | [] => True end ->
  take_digits rest = ([], rest).
Proof. destruct rest as [|c t]; [reflexivity|]. simpl. now intros ->. Qed.

Lemma take_digits_digits (d : Decimal.uint) (rest : str) :
  match rest with c :: _ => is_digit c = false | [] => True end ->
  take_digits (chars_of_uint d ++ rest) = (chars_of_uint d, rest).
Proof.
  intro H. induction d; cbn [chars_of_uint app];
    [now apply take_digits_stop | ..];
    cbn [take_digits]; rewrite IHd; reflexivity.
Qed.

Lemma chars_not_nil (d : Decimal.uint) :
  d <> Decimal.Nil -> exists c t, chars_of_uint d = c :: t.
Proof.
  intro H. destruct (digit_of_char_chars H) as [c [t [_ [_ [E _]]]]]. eauto.
Qed.

(** The pattern matches where a well-formed summary starts. *)
Lemma match_here_summary (n m : Decimal.uint) (post : str) :
  n <> Decimal.Nil -> m <> Decimal.Nil ->
  match_here (lit "(" ++ chars_of_uint n ++ lit " of " ++ chars_of_uint m
              ++ lit " branches)" ++ post)
  = Some (chars_of_uint n).
Proof.
  intros Hn Hm. cbn [lit list_ascii_of_string app match_here].
  change (chr_eqb "("%char "("%char) with true. cbv iota.
  rewrite take_digits_digits by reflexivity.
  destruct (chars_not_nil Hn) as [c [t E]]. rewrite E, <- E.
  cbn [drop_prefix]. change (chr_eqb " "%char " "%char) with true.
  change (chr_eqb "o"%char "o"%char) with true.
  change (chr_eqb "f"%char "f"%char) with true. cbv iota.
  rewrite take_digits_digits by reflexivity.
  destruct (chars_not_nil Hm) as [c' [t' E']]. rewrite E'.
  reflexivity.
Qed.

Lemma re_search_skip (pre s : str) :
  ~ In "("%char pre -> re_search (pre ++ s) = re_search s.
Proof.
  induction pre as [|c t IH]; intro H; [reflexivity|].
  change ((c :: t) ++ s) with (c :: (t ++ s)).
  cbn [re_search match_here].
  destruct (chr_eqb c "("%char) eqn:E.
  - apply chr_eqb_eq in E. exfalso. apply H. now left.
  - apply IH. intro; apply H; now right.
Qed.

Lemma re_search_here (s : str) (g : str) :
  match_here s = Some g -> re_search s = Some g.
Proof. intro H. destruct s; simpl in *; now rewrite H. Qed.

Lemma re_search_branches_line (pre post : str) (n m : Decimal.uint) :
  ~ In "("%char pre -> n <> Decimal.Nil -> m <> Decimal.Nil ->
  re_search (branches_line pre n m post ++ [LF]) = Some (chars_of_uint n).
Proof.
  intros Hp Hn Hm. unfold branches_line.
  rewrite <- !app_assoc. rewrite re_search_skip by exact Hp.
  apply re_search_here. now apply match_here_summary.
Qed.

Lemma take_digits_line_feed (s : str) :
  take_digits (s ++ [LF])
  = (fst (take_digits s), snd (take_digits s) ++ [LF]).
Proof.
  induction s as [|c t IH]; [reflexivity|].
  cbn [app take_digits]. destruct (is_digit c); [|reflexivity].
  rewrite IH. now destruct (take_digits t).
Qed.

Lemma drop_prefix_line_feed (p s : str) :
  ~ In LF p ->
  drop_prefix p (s ++ [LF])
  = option_map (fun r => r ++ [LF]) (drop_prefix p s).
Proof.
  revert s. induction p as [|x p IH]; intros s H; [now destruct s|].
  assert (X : chr_eqb x LF = false).
  { apply chr_eqb_neq. intros ->. apply H. now left. }
  destruct s as [|y s]; cbn [app drop_prefix].
  - now rewrite X.
  - destruct (chr_eqb x y); [|reflexivity].
    apply IH. intro; apply H; now right.
Qed.

Lemma startswith_line_feed (p s : str) :
  ~ In LF p -> startswith p (s ++ [LF]) = startswith p s.
Proof.
  revert s. induction p as [|x p IH]; intros s H; [now destruct s|].
  assert (X : chr_eqb x LF = false).
  { apply chr_eqb_neq. intros ->. apply H. now left. }
  destruct s as [|y s]; cbn [app startswith].
  - now rewrite X.
  - rewrite IH; [reflexivity|]. intro; apply H; now right.
Qed.

Lemma match_here_line_feed (s : str) :
  match_here (s ++ [LF]) = match_here s.
Proof.
  destruct s as [|c t]; [reflexivity|].
  cbn [app match_here]. destruct (chr_eqb c "("%char); [|reflexivity].
  rewrite take_digits_line_feed.
  destruct (take_digits t) as [n r1]. cbn [fst snd].
  destruct n as [|d n]; [reflexivity|].
  rewrite drop_prefix_line_feed
    by (simpl; intros [H|[H|[H|[H|[]]]]]; discriminate).
  destruct (drop_prefix (lit " of ") r1) as [r2|]; [|reflexivity].
  cbn [option_map]. rewrite take_digits_line_feed.
  destruct (take_digits r2) as [m r3]. cbn [fst snd].
  destruct m as [|d' m]; [reflexivity|].
  rewrite startswith_line_feed; [reflexivity|].
  simpl. intro H. repeat (destruct H as [H|H]; [discriminate|]). exact H.
Qed.

(** The line feed that ends a line takes no part in a match. *)
Lemma re_search_line_feed (l : str) : re_search (l ++ [LF]) = re_search l.
Proof.
  induction l as [|c t IH]; [reflexivity|].
  change ((c :: t) ++ [LF]) with (c :: (t ++ [LF])).
  cbn [re_search].
  change (c :: (t ++ [LF])) with ((c :: t) ++ [LF]).
  now rewrite match_here_line_feed, IH.
Qed.

Lemma every_third_groups (f : str -> str) (gs : list group) :
  every_third (map f (lines_of_groups gs))
  = map (fun g => f (branches_of g)) gs.
Proof.
  induction gs as [|g gs IH]; [reflexivity|].
  cbn [lines_of_groups flat_map app map every_third].
  f_equal. exact IH.
Qed.

Lemma branch_counts_groups (gs : list group) (caps : list (option Z)) :
  Forall2 (fun g o => captures (branches_of g) o) gs caps ->
  branch_counts (map (fun g => branches_of g ++ [LF]) gs)
  = Some (somes caps).
Proof.
  induction 1 as [|g o gs caps Hg H IH]; [reflexivity|].
  cbn [map branch_counts].
  revert Hg. generalize (branches_of g). intros l3 Hg.
  destruct Hg as [pre post n m Hp Hn Hm | l Hl].
  - rewrite re_search_branches_line by assumption.
    rewrite py_int_digits by assumption. now rewrite IH.
  - now rewrite re_search_line_feed, Hl, IH.
Qed.

Lemma somes_all {A : Type} (ns : list A) : somes (map Some ns) = ns.
Proof.
  unfold somes. induction ns as [|n ns IH]; simpl; [|rewrite IH]; reflexivity.
Qed.

(** C4.  For a log made of whole groups of three lines, the parser returns
    the counts captured from the branches lines on which the pattern has a
    match, in the order of the groups, and a line without match contributes
    nothing; when there is no count at all the result is [None].  So when
    the branches lines of all [k] groups are well-formed summaries, the
    result holds exactly the [k] numbers [N]. *)
Theorem parser_returns_captured_counts :
  (forall (gs : list group) (caps : list (option Z)),
      Forall no_break (lines_of_groups gs) ->
      Forall2 (fun g o => captures (branches_of g) o) gs caps ->
      extract_branch_hit_counts (Some (log_of_groups gs))
      = counts_or_none (somes caps))
  /\ (forall (gs : list group) (ns : list Z),
         Forall no_break (lines_of_groups gs) ->
         Forall2 (fun g n => captures (branches_of g) (Some n)) gs ns ->
         length ns = length gs
         /\ extract_branch_hit_counts (Some (log_of_groups gs))
            = counts_or_none ns).
Proof.
  assert (G : forall (gs : list group) (caps : list (option Z)),
             Forall no_break (lines_of_groups gs) ->
             Forall2 (fun g o => captures (branches_of g) o) gs caps ->
             extract_branch_hit_counts (Some (log_of_groups gs))
             = counts_or_none (somes caps)).
  { intros gs caps Hb Hc. unfold extract_branch_hit_counts, log_of_groups.
    rewrite readlines_text by exact Hb.
    rewrite every_third_groups. cbv beta.
    match goal with
    | |- context [branch_counts ?l] =>
        assert (E : branch_counts l = Some (somes caps))
          by exact (branch_counts_groups Hc);
        rewrite E
    end.
    now destruct (somes caps). }
  split; [exact G|].
  intros gs ns Hb Hc. split.
  - symmetry. exact (Forall2_length Hc).
  - rewrite <- (somes_all ns). apply G; [exact Hb|].
    clear Hb. induction Hc; constructor; assumption.
Qed.

Lemma parser_returns_captured_counts_witness :
  extract_branch_hit_counts (Some (sample_log 10 20)) = Some [10; 20]%Z
  /\ extract_branch_hit_counts (Some (log_of_groups groups_with_gap))
     = Some [10; 20]%Z.
Proof.
  split.
  - refine (proj2 (proj2 parser_returns_captured_counts (sample_groups 10 20)
                         [10; 20]%Z _ _)).
    + repeat constructor; intro H; simpl in H;
        repeat (destruct H as [H|H]; [discriminate|]); exact H.
    + apply Forall2_cons; [|apply Forall2_cons; [|apply Forall2_nil]].
      * refine (@captures_count (lit "branches...: 1.0% ") []
                                (Nat.to_uint 10) (Nat.to_uint 99) _ _ _);
          [|discriminate|discriminate].
        intro H; simpl in H;
          repeat (destruct H as [H|H]; [discriminate|]); exact H.
      * refine (@captures_count (lit "branches...: 2.0% ") []
                                (Nat.to_uint 20) (Nat.to_uint 99) _ _ _);
          [|discriminate|discriminate].
        intro H; simpl in H;
          repeat (destruct H as [H|H]; [discriminate|]); exact H.
  - refine (proj1 parser_returns_captured_counts groups_with_gap
                  [Some 10; None; Some 20]%Z _ _).
    + repeat constructor; intro H; simpl in H;
        repeat (destruct H as [H|H]; [discriminate|]); exact H.
    + apply Forall2_cons;
        [|apply Forall2_cons; [|apply Forall2_cons; [|apply Forall2_nil]]].
      * refine (@captures_count (lit "branches...: 1.0% ") []
                                (Nat.to_uint 10) (Nat.to_uint 99) _ _ _);
          [|discriminate|discriminate].
        intro H; simpl in H;
          repeat (destruct H as [H|H]; [discriminate|]); exact H.
      * apply captures_nothing. reflexivity.
      * refine (@captures_count (lit "branches...: 3.0% ") []
                                (Nat.to_uint 20) (Nat.to_uint 99) _ _ _);
          [|discriminate|discriminate].
        intro H; simpl in H;
          repeat (destruct H as [H|H]; [discriminate|]); exact H.
Defined.

End ParserFacts.

(** ** Dictionaries *)

Section DictFacts.

Variable V : Type.

Lemma str_eqb_eq (a b : str) : str_eqb a b = true <-> a = b.
Proof.
  unfold str_eqb. destruct (list_eq_dec ascii_dec a b); split; congruence.
Qed.

Lemma str_eqb_refl (a : str) : str_eqb a a = true.
Proof. now apply str_eqb_eq. Qed.

Lemma str_eqb_neq (a b : str) : str_eqb a b = false <-> a <> b.
Proof.
  unfold str_eqb. destruct (list_eq_dec ascii_dec a b); split; congruence.
Qed.

Lemma dict_set_fresh (k : str) (v : V) (d : dict V) :
  ~ In k (keys d) -> dict_set k v d = d ++ [(k, v)].
Proof.
  induction d as [|[k' v'] t IH]; intro H; simpl; [reflexivity|].
  destruct (str_eqb k k') eqn:E.
  - apply str_eqb_eq in E. exfalso. apply H. now left.
  - rewrite IH; [reflexivity|]. intro; apply H; now right.
Qed.

Lemma dict_set_keys (k : str) (v : V) (d : dict V) :
  keys (dict_set k v d) = keys d \/ (~ In k (keys d)
                                     /\ keys (dict_set k v d) = keys d ++ [k]).
Proof.
  induction d as [|[k' v'] t IH]; simpl.
  - right. split; [tauto | reflexivity].
  - destruct (str_eqb k k') eqn:E.
    + apply str_eqb_eq in E. subst. now left.
    + apply str_eqb_neq in E. simpl. destruct IH as [IH|[N IH]].
      * left. now rewrite IH.
      * right. split; [|now rewrite IH]. intros [C|C]; [congruence | tauto].
Qed.

Lemma dict_set_nodup (k : str) (v : V) (d : dict V) :
  NoDup (keys d) -> NoDup (keys (dict_set k v d)).
Proof.
  intro H. destruct (dict_set_keys k v d) as [E|[N E]]; rewrite E.
  - exact H.
  - apply NoDup_app; [exact H | repeat constructor; tauto |].
    intros x Hx [<-|[]]. exact (N Hx).
Qed.

Lemma dict_get_in (k : str) (v : V) (d : dict V) :
  NoDup (keys d) -> In (k, v) d -> dict_get k d = Some v.
Proof.
  induction d as [|[k' v'] t IH]; intros N H; [destruct H|].
  simpl in N. inversion N as [|? ? N1 N2]; subst. simpl.
  destruct H as [H|H].
  - injection H as -> ->. now rewrite str_eqb_refl.
  - destruct (str_eqb k k') eqn:E; [|now apply IH].
    apply str_eqb_eq in E. subst. exfalso. apply N1.
    now apply (in_map fst) in H.
Qed.

End DictFacts.

(** ** Sorting by an integer key *)

Section KeySortFacts.

Lemma insert_map {A B : Type} (g : A -> B) (lebA : A -> A -> bool)
    (lebB : B -> B -> bool) (x : A) (l : list A) :
  (forall a b, lebB (g a) (g b) = lebA a b) ->
  insert lebB (g x) (map g l) = map g (insert lebA x l).
Proof.
  intro H. induction l as [|y t IH]; simpl; [reflexivity|].
  rewrite H. destruct (lebA x y); simpl; [reflexivity | now rewrite IH].
Qed.

Lemma sort_map {A B : Type} (g : A -> B) (lebA : A -> A -> bool)
    (lebB : B -> B -> bool) (l : list A) :
  (forall a b, lebB (g a) (g b) = lebA a b) ->
  sort lebB (map g l) = map g (sort lebA l).
Proof.
  intro H. induction l as [|x t IH]; simpl; [reflexivity|].
  rewrite IH. now apply insert_map.
Qed.

Lemma sort_by_key_sorted {A : Type} (l : list (Z * A)) :
  StronglySorted (fun a b => (fst a <= fst b)%Z) (sort_by_key l).
Proof.
  unfold sort_by_key.
  assert (S : StronglySorted
                (fun a b : Z * A => Z.leb (fst a) (fst b) = true)
                (sort (fun a b => Z.leb (fst a) (fst b)) l)).
  { apply sort_sorted.
    - intros x y. rewrite !Z.leb_le. lia.
    - intros x y z. rewrite !Z.leb_le. lia. }
  induction S as [|a t St IH Ha]; constructor; [exact IH|].
  eapply Forall_impl; [|exact Ha]. intros b. apply Z.leb_le.
Qed.

Lemma StronglySorted_map_in {A B : Type} (R' : A -> A -> Prop)
    (R : B -> B -> Prop) (P : A -> Prop) (f : A -> B) (l : list A) :
  (forall a b, P a -> P b -> R' a b -> R (f a) (f b)) ->
  Forall P l -> StronglySorted R' l -> StronglySorted R (map f l).
Proof.
  intros H F S. induction S as [|a t St IH Ha]; simpl; constructor.
  - apply IH. now inversion F.
  - inversion F as [|? ? Pa Pt]; subst. apply Forall_map.
    rewrite Forall_forall in *. intros b Hb. apply H; auto.
Qed.

(** Sorting the labels of a dictionary is sorting its entries. *)
Lemma sorted_labels_entries {V : Type} (cd : list (str * V))
    (labels : list str) :
  bind (mapM (fun k => of_option ValueError
                         (option_map (fun i => (i, k)) (py_int k)))
             (map fst cd))
       (fun keyed => Ok (map snd (sort_by_key keyed))) = Ok labels ->
  exists sorted_cd,
    labels = map fst sorted_cd
    /\ Permutation cd sorted_cd
    /\ StronglySorted (fun a b => label_le (fst a) (fst b)) sorted_cd.
Proof.
  intro H.
  destruct (mapM _ (map fst cd)) as [keyed|e] eqn:E; simpl in H;
    [|discriminate].
  injection H as <-. apply mapM_Ok in E.
  assert (K : keyed = map (fun e => (int_of (fst e), fst e)) cd
              /\ Forall (fun e => py_int (fst e) = Some (int_of (fst e))) cd).
  { clear -E. remember (map fst cd) as ks eqn:Eks. revert cd Eks.
    induction E as [|k y ks keyed Hk E IH]; intros cd Eks.
    - destruct cd; [split; constructor | discriminate].
    - destruct cd as [|[k' v] cd]; [discriminate|].
      simpl in Eks. injection Eks as -> Eks.
      destruct (IH cd Eks) as [IH1 IH2].
      destruct (py_int k') as [i|] eqn:Pk; simpl in Hk; [|discriminate].
      injection Hk as <-. split.
      + simpl. unfold int_of. rewrite Pk. now rewrite IH1.
      + constructor; [|exact IH2]. simpl. unfold int_of. now rewrite Pk. }
  destruct K as [-> K].
  set (entries := map (fun e : str * V => (int_of (fst e), e)) cd).
  exists (map snd (sort_by_key entries)).
  assert (M : map (fun e : str * V => (int_of (fst e), fst e)) cd
              = map (fun p : Z * (str * V) => (fst p, fst (snd p))) entries).
  { unfold entries. rewrite map_map. reflexivity. }
  split; [|split].
  - rewrite M. unfold sort_by_key.
    rewrite (sort_map (fun p : Z * (str * V) => (fst p, fst (snd p)))
                      (fun a b => Z.leb (fst a) (fst b))
                      (fun a b => Z.leb (fst a) (fst b)))
      by reflexivity.
    rewrite !map_map. reflexivity.
  - transitivity (map snd entries).
    + unfold entries. rewrite map_map. simpl. now rewrite map_id.
    + apply Permutation_map. apply sort_perm.
  - apply (@StronglySorted_map_in _ _
             (fun a b : Z * (str * V) => (fst a <= fst b)%Z)
             (fun a b : str * V => label_le (fst a) (fst b))
             (fun p : Z * (str * V) => py_int (fst (snd p)) = Some (fst p))).
    + intros a b Pa Pb L. exists (fst a), (fst b). auto.
    + eapply Permutation_Forall; [apply sort_perm|].
      unfold entries. apply Forall_map. exact K.
    + apply sort_by_key_sorted.
Qed.

End KeySortFacts.

(** ** The chart of one table *)

Section ChartFacts.

Lemma parse_lines_nodup (ls : list str) (cd0 cd : dict (list float))
    (avg0 avg : option (list float)) :
  NoDup (keys cd0) -> parse_lines ls cd0 avg0 = Ok (cd, avg) ->
  NoDup (keys cd).
Proof.
  revert cd0 avg0. induction ls as [|l ls IH]; intros cd0 avg0 N H.
  - simpl in H. injection H as <- _. exact N.
  - simpl in H. destruct (split (strip l)) as [|lbl tokens]; [eauto|].
    destruct (floats tokens) as [vals|e]; simpl in H; [|discriminate].
    destruct (str_eqb lbl _); [eauto|].
    eapply IH; [|exact H]. now apply dict_set_nodup.
Qed.

Lemma campaign_plots (cd : dict (list float)) (n : nat)
    (l : list (str * list float)) :
  NoDup (keys cd) -> (forall e, In e l -> In e cd) ->
  Aggregator.filter_map (campaign_plot cd n) (map fst l)
  = map (fun e => series_line n (snd e))
        (filter (fun e => n <=? length (snd e)) l).
Proof.
  intros N H. induction l as [|[k v] l IH]; [reflexivity|].
  cbn [map fst Aggregator.filter_map filter snd].
  unfold campaign_plot at 1.
  rewrite (@dict_get_in _ k v cd N) by (apply H; now left).
  rewrite IH by (intros e He; apply H; now right).
  destruct (n <=? length v); reflexivity.
Qed.

Lemma num_points_is_point_count (k : str) (first : list float)
    (cd : dict (list float)) (avg : option (list float)) :
  num_points first avg = point_count ((k, first) :: cd) avg.
Proof. destruct avg as [[|a l]|]; reflexivity. Qed.

(** C7.  In every chart drawn from a table file, the lines of the campaigns
    are those of the campaigns whose series has at least as many values as
    the point count, in ascending order of the integer labels, each cut to
    the point count; the campaigns with a shorter series have no line.  The
    point count is the length of the average row when the file has one (with
    a value), and the length of the first campaign's series otherwise. *)
Theorem short_series_are_omitted (f : data_file) (c : chart) :
  plot_file f = Ok (Some c) ->
  exists text cd avg sorted_cd,
    content f = Some text
    /\ parse_table text = Ok (cd, avg)
    /\ Permutation cd sorted_cd
    /\ StronglySorted (fun a b => label_le (fst a) (fst b)) sorted_cd
    /\ lines c
       = map (fun e => series_line (point_count cd avg) (snd e))
             (filter (fun e => point_count cd avg <=? length (snd e))
                     sorted_cd)
         ++ avg_plot avg (point_count cd avg).
Proof.
  unfold plot_file. intro H.
  destruct (decode_name (name f)) as [[target_name fuzzer_name]|];
    [|discriminate].
  destruct (content f) as [text|]; [|discriminate].
  destruct (readlines text) as [|l ls] eqn:R; [discriminate|].
  destruct (parse_lines (l :: ls) [] None) as [[cd avg]|e] eqn:P;
    simpl in H; [|discriminate].
  destruct cd as [|[k first] cd]; [discriminate|].
  destruct (draw target_name fuzzer_name ((k, first) :: cd) avg)
    as [c'|e] eqn:D; simpl in H; [|discriminate].
  injection H as ->.
  unfold draw in D.
  destruct (sorted_labels ((k, first) :: cd)) as [labels|e] eqn:L;
    simpl in D; [|discriminate].
  destruct (last_point _) as [last|e]; simpl in D; [|discriminate].
  injection D as <-. cbn [lines].
  destruct (sorted_labels_entries ((k, first) :: cd) L)
    as [sorted_cd [-> [Perm Sorted]]].
  exists text, ((k, first) :: cd), avg, sorted_cd.
  split; [reflexivity|].
  split; [unfold parse_table; now rewrite R|].
  split; [exact Perm|]. split; [exact Sorted|].
  rewrite (num_points_is_point_count k first cd avg).
  f_equal. apply campaign_plots.
  - apply (@parse_lines_nodup (l :: ls) [] _ None _ (NoDup_nil _) P).
  - intros e He. apply (Permutation_in _ (Permutation_sym Perm) He).
Qed.

Lemma short_series_are_omitted_witness :
  exists c,
    plot_file short_series_file = Ok (Some c)
    /\ map ys (lines c)
       = map (map float_of_int) [[5; 6]; [1; 2]; [3; 4]]%Z
    /\ exists text cd avg sorted_cd,
         content short_series_file = Some text
         /\ parse_table text = Ok (cd, avg)
         /\ Permutation cd sorted_cd
         /\ StronglySorted (fun a b => label_le (fst a) (fst b)) sorted_cd
         /\ lines c
            = map (fun e => series_line (point_count cd avg) (snd e))
                  (filter (fun e => point_count cd avg <=? length (snd e))
                          sorted_cd)
              ++ avg_plot avg (point_count cd avg).
Proof.
  eexists. split; [vm_compute; reflexivity|].
  split; [vm_compute; reflexivity|].
  apply short_series_are_omitted. vm_compute. reflexivity.
Defined.

End ChartFacts.

(** ** Splitting a line into tokens *)

Section SplitFacts.

Lemma split_space (c : ascii) (t : str) :
  is_space c = true -> split (c :: t) = split t.
Proof. intro H. simpl. now rewrite H. Qed.

Lemma split_spaces (ws : str) :
  Forall (fun c => is_space c = true) ws -> split ws = [].
Proof.
  induction 1 as [|c t Hc H IH]; [reflexivity|]. now rewrite split_space.
Qed.

(** A word followed by white space, or by nothing, is the first token. *)
Lemma split_word (w rest : str) :
  w <> [] -> Forall (fun c => is_space c = false) w ->
  match rest with c :: _ => is_space c = true | [] => True end ->
  split (w ++ rest) = w :: split rest.
Proof.
  intros N F R. induction F as [|c w Hc F IH]; [congruence|].
  destruct w as [|c' w].
  - cbn [app]. cbn [split]. rewrite Hc.
    destruct rest as [|d rest]; [reflexivity|]. now rewrite R.
  - change ((c :: c' :: w) ++ rest) with (c :: ((c' :: w) ++ rest)).
    cbn [split]. rewrite Hc.
    change ((c' :: w) ++ rest) with (c' :: (w ++ rest)) at 1.
    cbv iota. inversion F as [|? ? Hc' F']; subst. rewrite Hc'.
    rewrite IH by discriminate. reflexivity.
Qed.

Lemma split_lstrip (s : str) : split (lstrip s) = split s.
Proof.
  induction s as [|c t IH]; [reflexivity|]. simpl lstrip.
  destruct (is_space c) eqn:E; [|reflexivity].
  now rewrite split_space.
Qed.

Lemma lstrip_decompose (s : str) :
  exists ws, s = ws ++ lstrip s /\ Forall (fun c => is_space c = true) ws.
Proof.
  induction s as [|c t [ws [E F]]].
  - exists []. split; [reflexivity | constructor].
  - simpl. destruct (is_space c) eqn:S.
    + exists (c :: ws). split; [simpl; now rewrite <- E | now constructor].
    + exists []. split; [reflexivity | constructor].
Qed.

Lemma rstrip_decompose (s : str) :
  exists ws, s = rstrip s ++ ws /\ Forall (fun c => is_space c = true) ws.
Proof.
  unfold rstrip. destruct (lstrip_decompose (rev s)) as [ws [E F]].
  exists (rev ws). split.
  - rewrite <- rev_app_distr, <- E. symmetry. apply rev_involutive.
  - now apply Forall_rev_iff.
Qed.

Lemma split_trailing_spaces (s ws : str) :
  Forall (fun c => is_space c = true) ws -> split (s ++ ws) = split s.
Proof.
  intro F. induction s as [|c t IH]; [now apply split_spaces|].
  change ((c :: t) ++ ws) with (c :: (t ++ ws)). cbn [split].
  destruct (is_space c); [exact IH|].
  destruct t as [|d t].
  - cbn [app]. destruct ws as [|w ws]; [reflexivity|].
    inversion F as [|? ? Hw F']; subst. rewrite Hw.
    now rewrite split_spaces.
  - change ((d :: t) ++ ws) with (d :: (t ++ ws)) at 1. cbv iota.
    destruct (is_space d); now rewrite IH.
Qed.

Lemma split_rstrip (s : str) : split (rstrip s) = split s.
Proof.
  destruct (rstrip_decompose s) as [ws [E F]].
  rewrite E at 2. symmetry. now apply split_trailing_spaces.
Qed.

(** [line.strip().split()] is [line.split()]. *)
Lemma split_strip (s : str) : split (strip s) = split s.
Proof. unfold strip. now rewrite split_rstrip, split_lstrip. Qed.

(** The tokens of a line written as a label and values after spaces. *)
Lemma split_tokens (tokens : list str) (tail : str) :
  Forall (fun t => t <> [] /\ Forall (fun c => is_space c = false) t) tokens ->
  Forall (fun c => is_space c = true) tail ->
  split (concat (map (fun t => SP :: t) tokens) ++ tail) = tokens.
Proof.
  intros F T. induction F as [|t tokens [N Ht] F IH].
  - now apply split_spaces.
  - cbn [map concat]. rewrite <- app_assoc.
    change ((SP :: t) ++ concat (map (fun t0 => SP :: t0) tokens) ++ tail)
      with (SP :: (t ++ concat (map (fun t0 => SP :: t0) tokens) ++ tail)).
    rewrite split_space by reflexivity.
    rewrite split_word; [now rewrite IH | exact N | exact Ht |].
    destruct tokens as [|t' tokens]; [|reflexivity].
    cbn [map concat app]. destruct tail as [|c tail]; [exact I|].
    now inversion T.
Qed.

End SplitFacts.

(** ** Writing and reading numbers *)

Section NumberFacts.

Lemma cut_at_none (sep : ascii) (s : str) :
  ~ In sep s -> cut_at sep s = None.
Proof.
  induction s as [|c t IH]; intro H; simpl; [reflexivity|].
  destruct (chr_eqb c sep) eqn:E.
  - apply chr_eqb_eq in E. exfalso. apply H. now left.
  - rewrite IH; [reflexivity|]. intro; apply H; now right.
Qed.

Lemma cut_at_first (sep : ascii) (a b : str) :
  ~ In sep a -> cut_at sep (a ++ sep :: b) = Some (a, b).
Proof.
  induction a as [|c t IH]; intro H; simpl.
  - now rewrite chr_eqb_refl.
  - destruct (chr_eqb c sep) eqn:E.
    + apply chr_eqb_eq in E. exfalso. apply H. now left.
    + rewrite IH; [reflexivity|]. intro; apply H; now right.
Qed.

Lemma digits_are_digits (d : Decimal.uint) :
  Forall (fun c => is_digit c = true) (chars_of_uint d).
Proof. induction d; constructor; auto. Qed.

Lemma digits_without (c : ascii) (d : Decimal.uint) :
  is_digit c = false -> ~ In c (chars_of_uint d).
Proof.
  intros H C. pose proof (digits_are_digits d) as F.
  rewrite Forall_forall in F. specialize (F c C). congruence.
Qed.

Lemma format_int_nonneg (z : Z) :
  (0 <= z)%Z ->
  exists d, d <> Decimal.Nil /\ format_int z = chars_of_uint d
            /\ Z.of_uint d = z.
Proof.
  intro H. unfold format_int. destruct z as [|p|p]; [| |lia].
  - exists (Decimal.D0 Decimal.Nil). repeat split. discriminate.
  - exists (Pos.to_uint p). split; [|split; [reflexivity|]].
    + apply DecimalPos.Unsigned.to_uint_nonnil.
    + exact (DecimalZ.of_to (Z.pos p)).
Qed.

Lemma format_int_neg (z : Z) :
  (z < 0)%Z ->
  exists d, d <> Decimal.Nil /\ format_int z = "-"%char :: chars_of_uint d
            /\ Z.of_uint d = (- z)%Z.
Proof.
  intro H. unfold format_int. destruct z as [|p|p]; [lia|lia|].
  exists (Pos.to_uint p). split; [|split; [reflexivity|]].
  - apply DecimalPos.Unsigned.to_uint_nonnil.
  - exact (DecimalZ.of_to (Z.pos p)).
Qed.

Lemma unsigned_decimal_digits (d : Decimal.uint) :
  d <> Decimal.Nil ->
  unsigned_decimal (chars_of_uint d) = Some (inject_Z (Z.of_uint d)).
Proof.
  intro H. unfold unsigned_decimal.
  rewrite cut_at_none by (now apply digits_without).
  destruct (chars_not_nil H) as [c [t E]]. rewrite E.
  rewrite <- E, uint_of_chars_digits. reflexivity.
Qed.

Lemma token_digits (d : Decimal.uint) :
  d <> Decimal.Nil -> token (chars_of_uint d).
Proof.
  intro H. split; [|apply digits_no_space].
  destruct (chars_not_nil H) as [c [t ->]]. discriminate.
Qed.

Lemma token_format_int (z : Z) : token (format_int z).
Proof.
  destruct (Z.le_gt_cases 0 z) as [H|H].
  - destruct (format_int_nonneg H) as [d [N [-> _]]]. now apply token_digits.
  - destruct (format_int_neg H) as [d [N [-> _]]]. split; [discriminate|].
    constructor; [reflexivity | apply digits_no_space].
Qed.

(** What the characters of a numeral are not. *)
Lemma numeral_char_facts (c : ascii) :
  is_digit c = true \/ c = "."%char ->
  chr_eqb c "_"%char = false /\ is_space c = false
  /\ chr_eqb (lower c) "e"%char = false.
Proof.
  destruct c as [[] [] [] [] [] [] [] []]; vm_compute;
    intros [H|H]; try discriminate; repeat split.
Qed.

Lemma digit_char_facts (c : ascii) :
  is_digit c = true ->
  chr_eqb c "-"%char = false /\ chr_eqb c "+"%char = false
  /\ lower c <> "i"%char /\ lower c <> "n"%char.
Proof.
  destruct c as [[] [] [] [] [] [] [] []]; vm_compute;
    intro H; try discriminate; repeat split; discriminate.
Qed.

Lemma underscores_ok_numeral (b : bool) (s : str) :
  Forall (fun c => is_digit c = true \/ c = "."%char) s ->
  underscores_ok b s = true.
Proof.
  intro F. revert b. induction F as [|c s Hc F IH]; intro b; [reflexivity|].
  cbn [underscores_ok].
  destruct (numeral_char_facts Hc) as [-> _]. apply IH.
Qed.

Lemma drop_underscores_numeral (s : str) :
  Forall (fun c => is_digit c = true \/ c = "."%char) s ->
  drop_underscores s = s.
Proof.
  unfold drop_underscores. induction 1 as [|c s Hc F IH]; [reflexivity|].
  cbn [filter]. destruct (numeral_char_facts Hc) as [-> _].
  cbn [negb]. now rewrite IH.
Qed.

Lemma numeral_no_space (s : str) :
  Forall (fun c => is_digit c = true \/ c = "."%char) s ->
  Forall (fun c => is_space c = false) s.
Proof.
  apply Forall_impl. intros c Hc. exact (proj1 (proj2 (numeral_char_facts Hc))).
Qed.

Lemma cut_exponent_numeral (s : str) :
  Forall (fun c => is_digit c = true \/ c = "."%char) s ->
  cut_exponent s = (s, None).
Proof.
  induction 1 as [|c s Hc F IH]; [reflexivity|].
  cbn [cut_exponent].
  destruct (numeral_char_facts Hc) as [_ [_ ->]]. now rewrite IH.
Qed.

Lemma inf_or_nan_digit (neg : bool) (c : ascii) (t : str) :
  is_digit c = true -> inf_or_nan neg (c :: t) = None.
Proof.
  intro H. destruct (@digit_char_facts c H) as [_ [_ [I N]]].
  unfold inf_or_nan. cbn [map].
  assert (E : forall w x, lower c <> x ->
                str_eqb (lower c :: map lower t) (x :: w) = false).
  { intros w x D. apply str_eqb_neq. intro Q. injection Q as Q _.
    contradiction. }
  change (lit "inf") with ("i"%char :: lit "nf").
  change (lit "infinity") with ("i"%char :: lit "nfinity").
  change (lit "nan") with ("n"%char :: lit "an").
  now rewrite !E.
Qed.

(** Reading a numeral that starts with a digit, with and without a minus
    sign before it. *)
Lemma py_float_numeral (c : ascii) (t : str) (q : Q) :
  is_digit c = true ->
  Forall (fun c => is_digit c = true \/ c = "."%char) (c :: t) ->
  unsigned_decimal (c :: t) = Some q ->
  py_float (c :: t) = Some (round_Q false q)
  /\ py_float ("-"%char :: c :: t) = Some (round_Q true q).
Proof.
  intros D F U. destruct (@digit_char_facts c D) as [M [P _]].
  assert (N : unsigned_number (c :: t) = Some q).
  { unfold unsigned_number. now rewrite (cut_exponent_numeral F). }
  split; unfold py_float.
  - rewrite (underscores_ok_numeral false F), (drop_underscores_numeral F).
    rewrite strip_id by (now apply numeral_no_space).
    rewrite M, P. cbn [orb]. rewrite (@inf_or_nan_digit false c t D).
    now rewrite N.
  - change (underscores_ok false ("-"%char :: c :: t))
      with (underscores_ok false (c :: t)).
    change (drop_underscores ("-"%char :: c :: t))
      with ("-"%char :: drop_underscores (c :: t)).
    rewrite (underscores_ok_numeral false F), (drop_underscores_numeral F).
    rewrite strip_id
      by (constructor; [reflexivity | now apply numeral_no_space]).
    change (chr_eqb "-" "-") with true. cbn [orb].
    rewrite (@inf_or_nan_digit true c t D). now rewrite N.
Qed.

Lemma digits_numeral_chars (d : Decimal.uint) :
  Forall (fun c => is_digit c = true \/ c = "."%char) (chars_of_uint d).
Proof.
  eapply Forall_impl; [|apply digits_are_digits]. intros c H. now left.
Qed.

Lemma first_digit (d : Decimal.uint) (c : ascii) (t : str) :
  chars_of_uint d = c :: t -> is_digit c = true.
Proof.
  intro E. pose proof (digits_are_digits d) as F. rewrite E in F.
  now inversion F.
Qed.

(** Reading an integer back as a float gives the float nearest to it. *)
Lemma py_float_format_int (z : Z) :
  py_float (format_int z) = Some (float_of_int z).
Proof.
  unfold float_of_int. destruct (Z.le_gt_cases 0 z) as [H|H].
  - destruct (format_int_nonneg H) as [d [N [-> E]]].
    destruct (chars_not_nil N) as [c [t C]].
    pose proof (digits_numeral_chars d) as F.
    pose proof (unsigned_decimal_digits N) as U. rewrite C in *.
    rewrite (proj1 (@py_float_numeral c t _ (@first_digit d c t C) F U)).
    rewrite E, Z.abs_eq by exact H.
    now replace (z <? 0)%Z with false by (symmetry; apply Z.ltb_ge; lia).
  - destruct (format_int_neg H) as [d [N [-> E]]].
    destruct (chars_not_nil N) as [c [t C]].
    pose proof (digits_numeral_chars d) as F.
    pose proof (unsigned_decimal_digits N) as U. rewrite C in *.
    rewrite (proj2 (@py_float_numeral c t _ (@first_digit d c t C) F U)).
    rewrite E, Z.abs_neq by lia.
    now replace (z <? 0)%Z with true by (symmetry; apply Z.ltb_lt; lia).
Qed.

End NumberFacts.

(** ** Two decimals *)

Section TwoDecimalFacts.

Local Open Scope Q_scope.


Lemma round_half_even_nonneg (x : Q) :
  0 <= x -> (0 <= round_half_even x)%Z.
Proof.
  intro H. unfold round_half_even.
  assert (F : (0 <= Qfloor x)%Z).
  { change 0%Z with (Qfloor (inject_Z 0)). now apply Qfloor_resp_le. }
  destruct (Qcompare _ _); [destruct (Z.even _)| |]; lia.
Qed.

Lemma hundredths_nonneg (q : Q) : (0 <= hundredths q)%Z.
Proof.
  apply round_half_even_nonneg.
  pose proof (Qabs_nonneg q). lra.
Qed.



End TwoDecimalFacts.

Section TwoDecimalText.

(** The two digits after the point: checked on the hundred cases. *)
Lemma two_digits_spec (m : Z) :
  (0 <= m < 100)%Z ->
  exists d, two_digits m = chars_of_uint d
            /\ length (chars_of_uint d) = 2
            /\ Z.of_uint d = m.
Proof.
  intro H.
  assert (C : forallb
                (fun n =>
                   match uint_of_chars (two_digits (Z.of_nat n)) with
                   | Some d =>
                       str_eqb (two_digits (Z.of_nat n)) (chars_of_uint d)
                       && (length (chars_of_uint d) =? 2)
                       && (Z.of_uint d =? Z.of_nat n)%Z
                   | None => false
                   end)
                (seq 0 100) = true) by (vm_compute; reflexivity).
  rewrite forallb_forall in C. specialize (C (Z.to_nat m)).
  rewrite Z2Nat.id in C by lia.
  assert (I : In (Z.to_nat m) (seq 0 100)) by (apply in_seq; lia).
  specialize (C I).
  destruct (uint_of_chars (two_digits m)) as [d|]; [|discriminate].
  apply andb_true_iff in C. destruct C as [C C3].
  apply andb_true_iff in C. destruct C as [C1 C2].
  exists d. split; [now apply str_eqb_eq|].
  split; [now apply Nat.eqb_eq | now apply Z.eqb_eq].
Qed.

Lemma unsigned_decimal_hundredths (h : Z) :
  (0 <= h)%Z ->
  unsigned_decimal (format_hundredths h) = Some (Qmake h 100)
  /\ exists c t,
       format_hundredths h = c :: t
       /\ is_digit c = true
       /\ Forall (fun c => is_digit c = true \/ c = "."%char) (c :: t).
Proof.
  intro H. unfold format_hundredths.
  assert (D : (0 <= h / 100)%Z) by (apply Z.div_pos; lia).
  assert (M : (0 <= h mod 100 < 100)%Z) by (apply Z.mod_pos_bound; lia).
  destruct (format_int_nonneg D) as [a [Na [-> Ea]]].
  destruct (two_digits_spec M) as [b [-> [Lb Eb]]].
  split.
  - unfold unsigned_decimal.
    rewrite cut_at_first by (now apply digits_without).
    destruct (chars_not_nil Na) as [c [t E]]. rewrite E. cbn [app].
    rewrite <- E, !uint_of_chars_digits, Lb, Ea, Eb.
    change (10 ^ Z.of_nat 2)%Z with 100%Z. change (Z.to_pos 100) with 100%positive.
    do 2 f_equal. rewrite Z.mul_comm. symmetry. apply Z.div_mod. lia.
  - destruct (chars_not_nil Na) as [c [t E]].
    exists c, (t ++ "."%char :: chars_of_uint b).
    split; [now rewrite E|]. split; [exact (@first_digit a c t E)|].
    change (c :: t ++ "."%char :: chars_of_uint b)
      with ((c :: t) ++ "."%char :: chars_of_uint b).
    rewrite <- E. apply Forall_app. split; [apply digits_numeral_chars|].
    constructor; [now right | apply digits_numeral_chars].
Qed.

(** Reading back the text of [.2f]. *)
Lemma py_float_format_2f (x : float) :
  py_float (format_2f x) = Some (two_decimals x).
Proof.
  destruct (unsigned_decimal_hundredths (hundredths_nonneg (magnitude x)))
    as [U [c [t [E [D F]]]]].
  assert (G : forall y : float,
             magnitude y = magnitude x ->
             py_float (if sign_bit y
                       then "-"%char
                            :: format_hundredths (hundredths (magnitude y))
                       else format_hundredths (hundredths (magnitude y)))
             = Some (round_Q (sign_bit y) (printed y))).
  { intros y M. unfold printed. rewrite M. rewrite E in *.
    destruct (@py_float_numeral c t _ D F U) as [P1 P2].
    destruct (sign_bit y); assumption. }
  destruct x as [s|s| |s m e].
  - exact (G (S754_zero s) eq_refl).
  - destruct s; vm_compute; reflexivity.
  - vm_compute. reflexivity.
  - exact (G (S754_finite s m e) eq_refl).
Qed.

Lemma token_numeral (s : str) :
  s <> [] -> Forall (fun c => is_digit c = true \/ c = "."%char) s ->
  token s.
Proof. intros N F. split; [exact N | now apply numeral_no_space]. Qed.

Lemma token_format_2f (x : float) : token (format_2f x).
Proof.
  destruct (unsigned_decimal_hundredths (hundredths_nonneg (magnitude x)))
    as [_ [c [t [E [_ F]]]]].
  assert (T : token (format_hundredths (hundredths (magnitude x)))).
  { rewrite E. apply token_numeral; [discriminate | exact F]. }
  assert (G : token (if sign_bit x
                     then "-"%char
                          :: format_hundredths (hundredths (magnitude x))
                     else format_hundredths (hundredths (magnitude x)))).
  { destruct (sign_bit x); [|exact T]. destruct T as [T1 T2].
    split; [discriminate|]. constructor; [reflexivity | exact T2]. }
  destruct x as [s|s| |s m e]; try exact G.
  - destruct s; split; try discriminate; repeat constructor.
  - split; [discriminate | repeat constructor].
Qed.

End TwoDecimalText.

(** ** The text of a table *)

Section TableTextFacts.

Lemma campaign_line_body (e : str * list Z) :
  campaign_line e = campaign_body e ++ [LF].
Proof. unfold campaign_line, campaign_body. now rewrite app_assoc. Qed.

Lemma avg_line_body (avgs : list float) : avg_line avgs = avg_body avgs ++ [LF].
Proof. unfold avg_line, avg_body. now rewrite app_assoc. Qed.

Lemma table_text_lines (cd : table) :
  table_text cd = text_of_lines (table_bodies cd).
Proof.
  unfold table_text, write_block, table_bodies, text_of_lines.
  rewrite map_app, concat_app, map_map.
  rewrite (map_ext _ _ campaign_line_body).
  destruct cd as [|e cd]; [reflexivity|].
  destruct (0 <? min_columns (e :: cd)); cbn [fst];
    [|now rewrite app_nil_r].
  destruct (averages (e :: cd)) as [avgs|x]; cbn [fst map concat];
    [|now rewrite app_nil_r].
  now rewrite app_nil_r, avg_line_body.
Qed.

Lemma no_break_plain (l : str) :
  Forall (fun c => is_space c = false \/ c = SP) l -> no_break l.
Proof.
  intro F. rewrite Forall_forall in F.
  split; intro C; destruct (F _ C) as [H|H]; discriminate.
Qed.

Lemma plain_tokens {A : Type} (f : A -> str) (l : list A) :
  (forall x, token (f x)) ->
  Forall (fun c => is_space c = false \/ c = SP)
         (concat (map (fun x => SP :: f x) l)).
Proof.
  intro T. induction l as [|x l IH]; [constructor|].
  cbn [map concat app]. constructor; [now right|].
  apply Forall_app. split; [|exact IH].
  eapply Forall_impl; [|exact (proj2 (T x))]. intros c Hc. now left.
Qed.

Lemma no_break_campaign_body (e : str * list Z) :
  label_ok (fst e) -> no_break (campaign_body e).
Proof.
  intros [_ L]. apply no_break_plain. unfold campaign_body.
  apply Forall_app. split.
  - eapply Forall_impl; [|exact L]. intros c Hc. now left.
  - apply plain_tokens. exact token_format_int.
Qed.

Lemma no_break_avg_body (avgs : list float) : no_break (avg_body avgs).
Proof.
  apply no_break_plain. unfold avg_body. apply Forall_app. split.
  - repeat constructor.
  - apply plain_tokens. exact token_format_2f.
Qed.

(** The lines that are read from the text of a table. *)
Lemma readlines_table_text (cd : table) :
  Forall label_ok (map fst cd) ->
  readlines (table_text cd)
  = map campaign_line cd
    ++ (if 0 <? min_columns cd
        then match averages cd with
             | Ok avgs => [avg_line avgs]
             | Raise _ => []
             end
        else []).
Proof.
  intro L. rewrite table_text_lines, readlines_text.
  - unfold table_bodies. rewrite map_app, map_map.
    rewrite (map_ext _ campaign_line)
      by (intro e; symmetry; apply campaign_line_body).
    f_equal. destruct (0 <? min_columns cd); [|reflexivity].
    destruct (averages cd); [|reflexivity].
    cbn [map]. now rewrite avg_line_body.
  - unfold table_bodies. apply Forall_app. split.
    + apply Forall_map. rewrite Forall_map in L.
      eapply Forall_impl; [|exact L]. exact no_break_campaign_body.
    + destruct (0 <? min_columns cd); [|constructor].
      destruct (averages cd); repeat constructor; apply no_break_avg_body.
Qed.

Lemma first_is_space (tokens : list str) (tail : str) :
  tail <> [] -> Forall (fun c => is_space c = true) tail ->
  match concat (map (fun t => SP :: t) tokens) ++ tail with
  | c :: _ => is_space c = true
  | [] => True
  end.
Proof.
  intros N F. destruct tokens as [|t tokens]; [|reflexivity].
  cbn [map concat app]. destruct tail as [|c tail]; [congruence|].
  now inversion F.
Qed.

(** The tokens of a line: a label, then the values. *)
Lemma split_line (lbl : str) (tokens : list str) :
  token lbl -> Forall token tokens ->
  split (strip (lbl ++ concat (map (fun t => SP :: t) tokens) ++ [LF]))
  = lbl :: tokens.
Proof.
  intros [N L] T. rewrite split_strip.
  assert (S : Forall (fun c => is_space c = true) [LF])
    by (repeat constructor).
  rewrite split_word; [| exact N | exact L |].
  - now rewrite split_tokens.
  - apply first_is_space; [discriminate | exact S].
Qed.

Lemma floats_of_ints (vals : list Z) :
  floats (map format_int vals) = Ok (map float_of_int vals).
Proof.
  unfold floats. induction vals as [|z vals IH]; [reflexivity|].
  cbn [map mapM]. rewrite py_float_format_int. cbn [of_option bind].
  now rewrite IH.
Qed.

Lemma floats_of_averages (avgs : list float) :
  floats (map format_2f avgs) = Ok (map two_decimals avgs).
Proof.
  unfold floats. induction avgs as [|a avgs IH]; [reflexivity|].
  cbn [map mapM]. rewrite py_float_format_2f. cbn [of_option bind].
  now rewrite IH.
Qed.

Lemma label_ok_token (l : str) : label_ok l -> token l /\ l <> lit "avg".
Proof.
  intros [P L]. split; [split; [|exact L]|]; intros ->; now apply P.
Qed.

Lemma parse_campaign_line (e : str * list Z) (rest : list str)
    (acc : dict (list float)) (avg0 : option (list float)) :
  label_ok (fst e) -> ~ In (fst e) (keys acc) ->
  parse_lines (campaign_line e :: rest) acc avg0
  = parse_lines rest (acc ++ [to_floats e]) avg0.
Proof.
  intros L N. destruct (label_ok_token L) as [T A].
  cbn [parse_lines]. unfold campaign_line.
  rewrite <- (map_map format_int (fun t => SP :: t)).
  rewrite split_line by
      (try exact T; apply Forall_map, Forall_forall; intros z _;
       apply token_format_int).
  rewrite floats_of_ints. cbn [bind].
  apply str_eqb_neq in A. rewrite A.
  now rewrite dict_set_fresh.
Qed.

Lemma parse_campaign_lines (sd : table) (rest : list str)
    (acc : dict (list float)) (avg0 : option (list float)) :
  Forall label_ok (map fst sd) -> NoDup (keys acc ++ map fst sd) ->
  parse_lines (map campaign_line sd ++ rest) acc avg0
  = parse_lines rest (acc ++ map to_floats sd) avg0.
Proof.
  revert acc. induction sd as [|e sd IH]; intros acc L N.
  - cbn [map app]. now rewrite app_nil_r.
  - cbn [map app] in *. inversion L as [|? ? Le Ls]; subst.
    rewrite parse_campaign_line; [| exact Le |].
    + rewrite IH; [now rewrite <- app_assoc | exact Ls |].
      unfold keys in *. rewrite map_app, <- app_assoc. exact N.
    + intro C. apply NoDup_remove_2 in N. apply N.
      apply in_or_app. now left.
Qed.

Lemma parse_avg_line (avgs : list float) (acc : dict (list float))
    (avg0 : option (list float)) :
  parse_lines [avg_line avgs] acc avg0
  = Ok (acc, Some (map two_decimals avgs)).
Proof.
  cbn [parse_lines]. unfold avg_line.
  rewrite <- (map_map format_2f (fun t => SP :: t)).
  rewrite split_line.
  - rewrite floats_of_averages. reflexivity.
  - split; [discriminate | repeat constructor].
  - apply Forall_map, Forall_forall. intros a _. apply token_format_2f.
Qed.

(** Reading back the text of a table whose labels are well-formed and
    distinct. *)
Lemma parse_table_text (sd : table) :
  Forall label_ok (map fst sd) -> NoDup (map fst sd) ->
  parse_table (table_text sd) = Ok (map to_floats sd, read_average sd).
Proof.
  intros L N. unfold parse_table, read_average.
  rewrite readlines_table_text by exact L.
  rewrite parse_campaign_lines by assumption. cbn [app].
  destruct (0 <? min_columns sd); [|reflexivity].
  destruct (averages sd); [apply parse_avg_line | reflexivity].
Qed.

End TableTextFacts.

(** ** Integers as floats *)
Section ExactFacts.







End ExactFacts.

(** ** Writing a table and reading it back *)

Section RoundTrip.

Lemma sort_campaigns_total (cd : table) :
  Forall (fun e => py_int (fst e) <> None) cd ->
  sort_campaigns cd
  = Ok (map snd (sort_by_key (map (fun e => (int_of (fst e), e)) cd)))
  /\ Forall (fun p : Z * (str * list Z) =>
               py_int (fst (snd p)) = Some (fst p))
            (map (fun e => (int_of (fst e), e)) cd).
Proof.
  intro F. split.
  - unfold sort_campaigns.
    rewrite (mapM_total _ (fun e => (int_of (fst e), e))); [reflexivity|].
    intros e He. rewrite Forall_forall in F. specialize (F e He).
    unfold int_of.
    destruct (py_int (fst e)) eqn:P; [reflexivity | congruence].
  - apply Forall_map. eapply Forall_impl; [|exact F].
    intros e He. simpl. unfold int_of.
    destruct (py_int (fst e)) eqn:P; [reflexivity | congruence].
Qed.





End RoundTrip.

(** ** Comparison charts *)

Section ComparisonFacts.

Lemma dict_get_set {V : Type} (k k' : str) (v : V) (d : dict V) :
  dict_get k (dict_set k' v d)
  = if str_eqb k k' then Some v else dict_get k d.
Proof.
  induction d as [|[k0 v0] t IH]; simpl.
  - reflexivity.
  - destruct (str_eqb k' k0) eqn:E0; simpl.
    + apply str_eqb_eq in E0. subst k0.
      destruct (str_eqb k k'); reflexivity.
    + destruct (str_eqb k k0) eqn:E1; [|exact IH].
      apply str_eqb_eq in E1. subst k0.
      destruct (str_eqb k k') eqn:E2; [|reflexivity].
      apply str_eqb_eq in E2. subst k'.
      rewrite str_eqb_refl in E0. discriminate.
Qed.

Lemma dict_get_keys {V : Type} (k : str) (d : dict V) :
  In k (keys d) <-> dict_get k d <> None.
Proof.
  induction d as [|[k0 v0] t IH]; simpl; [tauto|].
  destruct (str_eqb k k0) eqn:E.
  - apply str_eqb_eq in E. subst. split; [discriminate | now left].
  - apply str_eqb_neq in E. rewrite <- IH. split; [|tauto].
    intros [C|C]; [congruence | exact C].
Qed.

Lemma group_by_target_build (fs : list data_file) (acc : dict (dict series)) :
  group_by_target fs acc
  = bind (comparison_entries fs) (fun es => Ok (build es acc)).
Proof.
  unfold comparison_entries. revert acc.
  induction fs as [|f fs IH]; intro acc; [reflexivity|].
  cbn [group_by_target mapM].
  destruct (comparison_entry f) as [[[[t z] v]|]|e]; cbn [bind];
    [| |reflexivity]; rewrite IH;
    destruct (mapM comparison_entry fs) as [os|e]; reflexivity.
Qed.

Lemma str_eqb_sym (a b : str) : str_eqb a b = str_eqb b a.
Proof.
  destruct (str_eqb b a) eqn:E.
  - apply str_eqb_eq in E. subst. apply str_eqb_refl.
  - apply str_eqb_neq in E. apply str_eqb_neq. congruence.
Qed.

Lemma keys_app {V : Type} (d d' : dict V) : keys (d ++ d') = keys d ++ keys d'.
Proof. apply map_app. Qed.

(** The dictionary of a target after the contributions [es], when no
    contribution repeats a pair of names. *)
Lemma build_spec (es : list entry) (acc : dict (dict series)) (t : str) :
  NoDup (map fst es) ->
  (forall e d, In e es -> dict_get (target_of e) acc = Some d ->
               ~ In (fuzzer_of e) (keys d)) ->
  dict_get t (build es acc)
  = match dict_get t acc with
    | Some d => Some (d ++ fuzzers_of t es)
    | None => match fuzzers_of t es with
              | [] => None
              | x :: l => Some (x :: l)
              end
    end.
Proof.
  revert acc. induction es as [|e es IH]; intros acc N F.
  - cbn. destruct (dict_get t acc); [now rewrite app_nil_r | reflexivity].
  - inversion N as [|? ? N1 N2]; subst.
    change (build (e :: es) acc)
      with (build es (store (target_of e) (fuzzer_of e) (snd e) acc)).
    set (inner := match dict_get (target_of e) acc with
                  | Some d => d
                  | None => []
                  end).
    assert (Fr : ~ In (fuzzer_of e) (keys inner)).
    { unfold inner. destruct (dict_get (target_of e) acc) as [d|] eqn:G.
      - apply (F e d); [now left | exact G].
      - intros []. }
    assert (S : store (target_of e) (fuzzer_of e) (snd e) acc
                = dict_set (target_of e) (inner ++ [(fuzzer_of e, snd e)])
                           acc).
    { unfold store. fold inner.
      now rewrite (@dict_set_fresh _ (fuzzer_of e) (snd e) inner Fr). }
    rewrite S. rewrite IH; [| exact N2 |].
    + rewrite dict_get_set. unfold fuzzers_of. cbn [filter].
      rewrite (str_eqb_sym (target_of e) t).
      destruct (str_eqb t (target_of e)) eqn:E.
      * apply str_eqb_eq in E. subst t. cbn [map]. fold inner.
        unfold inner. destruct (dict_get (target_of e) acc) as [d|].
        -- now rewrite <- app_assoc.
        -- reflexivity.
      * reflexivity.
    + intros e' d' He' G. rewrite dict_get_set in G.
      destruct (str_eqb (target_of e') (target_of e)) eqn:E.
      * injection G as <-. rewrite keys_app. intro C.
        apply in_app_or in C. destruct C as [C|[C|[]]].
        -- apply str_eqb_eq in E. unfold inner in C.
           destruct (dict_get (target_of e) acc) as [d|] eqn:G';
             [|destruct C].
           rewrite <- E in G'. exact (F e' d (or_intror He') G' C).
        -- apply str_eqb_eq in E. apply N1.
           assert (P : fst e = fst e').
           { unfold target_of, fuzzer_of in *. destruct (fst e), (fst e').
             simpl in *. congruence. }
           rewrite P. now apply in_map.
      * apply (F e' d'); [now right | exact G].
Qed.

Lemma build_from_empty (es : list entry) (t : str) :
  NoDup (map fst es) ->
  dict_get t (build es [])
  = match fuzzers_of t es with
    | [] => None
    | x :: l => Some (x :: l)
    end.
Proof.
  intro N. rewrite build_spec; [reflexivity | exact N |].
  intros e d _ G. discriminate.
Qed.

Lemma dict_get_some_in {V : Type} (k : str) (v : V) (d : dict V) :
  dict_get k d = Some v -> In (k, v) d.
Proof.
  induction d as [|[k0 v0] t IH]; simpl; [discriminate|].
  destruct (str_eqb k k0) eqn:E.
  - apply str_eqb_eq in E. intro H. injection H as <-. subst. now left.
  - intro H. right. now apply IH.
Qed.

Lemma dict_get_of_key {V : Type} (k : str) (d : dict V) :
  In k (keys d) -> exists v, dict_get k d = Some v /\ In (k, v) d.
Proof.
  intro H. apply dict_get_keys in H.
  destruct (dict_get k d) as [v|] eqn:E; [|congruence].
  exists v. split; [reflexivity | now apply dict_get_some_in].
Qed.

Lemma last_in {A : Type} (l : list A) (x : A) : l <> [] -> In (last l x) l.
Proof.
  induction l as [|a l IH]; [congruence|]. intros _.
  destruct l as [|b l]; [now left|]. right. apply IH. discriminate.
Qed.

Lemma last_point_time_points (n : nat) :
  n <> 0 -> exists x, last_point (time_points n) = Ok x.
Proof.
  intro H. unfold last_point.
  destruct (rev (time_points n)) as [|x l] eqn:E; [|eauto].
  apply (f_equal (@length Z)) in E.
  rewrite length_rev in E. unfold time_points in E.
  rewrite length_map, length_seq in E. simpl in E. congruence.
Qed.

Lemma sorted_perm (l : list str) : Permutation l (sorted l).
Proof. apply sort_perm. Qed.

Lemma comparison_lines_spec (d : dict series) (names : list str) (idx : nat) :
  (forall k, In k names -> In k (keys d)) ->
  comparison_lines d idx names
  = map (fun iz => comparison_line d (fst iz) (snd iz))
        (combine (seq idx (length names)) names).
Proof.
  revert idx. induction names as [|k names IH]; intros idx H; [reflexivity|].
  cbn [comparison_lines length seq combine map fst snd].
  destruct (dict_get_of_key k d (H k (or_introl eq_refl))) as [[avg tp] [G _]].
  rewrite G, IH by (intros k' Hk'; apply H; now right).
  unfold comparison_line at 2, series_of. rewrite G. reflexivity.
Qed.

(** The figure of a target whose fuzzers all have an average row with a
    value. *)
Lemma draw_comparison_ok (t : str) (d : dict series) :
  d <> [] -> Forall (fun kv => good_series (snd kv)) d ->
  exists c,
    draw_comparison t d = Ok c
    /\ output_filename c = t ++ lit "_comparison.png"
    /\ lines c = average_lines d.
Proof.
  intros N G. unfold draw_comparison. cbv zeta.
  set (names := sorted (keys d)).
  assert (P : Permutation (keys d) names) by apply sorted_perm.
  assert (I : forall k, In k names -> In k (keys d)).
  { intros k Hk. apply (Permutation_in _ (Permutation_sym P) Hk). }
  assert (Nn : names <> []).
  { intros E. rewrite E in P. apply Permutation_sym, Permutation_nil in P.
    destruct d; [congruence | discriminate]. }
  destruct (dict_get_of_key _ d (I _ (@last_in str names [] Nn)))
    as [[avg tp] [E Hin]].
  unfold series in *.
  rewrite E. rewrite Forall_forall in G. destruct (G _ Hin) as [G1 G2].
  simpl in G1, G2. rewrite G2.
  destruct (@last_point_time_points (length avg)) as [x Hx].
  { destruct avg; [congruence | discriminate]. }
  rewrite Hx. cbn [bind]. eexists. split; [reflexivity|].
  split; [reflexivity|]. cbn [lines].
  rewrite comparison_lines_spec by exact I.
  unfold average_lines. fold names.
  assert (L : length names = length d)
    by (rewrite <- (Permutation_length P); apply length_map).
  now rewrite L.
Qed.

Lemma draw_targets_ok (tf : dict (dict series)) (names : list str) :
  (forall t d, In t names -> dict_get t tf = Some d -> 2 <= length d ->
               exists c, draw_comparison t d = Ok c) ->
  draw_targets tf names = (Aggregator.filter_map (pick tf) names, None).
Proof.
  induction names as [|t names IH]; intro H; [reflexivity|].
  cbn [draw_targets Aggregator.filter_map]. unfold pick at 1.
  assert (IH' := IH (fun t' d Ht' => H t' d (or_intror Ht'))).
  destruct (dict_get t tf) as [d|] eqn:G; [|exact IH'].
  destruct (length d <=? 1) eqn:L; [exact IH'|].
  apply Nat.leb_gt in L.
  destruct (H t d (or_introl eq_refl) G L) as [c E].
  rewrite E, IH'. reflexivity.
Qed.

Lemma pick_spec (tf : dict (dict series)) (t : str) (c : chart) :
  pick tf t = Some c ->
  exists d, dict_get t tf = Some d /\ 2 <= length d
            /\ draw_comparison t d = Ok c.
Proof.
  unfold pick. destruct (dict_get t tf) as [d|]; [|discriminate].
  destruct (length d <=? 1) eqn:L; [discriminate|].
  apply Nat.leb_gt in L.
  destruct (draw_comparison t d) as [c'|e] eqn:D; [|discriminate].
  intro H. injection H as ->. exists d.
  split; [reflexivity|]. split; [lia | exact D].
Qed.

Lemma comparison_entry_series (f : data_file) (e : entry) :
  comparison_entry f = Ok (Some e) ->
  snd (snd e) = time_points (length (fst (snd e))).
Proof.
  unfold comparison_entry.
  destruct (decode_name (name f)) as [[t z]|]; [|discriminate].
  destruct (content f) as [text|]; [|discriminate].
  destruct (first_avg (readlines text)) as [[avg|]|x]; simpl;
    try discriminate.
  intro H. injection H as <-. reflexivity.
Qed.

Lemma comparison_entries_series (fs : list data_file) (es : list entry) :
  comparison_entries fs = Ok es ->
  Forall (fun e => snd (snd e) = time_points (length (fst (snd e)))) es.
Proof.
  unfold comparison_entries. intro H.
  destruct (mapM comparison_entry fs) as [os|x] eqn:E; simpl in H;
    [|discriminate].
  injection H as <-. apply mapM_Ok in E. unfold somes.
  induction E as [|f o fs os Hf E IH]; [constructor|].
  cbn [Aggregator.filter_map]. destruct o as [e|]; [|exact IH].
  constructor; [now apply (comparison_entry_series f) | exact IH].
Qed.

Lemma fuzzers_of_good (t : str) (es : list entry) :
  Forall (fun e => good_series (snd e)) es ->
  Forall (fun kv => good_series (snd kv)) (fuzzers_of t es).
Proof.
  intro F. unfold fuzzers_of. apply Forall_map.
  apply Forall_forall. intros e He. apply filter_In in He.
  rewrite Forall_forall in F. now apply F.
Qed.

Lemma compare_files_build (fs : list data_file) (es : list entry) :
  comparison_entries fs = Ok es ->
  compare_files fs
  = draw_targets (build es []) (sorted (keys (build es []))).
Proof.
  intro H. unfold compare_files. destruct fs as [|f fs].
  - cbn in H. injection H as <-. reflexivity.
  - now rewrite group_by_target_build, H.
Qed.

(** C6.  Take the data files of a directory that are read without error,
    no two of which encode the same target and fuzzer, and whose average
    rows, when present, have a value; [es] lists, for each file with an
    average row, its target, its fuzzer and the row.  Then a comparison
    chart is saved for a target exactly when at least two of its files have
    an average row, and every chart saved shows one line per such fuzzer
    and nothing else: the averages, in the order of the sorted fuzzer names,
    the line at index [i] in the colour [i mod 8] of the palette of 8
    colours. *)
Theorem comparison_chart_iff_two_fuzzers (entries : list data_file)
    (es : list entry) :
  comparison_entries (glob_sorted entries) = Ok es ->
  NoDup (map fst es) ->
  Forall (fun e => fst (snd e) <> []) es ->
  length colors = 8
  /\ exists charts,
      plot_comparison_graphs (Some entries) = (charts, None)
      /\ (forall t,
            (exists c, In c charts
                       /\ output_filename c = t ++ lit "_comparison.png")
            <-> 2 <= length (fuzzers_of t es))
      /\ (forall c,
            In c charts ->
            exists t,
              output_filename c = t ++ lit "_comparison.png"
              /\ 2 <= length (fuzzers_of t es)
              /\ lines c = average_lines (fuzzers_of t es)).
Proof.
  intros H N A. split; [reflexivity|]. cbn [plot_comparison_graphs].
  rewrite (compare_files_build _ H).
  set (tf := build es []).
  assert (K : forall t, dict_get t tf
                        = match fuzzers_of t es with
                          | [] => None
                          | x :: l => Some (x :: l)
                          end)
    by (intro t; now apply build_from_empty).
  assert (G : Forall (fun e : entry => good_series (snd e)) es).
  { pose proof (comparison_entries_series _ H) as S.
    rewrite Forall_forall in *. intros e He. split; auto. }
  assert (D : forall t d, dict_get t tf = Some d -> 2 <= length d ->
                d = fuzzers_of t es
                /\ exists c, draw_comparison t d = Ok c
                             /\ output_filename c
                                = t ++ lit "_comparison.png"
                             /\ lines c = average_lines d).
  { intros t d Hd L. rewrite K in Hd.
    assert (E : d = fuzzers_of t es)
      by (destruct (fuzzers_of t es); congruence).
    split; [exact E|]. apply draw_comparison_ok.
    - intros ->. simpl in L. lia.
    - rewrite E. now apply fuzzers_of_good. }
  rewrite draw_targets_ok.
  2:{ intros t d _ Hd L. destruct (D t d Hd L) as [_ [c [E _]]]. eauto. }
  eexists. split; [reflexivity|].
  assert (C : forall c,
             In c (Aggregator.filter_map (pick tf) (sorted (keys tf)))
             <-> exists t, 2 <= length (fuzzers_of t es)
                           /\ draw_comparison t (fuzzers_of t es) = Ok c).
  { intro c. rewrite filter_map_In. split.
    - intros [t [_ P]]. apply pick_spec in P.
      destruct P as [d [Hd [L E]]].
      destruct (D t d Hd L) as [-> _]. eauto.
    - intros [t [L E]]. exists t.
      assert (Hd : dict_get t tf = Some (fuzzers_of t es)).
      { rewrite K. destruct (fuzzers_of t es); [simpl in L; lia|].
        reflexivity. }
      split.
      + apply (Permutation_in _ (sorted_perm (keys tf))).
        apply dict_get_keys. congruence.
      + unfold pick. rewrite Hd.
        destruct (length (fuzzers_of t es) <=? 1) eqn:B.
        * apply Nat.leb_le in B. lia.
        * now rewrite E. }
  assert (R : forall t c,
             2 <= length (fuzzers_of t es) ->
             draw_comparison t (fuzzers_of t es) = Ok c ->
             output_filename c = t ++ lit "_comparison.png"
             /\ lines c = average_lines (fuzzers_of t es)).
  { intros t c L E.
    assert (Hd : dict_get t tf = Some (fuzzers_of t es)).
    { rewrite K. destruct (fuzzers_of t es); [simpl in L; lia|].
      reflexivity. }
    destruct (D t _ Hd L) as [_ [c' [E' [O Ls]]]].
    assert (c' = c) by congruence. subst c'. auto. }
  split.
  - intro t. split.
    + intros [c [Hc O]]. apply C in Hc. destruct Hc as [t' [L E]].
      destruct (R t' c L E) as [O' _]. rewrite O in O'.
      apply app_inv_tail in O'. now subst t'.
    + intro L.
      assert (Hd : dict_get t tf = Some (fuzzers_of t es)).
      { rewrite K. destruct (fuzzers_of t es); [simpl in L; lia|].
        reflexivity. }
      destruct (D t _ Hd L) as [_ [c [E [O _]]]].
      exists c. split; [|exact O]. apply C. eauto.
  - intros c Hc. apply C in Hc. destruct Hc as [t [L E]].
    exists t. destruct (R t c L E) as [O Ls]. auto.
Qed.

Lemma comparison_chart_iff_two_fuzzers_witness :
  exists charts,
    plot_comparison_graphs (Some comparison_files) = (charts, None)
    /\ (forall t,
          (exists c, In c charts
                     /\ output_filename c = t ++ lit "_comparison.png")
          <-> 2 <= length (fuzzers_of t comparison_entries_sample))
    /\ forall c,
         In c charts ->
         exists t,
           output_filename c = t ++ lit "_comparison.png"
           /\ 2 <= length (fuzzers_of t comparison_entries_sample)
           /\ lines c
              = average_lines (fuzzers_of t comparison_entries_sample).
Proof.
  apply (@comparison_chart_iff_two_fuzzers comparison_files
           comparison_entries_sample).
  - vm_compute. reflexivity.
  - repeat constructor; simpl; intuition discriminate.
  - repeat constructor; discriminate.
Defined.

End ComparisonFacts.

(** * Part III: further properties of the code *)

Import Statements.

(** ** The parser on any log *)

Section ParserMore.

Lemma digit_char_cases (c : ascii) :
  is_digit c = true -> exists k, digit_of_char c = Some k.
Proof.
  destruct c as [[] [] [] [] [] [] [] []]; intro H;
    try discriminate H; eexists; reflexivity.
Qed.

(** A run of digits is the writing of a decimal numeral. *)
Lemma digits_are_numeral (g : str) :
  Forall (fun c => is_digit c = true) g ->
  exists d, uint_of_chars g = Some d /\ g = chars_of_uint d.
Proof.
  induction 1 as [|c g Hc H [d [E1 E2]]].
  - exists Decimal.Nil. split; reflexivity.
  - destruct (digit_char_cases c Hc) as [k K].
    exists (k d). cbn [uint_of_chars]. rewrite K, E1. split; [reflexivity|].
    rewrite E2.
    destruct c as [[] [] [] [] [] [] [] []]; try discriminate Hc;
      injection K as <-; reflexivity.
Qed.

Lemma take_digits_spec (s : str) :
  Forall (fun c => is_digit c = true) (fst (take_digits s))
  /\ s = fst (take_digits s) ++ snd (take_digits s).
Proof.
  induction s as [|c t [IH1 IH2]]; [split; [constructor | reflexivity]|].
  cbn [take_digits]. destruct (is_digit c) eqn:E.
  - destruct (take_digits t) as [d r]. cbn [fst snd] in *.
    split; [now constructor | now rewrite IH2 at 1].
  - split; [constructor | reflexivity].
Qed.

Lemma match_here_digits (s g : str) :
  match_here s = Some g ->
  g <> [] /\ Forall (fun c => is_digit c = true) g.
Proof.
  unfold match_here. destruct s as [|c t]; [discriminate|].
  destruct (chr_eqb c "("%char); [|discriminate].
  pose proof (take_digits_spec t) as [D _].
  destruct (take_digits t) as [[|n0 n] r1]; [discriminate|].
  destruct (drop_prefix _ r1) as [r2|]; [|discriminate].
  destruct (take_digits r2) as [[|m0 m] r3]; [discriminate|].
  destruct (startswith _ r3); [|discriminate].
  intro H. injection H as <-. split; [discriminate | exact D].
Qed.

Lemma re_search_digits (l g : str) :
  re_search l = Some g ->
  g <> [] /\ Forall (fun c => is_digit c = true) g.
Proof.
  induction l as [|c t IH]; cbn [re_search].
  - destruct (match_here []) eqn:E; [|discriminate].
    intro H. injection H as <-. now apply (match_here_digits []).
  - destruct (match_here (c :: t)) as [g'|] eqn:E; [|exact IH].
    intro H. injection H as <-. now apply (match_here_digits (c :: t)).
Qed.

(** Group 1 always reads as an integer, which is not negative. *)
Lemma captured_of_match (l g : str) :
  re_search l = Some g -> exists n, py_int g = Some n /\ (0 <= n)%Z.
Proof.
  intro H. destruct (re_search_digits l H) as [N D].
  destruct (digits_are_numeral D) as [d [_ ->]].
  assert (Nd : d <> Decimal.Nil) by (intros ->; now apply N).
  exists (Z.of_uint d). split; [now apply py_int_digits|].
  unfold Z.of_uint. apply N2Z.is_nonneg.
Qed.

Lemma branch_counts_captured (ls : list str) :
  branch_counts ls = Some (Aggregator.filter_map captured ls).
Proof.
  induction ls as [|l ls IH]; [reflexivity|].
  cbn [branch_counts Aggregator.filter_map]. unfold captured at 1.
  destruct (re_search l) as [g|] eqn:E; [|exact IH].
  destruct (captured_of_match l E) as [n [P _]]. now rewrite P, IH.
Qed.

Lemma captured_nonneg (l : str) (n : Z) :
  captured l = Some n -> (0 <= n)%Z.
Proof.
  unfold captured. destruct (re_search l) as [g|] eqn:E; [|discriminate].
  destruct (captured_of_match l E) as [m [P N]]. congruence.
Qed.

End ParserMore.

Section ParserTheorems.

Lemma every_third_tail (f : str -> str) (gs : list group) (tail : list str) :
  length tail < 3 ->
  every_third (map f (lines_of_groups gs ++ tail))
  = map (fun g => f (branches_of g)) gs.
Proof.
  intro H. induction gs as [|g gs IH].
  - cbn [lines_of_groups flat_map app map].
    destruct tail as [|a [|b [|c tail]]]; try reflexivity.
    simpl in H. lia.
  - cbn [lines_of_groups flat_map app map every_third].
    f_equal. exact IH.
Qed.

Lemma captured_line_feed (l : str) : captured (l ++ [LF]) = captured l.
Proof. unfold captured. now rewrite re_search_line_feed. Qed.

(** The parser reads the third line of every whole group of three lines and
    nothing else: its result is given by the values captured from these
    lines, in order, whatever the other lines hold, and up to two lines
    after the last whole group are ignored. *)
Theorem parser_reads_only_branches_lines (gs : list group)
    (tail : list str) :
  Forall no_break (lines_of_groups gs ++ tail) ->
  length tail < 3 ->
  extract_branch_hit_counts
    (Some (text_of_lines (lines_of_groups gs ++ tail)))
  = counts_or_none
      (Aggregator.filter_map (fun g => captured (branches_of g)) gs).
Proof.
  intros B T. unfold extract_branch_hit_counts.
  rewrite readlines_text by exact B.
  rewrite every_third_tail by exact T. cbv beta.
  rewrite branch_counts_captured.
  assert (E : Aggregator.filter_map captured
                (map (fun g => branches_of g ++ [LF]) gs)
              = Aggregator.filter_map (fun g => captured (branches_of g)) gs).
  { induction gs as [|g gs IH]; [reflexivity|].
    cbn [map Aggregator.filter_map].
    rewrite captured_line_feed, IH; [reflexivity|].
    cbn [lines_of_groups flat_map app] in B.
    inversion B as [|? ? _ B1]; subst. inversion B1 as [|? ? _ B2]; subst.
    inversion B2 as [|? ? _ B3]; subst. exact B3. }
  match goal with
  | |- context [Aggregator.filter_map captured ?l] =>
      assert (E' : Aggregator.filter_map captured l
                   = Aggregator.filter_map
                       (fun g => captured (branches_of g)) gs)
        by exact E;
      rewrite E'
  end.
  now destruct (Aggregator.filter_map _ gs).
Qed.

Lemma parser_reads_only_branches_lines_witness :
  extract_branch_hit_counts
    (Some (text_of_lines (lines_of_groups groups_with_gap
                          ++ [lit "lines......: 4.0% (4 of 100 lines)";
                              lit "branches...: 9.0% (9 of 99 branches)"])))
  = Some [10; 20]%Z.
Proof.
  refine (@parser_reads_only_branches_lines groups_with_gap
            [lit "lines......: 4.0% (4 of 100 lines)";
             lit "branches...: 9.0% (9 of 99 branches)"] _ _).
  - repeat constructor; intro H; simpl in H;
      repeat (destruct H as [H|H]; [discriminate|]); exact H.
  - simpl. lia.
Defined.

(** Whatever the log holds, a result of the parser is a non-empty list of
    integers none of which is negative. *)
Theorem parser_counts_are_not_negative (log : option str) (ns : list Z) :
  extract_branch_hit_counts log = Some ns ->
  ns <> [] /\ Forall (fun n => (0 <= n)%Z) ns.
Proof.
  unfold extract_branch_hit_counts. destruct log as [content|];
    [|discriminate].
  rewrite branch_counts_captured.
  destruct (Aggregator.filter_map captured _) as [|n l] eqn:E;
    [discriminate|].
  intro H. injection H as <-. split; [discriminate|].
  rewrite <- E. apply Forall_forall. intros m Hm.
  apply filter_map_In in Hm. destruct Hm as [x [_ Hx]].
  exact (captured_nonneg x Hx).
Qed.

Lemma parser_counts_are_not_negative_witness :
  [10; 20]%Z <> [] /\ Forall (fun n => (0 <= n)%Z) [10; 20]%Z.
Proof.
  apply (@parser_counts_are_not_negative (Some (sample_log 10 20))).
  vm_compute. reflexivity.
Defined.

Lemma universal_newlines_crlf (ls : list str) :
  Forall no_break ls ->
  universal_newlines (text_of_lines_crlf ls) = text_of_lines ls.
Proof.
  unfold text_of_lines_crlf, text_of_lines.
  induction 1 as [|l ls [_ Hl] H IH]; [reflexivity|].
  cbn [map concat]. rewrite <- !app_assoc. cbn [app].
  induction l as [|c l IHl].
  - cbn [app universal_newlines]. change (chr_eqb CR CR) with true.
    change (chr_eqb LF LF) with true. cbv iota. now rewrite IH.
  - cbn [app universal_newlines].
    destruct (chr_eqb c CR) eqn:E.
    + apply chr_eqb_eq in E. exfalso. apply Hl. now left.
    + rewrite IHl; [reflexivity|]. intro; apply Hl; now right.
Qed.

(** A text whose lines end with a carriage return and a line feed is read
    as the same text with plain line feeds: the parser and the reader of
    tables give the same results on both. *)
Theorem crlf_text_reads_the_same (ls : list str) :
  Forall no_break ls ->
  readlines (text_of_lines_crlf ls) = readlines (text_of_lines ls)
  /\ extract_branch_hit_counts (Some (text_of_lines_crlf ls))
     = extract_branch_hit_counts (Some (text_of_lines ls))
  /\ parse_table (text_of_lines_crlf ls) = parse_table (text_of_lines ls).
Proof.
  intro H.
  assert (R : readlines (text_of_lines_crlf ls)
              = readlines (text_of_lines ls)).
  { unfold readlines. rewrite universal_newlines_crlf by exact H.
    rewrite universal_newlines_id; [reflexivity|].
    intro C. apply In_text_of_lines in C. destruct C as [C|[l [Hl C]]].
    - discriminate.
    - rewrite Forall_forall in H. now apply (proj2 (H l Hl)). }
  split; [exact R|]. split.
  - unfold extract_branch_hit_counts. now rewrite R.
  - unfold parse_table. now rewrite R.
Qed.

Lemma crlf_text_reads_the_same_witness :
  parse_table (text_of_lines_crlf [lit "1 10 20"; lit "avg 10.00 20.00"])
  = parse_table (text_of_lines [lit "1 10 20"; lit "avg 10.00 20.00"]).
Proof.
  apply (@crlf_text_reads_the_same [lit "1 10 20"; lit "avg 10.00 20.00"]).
  repeat constructor; intro H; simpl in H;
    repeat (destruct H as [H|H]; [discriminate|]); exact H.
Defined.

End ParserTheorems.

(** ** The aggregator on any tree *)

Section AggregatorMore.

Lemma campaigns_of_only_dirs (cs : list (str * node)) :
  campaigns_of (only_dirs cs) = campaigns_of cs.
Proof.
  unfold campaigns_of, only_dirs.
  induction cs as [|[n x] cs IH]; [reflexivity|].
  cbn [filter snd]. destruct x as [c|fs]; cbn [is_dir].
  - exact IH.
  - cbn [Aggregator.filter_map]. now rewrite IH.
Qed.

Lemma save_target_only_dirs fuzzer_name target_name cs :
  save_target fuzzer_name target_name (only_dirs cs)
  = save_target fuzzer_name target_name cs.
Proof. unfold save_target. now rewrite campaigns_of_only_dirs. Qed.

Lemma collect_targets_pruned fuzzer_name targets p :
  collect_targets fuzzer_name (prune_inside only_dirs targets) p
  = collect_targets fuzzer_name targets p.
Proof.
  unfold prune_inside, only_dirs. revert p.
  induction targets as [|[n x] ts IH]; intro p; [reflexivity|].
  cbn [filter snd]. destruct x as [c|cs]; cbn [is_dir].
  - cbn [collect_targets]. apply IH.
  - cbn [map fst snd collect_targets].
    change (filter (fun e : str * node => is_dir (snd e)) cs)
      with (only_dirs cs).
    rewrite save_target_only_dirs.
    destruct (save_target fuzzer_name n cs) as [left [[k|]|e]];
      [apply IH | apply IH | reflexivity].
Qed.

(** Regular files beside the fuzzer, target and campaign directories play
    no part: the aggregator writes the same files, keeps the same summary
    and ends the same way on the tree without them. *)
Theorem aggregator_ignores_regular_files (coverage : list (str * node)) :
  collect_and_save_branch_data (prune coverage)
  = collect_and_save_branch_data coverage.
Proof.
  unfold collect_and_save_branch_data, prune.
  generalize {| files := []; summary := [] |}.
  induction coverage as [|[n x] fs IH]; intro p; [reflexivity|].
  destruct x as [c|ts].
  - change (prune_inside (prune_inside only_dirs) ((n, File c) :: fs))
      with (prune_inside (prune_inside only_dirs) fs).
    cbn [collect_fuzzers]. apply IH.
  - change (prune_inside (prune_inside only_dirs) ((n, Dir ts) :: fs))
      with ((n, Dir (prune_inside only_dirs ts))
            :: prune_inside (prune_inside only_dirs) fs).
    cbn [collect_fuzzers]. rewrite collect_targets_pruned.
    destruct (collect_targets n ts p) as [p' [e|]]; [reflexivity | apply IH].
Qed.

(** The keys of a table: all labels read as integers, or the first one
    that does not raises [ValueError]. *)
Lemma sort_campaigns_cases (cd : table) :
  (Forall (fun e => py_int (fst e) <> None) cd
   /\ exists sd, sort_campaigns cd = Ok sd)
  \/ (Exists (fun e => py_int (fst e) = None) cd
      /\ sort_campaigns cd = Raise ValueError).
Proof.
  induction cd as [|e cd IH].
  - left. split; [constructor | now exists []].
  - destruct (py_int (fst e)) as [i|] eqn:P.
    + destruct IH as [[F _]|[E S]].
      * left. assert (F' : Forall (fun e => py_int (fst e) <> None) (e :: cd))
          by (constructor; [congruence | exact F]).
        split; [exact F'|]. destruct (sort_campaigns_total F') as [S _]. eauto.
      * right. split; [now apply Exists_cons_tl|].
        unfold sort_campaigns in *. cbn [mapM]. rewrite P.
        cbn [option_map of_option bind].
        destruct (mapM _ cd) as [keyed|x]; cbn [bind] in S |- *;
          [discriminate S | exact S].
    + right. split; [now apply Exists_cons_hd|].
      unfold sort_campaigns. cbn [mapM]. now rewrite P.
Qed.

(** A target is saved unless the label of one of its campaigns with counts
    does not read as an integer, or the quotient of an average is past the
    range of the floats.  In the first case, and only then, [ValueError] is
    raised, also when the target has a single such campaign, and no file is
    opened; a campaign without counts may have any name.  In the second
    case [OverflowError] is raised and the file is left with its campaign
    lines.  No other exception is raised. *)
Theorem non_numeric_label_raises fuzzer_name target_name
    (campaigns : list (str * node)) :
  (snd (save_target fuzzer_name target_name campaigns) = Raise ValueError
   <-> Exists (fun e => py_int (fst e) = None) (campaigns_of campaigns))
  /\ (snd (save_target fuzzer_name target_name campaigns) = Raise ValueError
      -> fst (save_target fuzzer_name target_name campaigns) = None)
  /\ (forall x,
         snd (save_target fuzzer_name target_name campaigns) = Raise x ->
         x = ValueError \/ x = OverflowError)
  /\ (snd (save_target fuzzer_name target_name campaigns)
      = Raise OverflowError ->
      exists w,
        fst (save_target fuzzer_name target_name campaigns) = Some w
        /\ campaign_lines_only (snd w)).
Proof.
  assert (K : forall sd,
             sort_campaigns (campaigns_of campaigns) = Ok sd ->
             ~ Exists (fun e => py_int (fst e) = None)
                      (campaigns_of campaigns)).
  { intros sd SC X.
    destruct (sort_campaigns_cases (campaigns_of campaigns))
      as [[F _]|[_ R]]; [|congruence].
    apply Exists_exists in X. destruct X as [e [He N]].
    rewrite Forall_forall in F. exact (F e He N). }
  destruct (save_target_cases fuzzer_name target_name campaigns)
    as [[C S]|[[SC S]|[[sd [avgs [SC [N [F [A S]]]]]]|[sd [SC [N [A S]]]]]]];
    rewrite S; cbn [fst snd].
  - rewrite C. repeat split; try discriminate. intro X. inversion X.
  - repeat split; try discriminate.
    + intros _.
      destruct (sort_campaigns_cases (campaigns_of campaigns))
        as [[_ [sd R]]|[X _]]; [congruence | exact X].
    + intros x H. left. congruence.
  - repeat split; try discriminate. intro X. now destruct (K sd SC).
  - repeat split; try discriminate.
    + intro X. now destruct (K sd SC).
    + intros x H. right. congruence.
    + intros _. eexists. split; [reflexivity|]. exists sd.
      split; [exact N|]. split; [|reflexivity].
      apply labels_not_avg. exact (@sort_campaigns_keys _ _ SC).
Qed.

Lemma non_numeric_label_raises_witness :
  snd (save_target (lit "afl") (lit "target_a") misnamed_campaigns)
  = Raise ValueError.
Proof.
  apply (proj2 (proj1 (@non_numeric_label_raises (lit "afl")
                         (lit "target_a") misnamed_campaigns))).
  vm_compute. apply Exists_cons_hd. reflexivity.
Defined.

Lemma insert_by_key_filter {A : Type} (k : Z) (x : Z * A)
    (s : list (Z * A)) :
  filter (fun p => (fst p =? k)%Z)
         (insert (fun a b => (fst a <=? fst b)%Z) x s)
  = filter (fun p => (fst p =? k)%Z) (x :: s).
Proof.
  induction s as [|y s IHs]; [reflexivity|].
  cbn [insert]. destruct (fst x <=? fst y)%Z eqn:L; [reflexivity|].
  cbn [filter] in *. rewrite IHs.
  destruct (fst y =? k)%Z eqn:Y; [|reflexivity].
  destruct (fst x =? k)%Z eqn:X; [|reflexivity].
  apply Z.eqb_eq in X, Y. apply Z.leb_gt in L. lia.
Qed.

Lemma sort_by_key_stable {A : Type} (k : Z) (l : list (Z * A)) :
  filter (fun p => (fst p =? k)%Z) (sort_by_key l)
  = filter (fun p => (fst p =? k)%Z) l.
Proof.
  unfold sort_by_key. induction l as [|x l IH]; [reflexivity|].
  cbn [sort]. rewrite insert_by_key_filter. cbn [filter]. now rewrite IH.
Qed.

(** Sorting by label keeps the campaigns with the same integer value, such
    as [1] and [01], in the order in which the directory listed them. *)
Theorem sort_campaigns_is_stable (cd sd : table) (k : Z) :
  sort_campaigns cd = Ok sd -> with_key k sd = with_key k cd.
Proof.
  intro S. destruct (sort_campaigns_cases cd) as [[F _]|[_ R]];
    [|congruence].
  destruct (sort_campaigns_total F) as [S' _]. rewrite S' in S.
  injection S as <-. unfold with_key.
  set (keyed := map (fun e : str * list Z => (int_of (fst e), e)) cd).
  assert (M : forall l : list (Z * (str * list Z)),
             (forall p, In p l -> fst p = int_of (fst (snd p))) ->
             filter (fun e => (int_of (fst e) =? k)%Z) (map snd l)
             = map snd (filter (fun p => (fst p =? k)%Z) l)).
  { induction l as [|p l IH]; intro H; [reflexivity|].
    cbn [map filter]. rewrite <- (H p (or_introl eq_refl)).
    rewrite IH by (intros q Hq; apply H; now right).
    now destruct (fst p =? k)%Z. }
  assert (K : forall p, In p keyed -> fst p = int_of (fst (snd p))).
  { intros p Hp. apply in_map_iff in Hp. now destruct Hp as [e [<- _]]. }
  rewrite M.
  - rewrite sort_by_key_stable, <- M by exact K.
    unfold keyed. rewrite map_map. now rewrite map_id.
  - intros p Hp. apply K.
    apply (Permutation_in _ (Permutation_sym (sort_perm _ keyed)) Hp).
Qed.

Lemma sort_campaigns_is_stable_witness :
  with_key 1 [(lit "1", [5]%Z); (lit "01", [6]%Z)]
  = with_key 1 [(lit "2", [7]%Z); (lit "1", [5]%Z); (lit "01", [6]%Z)].
Proof.
  apply (@sort_campaigns_is_stable
           [(lit "2", [7]%Z); (lit "1", [5]%Z); (lit "01", [6]%Z)]
           [(lit "1", [5]%Z); (lit "01", [6]%Z); (lit "2", [7]%Z)] 1%Z).
  vm_compute. reflexivity.
Defined.

End AggregatorMore.

(** ** The values of the average row *)

Section AverageBounds.

Lemma sum_from (l : list Z) (a : Z) :
  fold_left Z.add l a = (a + Aggregator.sum l)%Z.
Proof.
  unfold Aggregator.sum. revert a.
  induction l as [|x l IH]; intro a; cbn [fold_left]; [lia|].
  rewrite (IH (a + x)%Z), (IH (0 + x)%Z). lia.
Qed.

Lemma sum_nonneg (l : list Z) :
  Forall (fun v => (0 <= v)%Z) l -> (0 <= Aggregator.sum l)%Z.
Proof.
  induction 1 as [|v l Hv H IH].
  - unfold Aggregator.sum. simpl. lia.
  - unfold Aggregator.sum. cbn [fold_left]. rewrite sum_from. lia.
Qed.

(** Rounding keeps the sign that it is given. *)
Lemma nearest_sign (neg : bool) (n d : positive) :
  sign_bit (nearest neg n d) = neg \/ nearest neg n d = S754_nan.
Proof.
  unfold nearest.
  destruct (SFdiv_core_binary prec emax (Zpos n) 0 (Zpos d) 0)
    as [[m e] l].
  unfold binary_round_aux.
  destruct (shr_fexp prec emax m e l) as [mrs e1].
  destruct (shr_fexp prec emax _ e1 loc_Exact) as [mrs2 e2].
  destruct (shr_m mrs2) as [|q|q]; [now left | | now right].
  destruct (e2 <=? emax - prec)%Z; now left.
Qed.

Lemma nearest_float_sign (a : Z) (d : positive) :
  (0 <= a)%Z -> sign_bit (nearest_float (a # d)) = false.
Proof.
  intro H. unfold nearest_float, round_Q, Qabs. cbn [Qnum Qden].
  replace (a <? 0)%Z with false by (symmetry; apply Z.ltb_ge; lia).
  destruct (Z.abs a) as [|n|n]; try reflexivity.
  destruct (nearest_sign false n d) as [E|E]; [exact E|now rewrite E].
Qed.

Lemma plain_average (x : float) :
  sign_bit x = false -> ~ In "-"%char (format_2f x).
Proof.
  intros S C.
  destruct (unsigned_decimal_hundredths (hundredths_nonneg (magnitude x)))
    as [_ [c [t [E [_ F]]]]].
  assert (G : ~ In "-"%char (format_hundredths (hundredths (magnitude x)))).
  { rewrite E. intro I. rewrite Forall_forall in F.
    destruct (F _ I) as [D|D]; discriminate. }
  destruct x as [s|s| |s m e]; cbn [sign_bit] in S; subst;
    cbn [format_2f sign_bit] in C.
  - exact (G C).
  - cbn in C. intuition discriminate.
  - cbn in C. intuition discriminate.
  - exact (G C).
Qed.

(** No entry of the average row has the sign bit when no count is
    negative, as for the counts that the parser returns: the average line
    holds no minus sign. *)
Theorem averages_are_not_negative (cd : table) (avgs : list float) :
  (forall e v, In e cd -> In v (snd e) -> (0 <= v)%Z) ->
  averages cd = Ok avgs ->
  Forall (fun a => sign_bit a = false /\ ~ In "-"%char (format_2f a)) avgs.
Proof.
  intros B A.
  assert (G : Forall (fun a => sign_bit a = false) avgs).
  { destruct cd as [|e0 cd0] eqn:E.
    - injection A as <-. constructor.
    - rewrite <- E in *. assert (N : cd <> []) by (rewrite E; discriminate).
      clear E. rewrite (averages_Ok N A). apply Forall_map, Forall_forall.
      intros j Hj. apply in_seq in Hj. unfold column_mean.
      apply nearest_float_sign, sum_nonneg.
      unfold column. apply Forall_map, Forall_forall.
      intros e He. apply (B e); [exact He|]. apply nth_In.
      pose proof (min_columns_le cd e He). lia. }
  eapply Forall_impl; [|exact G]. intros a Ha.
  split; [exact Ha | now apply plain_average].
Qed.

Lemma averages_are_not_negative_witness :
  Forall (fun a => sign_bit a = false /\ ~ In "-"%char (format_2f a))
         [float_of_int 11; float_of_int 21].
Proof.
  apply (@averages_are_not_negative
           [(lit "1", [10; 20]%Z); (lit "2", [12; 22; 9]%Z)]).
  - intros e v [<-|[<-|[]]] H; simpl in H;
      repeat (destruct H as [<-|H]; [lia|]); destruct H.
  - vm_compute. reflexivity.
Defined.

End AverageBounds.

(** ** The axes of a chart *)

Section AxesMore.

Lemma sub_self (x : float) : finite x -> Axis.sub x x = S754_zero false.
Proof.
  destruct x as [s|s| |s m e]; cbn [finite]; try contradiction; intros _.
  - now destruct s.
  - unfold Axis.sub. cbn [SFsub]. rewrite Z.sub_diag. reflexivity.
Qed.

(** Flat data of any finite level get the margin 50: when all values are
    the same finite float, their difference is zero, the first margin is
    50, and the range runs from the value less 50 to the value plus 50; the
    fallback margin is not used. *)
Theorem flat_data_get_margin_50 (x : float) (n : nat) :
  finite x ->
  Axis.margin x x = Axis.fifty
  /\ Axis.ylim (repeat x (S n))
     = Some (Axis.sub x Axis.fifty, Axis.add x Axis.fifty).
Proof.
  intro F.
  assert (M : Axis.margin x x = Axis.fifty).
  { rewrite margin_is_first_margin. unfold Axis.first_margin.
    rewrite (sub_self x F). vm_compute. reflexivity. }
  split; [exact M|].
  unfold Axis.ylim. cbn [repeat].
  now rewrite py_min_repeat, py_max_repeat, M.
Qed.

Lemma flat_data_get_margin_50_witness :
  Axis.margin (float_of_int 1000) (float_of_int 1000) = Axis.fifty
  /\ Axis.ylim (repeat (float_of_int 1000) 3)
     = Some (Axis.sub (float_of_int 1000) Axis.fifty,
             Axis.add (float_of_int 1000) Axis.fifty).
Proof.
  apply (@flat_data_get_margin_50 (float_of_int 1000) 2).
  vm_compute. exact I.
Defined.

End AxesMore.

(** ** Drawing one table *)

Section DrawMore.

Lemma keyed_cases {T : Type} (key : T -> option Z) (l : list T) :
  (Forall (fun x => key x <> None) l
   /\ exists keyed,
        mapM (fun x => of_option ValueError
                         (option_map (fun i => (i, x)) (key x))) l
        = Ok keyed)
  \/ (Exists (fun x => key x = None) l
      /\ mapM (fun x => of_option ValueError
                          (option_map (fun i => (i, x)) (key x))) l
         = Raise ValueError).
Proof.
  induction l as [|x l IH].
  - left. split; [constructor | now exists []].
  - cbn [mapM]. destruct (key x) as [i|] eqn:K.
    + cbn [option_map of_option bind].
      destruct IH as [[F [keyed E]]|[E R]].
      * left. split; [constructor; [congruence | exact F]|].
        rewrite E. cbn [bind]. eauto.
      * right. split; [now apply Exists_cons_tl|]. now rewrite R.
    + right. split; [now apply Exists_cons_hd | reflexivity].
Qed.

Lemma last_point_of_points (n : nat) :
  last_point (time_points (S n)) = Ok (Z.of_nat n * 30)%Z.
Proof.
  unfold last_point, time_points.
  rewrite seq_S, map_app, rev_app_distr. reflexivity.
Qed.

(** The three ways in which drawing a table with at least one campaign
    ends.  A label that does not read as an integer raises [ValueError].
    With integer labels, a point count of zero raises [IndexError].
    Otherwise the figure is saved, under the name made of the target and
    the fuzzer, and its X axis runs from 0 to 30 minutes times the point
    count less one. *)
Theorem draw_ends_in_three_ways (target_name fuzzer_name : str)
    (cd : dict (list float)) (avg : option (list float)) :
  cd <> [] ->
  (Exists (fun k => py_int k = None) (keys cd) ->
   draw target_name fuzzer_name cd avg = Raise ValueError)
  /\ (Forall (fun k => py_int k <> None) (keys cd) ->
      point_count cd avg = 0 ->
      draw target_name fuzzer_name cd avg = Raise IndexError)
  /\ (Forall (fun k => py_int k <> None) (keys cd) ->
      0 < point_count cd avg ->
      exists c,
        draw target_name fuzzer_name cd avg = Ok c
        /\ output_filename c
           = target_name ++ lit "_" ++ fuzzer_name
             ++ lit "_branch_graph.png"
        /\ xlim c
           = (0, (Z.of_nat (point_count cd avg) - 1) * 30)%Z).
Proof.
  intro N. destruct cd as [|[k first] cd]; [congruence|].
  unfold draw. cbv zeta. rewrite (num_points_is_point_count k first cd avg).
  set (n := point_count ((k, first) :: cd) avg).
  unfold sorted_labels.
  destruct (keyed_cases py_int (keys ((k, first) :: cd)))
    as [[F [keyed E]]|[X R]].
  - split; [|split].
    + intro X. exfalso. apply Exists_exists in X.
      destruct X as [x [Hx Px]]. rewrite Forall_forall in F.
      exact (F x Hx Px).
    + intros _ Z0. rewrite E. cbn [bind]. now rewrite Z0.
    + intros _ P. rewrite E. cbn [bind].
      destruct n as [|n']; [lia|].
      rewrite last_point_of_points. cbn [bind].
      eexists. split; [reflexivity|]. split; [reflexivity|].
      cbn [xlim]. f_equal. lia.
  - split; [|split].
    + intros _. now rewrite R.
    + intros F. exfalso. apply Exists_exists in X.
      destruct X as [x [Hx Px]]. rewrite Forall_forall in F.
      exact (F x Hx Px).
    + intros F. exfalso. apply Exists_exists in X.
      destruct X as [x [Hx Px]]. rewrite Forall_forall in F.
      exact (F x Hx Px).
Qed.

Lemma draw_ends_in_three_ways_witness :
  draw (lit "t") (lit "f") [(lit "x", [float_of_int 1])] None
  = Raise ValueError
  /\ draw (lit "t") (lit "f") [(lit "1", [])] (Some []) = Raise IndexError
  /\ exists c,
       draw (lit "t") (lit "f")
            [(lit "1", map float_of_int [5; 6; 7]%Z)] None = Ok c
       /\ output_filename c = lit "t" ++ lit "_" ++ lit "f"
                              ++ lit "_branch_graph.png"
       /\ xlim c = (0, (3 - 1) * 30)%Z.
Proof.
  split; [|split].
  - apply (proj1 (@draw_ends_in_three_ways (lit "t") (lit "f")
                    [(lit "x", [float_of_int 1])] None ltac:(discriminate))).
    apply Exists_cons_hd. reflexivity.
  - apply (proj1 (proj2 (@draw_ends_in_three_ways (lit "t") (lit "f")
                           [(lit "1", [])] (Some []) ltac:(discriminate)))).
    + repeat constructor. discriminate.
    + reflexivity.
  - apply (proj2 (proj2 (@draw_ends_in_three_ways (lit "t") (lit "f")
                           [(lit "1", map float_of_int [5; 6; 7]%Z)] None
                           ltac:(discriminate)))).
    + repeat constructor. discriminate.
    + simpl. lia.
Defined.

End DrawMore.

(** ** The lines of a chart *)

Section LinesMore.

Lemma length_time_points (n : nat) : length (time_points n) = n.
Proof. unfold time_points. now rewrite length_map, length_seq. Qed.

Lemma campaign_plot_lengths (cd : dict (list float)) (n : nat) (k : str)
    (l : line) :
  campaign_plot cd n k = Some l -> length (xs l) = n /\ length (ys l) = n.
Proof.
  unfold campaign_plot. destruct (dict_get k cd) as [vals|]; [|discriminate].
  destruct (n <=? length vals) eqn:L; [|discriminate].
  apply Nat.leb_le in L. intro H. injection H as <-. cbn [xs ys].
  rewrite length_time_points, length_firstn. lia.
Qed.

(** Every line of a figure drawn from a table has one value for each time
    point, the point count of them: no call of [plot] gets lists of
    different lengths. *)
Theorem lines_have_a_value_per_point (target_name fuzzer_name : str)
    (cd : dict (list float)) (avg : option (list float)) (c : chart) :
  draw target_name fuzzer_name cd avg = Ok c ->
  Forall (fun l => length (xs l) = point_count cd avg
                   /\ length (ys l) = point_count cd avg)
         (lines c).
Proof.
  unfold draw. cbv zeta.
  set (first := match cd with [] => [] | (_, vals) :: _ => vals end).
  assert (E : num_points first avg = point_count cd avg).
  { unfold first. destruct cd as [|[k v] cd]; [|apply num_points_is_point_count].
    now destruct avg as [[|a l]|]. }
  rewrite E. set (n := point_count cd avg) in *.
  destruct (sorted_labels cd) as [labels|x]; cbn [bind]; [|discriminate].
  destruct (last_point (time_points n)) as [last|x]; cbn [bind];
    [|discriminate].
  intro H. injection H as <-. cbn [lines]. apply Forall_app. split.
  - apply Forall_forall. intros l Hl. apply filter_map_In in Hl.
    destruct Hl as [k [_ Hk]]. exact (campaign_plot_lengths cd n k Hk).
  - unfold avg_plot. destruct (truthy avg) as [a|] eqn:T; [|constructor].
    constructor; [|constructor]. cbn [xs ys].
    rewrite length_time_points. split; [reflexivity|].
    subst n. rewrite <- E. unfold num_points. now rewrite T.
Qed.

Lemma lines_have_a_value_per_point_witness :
  exists c,
    draw (lit "t") (lit "f")
         [(lit "1", map float_of_int [5; 6; 7]%Z);
          (lit "2", [float_of_int 1])]
         (Some (map float_of_int [3; 4]%Z)) = Ok c
    /\ Forall (fun l => length (xs l) = 2 /\ length (ys l) = 2) (lines c).
Proof.
  eexists. split; [vm_compute; reflexivity|].
  apply (@lines_have_a_value_per_point (lit "t") (lit "f")
           [(lit "1", map float_of_int [5; 6; 7]%Z);
            (lit "2", [float_of_int 1])]
           (Some (map float_of_int [3; 4]%Z))).
  vm_compute. reflexivity.
Defined.

Lemma store_timed (t z : str) (v : series) (tf : dict (dict series)) :
  timed tf -> snd v = time_points (length (fst v)) ->
  timed (store t z v tf).
Proof.
  intros I G t' d z' v' Hd Hv. unfold store in Hd.
  rewrite dict_get_set in Hd. destruct (str_eqb t' t) eqn:E.
  - injection Hd as <-. rewrite dict_get_set in Hv.
    destruct (str_eqb z' z); [now injection Hv as <-|].
    apply str_eqb_eq in E. subst t'.
    destruct (dict_get t tf) as [d0|] eqn:D; [|discriminate].
    exact (I t d0 z' v' D Hv).
  - exact (I t' d z' v' Hd Hv).
Qed.

Lemma group_by_target_timed (fs : list data_file)
    (acc tf : dict (dict series)) :
  timed acc -> group_by_target fs acc = Ok tf -> timed tf.
Proof.
  revert acc. induction fs as [|f fs IH]; intros acc I H.
  - cbn in H. now injection H as <-.
  - cbn [group_by_target] in H.
    destruct (comparison_entry f) as [[[[t z] v]|]|x] eqn:E; cbn [bind] in H;
      [| now apply (IH acc) | discriminate].
    apply (IH _ (@store_timed t z v acc I (comparison_entry_series f E)) H).
Qed.

Lemma comparison_lines_lengths (d : dict series) (names : list str)
    (idx : nat) :
  (forall z v, dict_get z d = Some v ->
               snd v = time_points (length (fst v))) ->
  Forall (fun l => length (xs l) = length (ys l))
         (comparison_lines d idx names).
Proof.
  intro G. revert idx. induction names as [|z names IH]; intro idx;
    [constructor|].
  cbn [comparison_lines]. destruct (dict_get z d) as [[a tp]|] eqn:E;
    [|apply IH].
  constructor; [|apply IH]. cbn [xs ys].
  pose proof (G z (a, tp) E) as T. cbn [fst snd] in T.
  rewrite T. apply length_time_points.
Qed.

Lemma draw_targets_lengths (tf : dict (dict series)) (names : list str)
    (charts : list chart) (e : option exn) :
  timed tf -> draw_targets tf names = (charts, e) ->
  Forall (fun c => Forall (fun l => length (xs l) = length (ys l))
                          (lines c))
         charts.
Proof.
  intro I. revert charts e.
  induction names as [|t names IH]; intros charts e H.
  - cbn in H. injection H as <- _. constructor.
  - cbn [draw_targets] in H.
    destruct (dict_get t tf) as [d|] eqn:D; [|now apply (IH _ e)].
    destruct (length d <=? 1); [now apply (IH _ e)|].
    destruct (draw_comparison t d) as [c|x] eqn:C.
    + destruct (draw_targets tf names) as [cs e'].
      injection H as <- _. constructor; [|now apply (IH cs e')].
      unfold draw_comparison in C. cbv zeta in C.
      destruct (last_point _) as [last|x]; cbn [bind] in C; [|discriminate].
      injection C as <-. cbn [lines].
      apply comparison_lines_lengths. intros z v. exact (I t d z v D).
    + injection H as <- _. constructor.
Qed.

(** In every comparison chart that is saved, also before an exception,
    every line has one value for each of its time points, whatever the
    data files hold. *)
Theorem comparison_lines_have_a_value_per_point
    (data_dir : option (list data_file)) :
  Forall (fun c => Forall (fun l => length (xs l) = length (ys l))
                          (lines c))
         (fst (plot_comparison_graphs data_dir)).
Proof.
  destruct data_dir as [entries|]; [|constructor].
  cbn [plot_comparison_graphs]. unfold compare_files.
  destruct (glob_sorted entries) as [|f fs]; [constructor|].
  destruct (group_by_target (f :: fs) []) as [tf|x] eqn:G; [|constructor].
  destruct (draw_targets tf (sorted (keys tf))) as [charts e] eqn:D.
  apply (draw_targets_lengths (tf := tf) (sorted (keys tf)) (e := e));
    [|exact D].
  apply (group_by_target_timed (f :: fs) (acc := [])); [|exact G].
  intros t d z v H. discriminate.
Qed.

End LinesMore.

(** ** The two readers of a table *)

Section ReadersMore.

Lemma parse_lines_keeps_average (ls : list str) (cd0 cd : dict (list float))
    (x : list float) (a : option (list float)) :
  parse_lines ls cd0 (Some x) = Ok (cd, a) -> a <> None.
Proof.
  revert cd0 x. induction ls as [|l ls IH]; intros cd0 x H.
  - cbn in H. injection H as _ <-. discriminate.
  - cbn [parse_lines] in H. destruct (split (strip l)) as [|lbl tokens];
      [eauto|].
    destruct (floats tokens) as [vals|e]; cbn [bind] in H; [|discriminate].
    destruct (str_eqb lbl _); eauto.
Qed.

Lemma readers_agree_from (ls : list str) (cd0 cd : dict (list float))
    (a0 a : option (list float)) :
  parse_lines ls cd0 a0 = Ok (cd, a) ->
  exists a1, first_avg ls = Ok a1
             /\ match a1 with
                | Some _ => a <> None
                | None => a = a0
                end.
Proof.
  revert cd0 a0. induction ls as [|l ls IH]; intros cd0 a0 H.
  - cbn in H. injection H as _ <-. now exists None.
  - cbn [parse_lines first_avg] in *.
    destruct (split (strip l)) as [|lbl tokens]; [eauto|].
    destruct (floats tokens) as [vals|e]; cbn [bind] in *; [|discriminate].
    destruct (str_eqb lbl _); [|eauto].
    exists (Some vals). split; [reflexivity|].
    exact (@parse_lines_keeps_average ls cd0 cd vals a H).
Qed.

Lemma first_avg_campaign_line (e : str * list Z) (rest : list str) :
  label_ok (fst e) -> first_avg (campaign_line e :: rest) = first_avg rest.
Proof.
  intro L. destruct (label_ok_token L) as [T A].
  cbn [first_avg]. unfold campaign_line.
  rewrite <- (map_map format_int (fun t => SP :: t)).
  rewrite split_line by
      (try exact T; apply Forall_map, Forall_forall; intros z _;
       apply token_format_int).
  apply str_eqb_neq in A. now rewrite A.
Qed.

Lemma first_avg_avg_line (avgs : list float) (rest : list str) :
  first_avg (avg_line avgs :: rest) = Ok (Some (map two_decimals avgs)).
Proof.
  cbn [first_avg]. unfold avg_line.
  rewrite <- (map_map format_2f (fun t => SP :: t)).
  rewrite split_line.
  - rewrite floats_of_averages. reflexivity.
  - split; [discriminate | repeat constructor].
  - apply Forall_map, Forall_forall. intros a _. apply token_format_2f.
Qed.

(** The reader of the comparison charts takes the first [avg] line and the
    reader of the other charts the last one.  On a text that the second
    accepts the first one raises nothing, and they agree on whether there
    is an average row; on the text that the aggregator writes for a table
    they read the same row. *)
Theorem readers_agree_on_the_average :
  (forall text cd avg,
      parse_table text = Ok (cd, avg) ->
      exists a1, first_avg (readlines text) = Ok a1
                 /\ (a1 = None <-> avg = None))
  /\ (forall sd : table,
         Forall label_ok (map fst sd) -> NoDup (map fst sd) ->
         exists cd avg,
           parse_table (table_text sd) = Ok (cd, avg)
           /\ first_avg (readlines (table_text sd)) = Ok avg).
Proof.
  split.
  - intros text cd avg H. unfold parse_table in H.
    destruct (@readers_agree_from _ [] cd None avg H) as [[x|] [E P]].
    + exists (Some x). split; [exact E|]. split; [discriminate | tauto].
    + exists None. split; [exact E|]. tauto.
  - intros sd L N. exists (map to_floats sd), (read_average sd).
    split; [now apply parse_table_text|].
    rewrite readlines_table_text by exact L. unfold read_average.
    generalize (averages sd) (0 <? min_columns sd). intros avgs b.
    clear N. induction sd as [|e sd IH].
    + cbn [map app]. destruct b; [|reflexivity].
      destruct avgs; [apply first_avg_avg_line | reflexivity].
    + cbn [map app] in *. inversion L as [|? ? Le Ls]; subst.
      rewrite first_avg_campaign_line by exact Le. now apply IH.
Qed.

Lemma readers_agree_on_the_average_witness :
  (exists a1, first_avg (readlines (lit "avg 1" ++ [LF] ++ lit "1 2" ++ [LF]
                                    ++ lit "avg 3" ++ [LF])) = Ok a1
              /\ (a1 = None <-> Some [float_of_int 3] = None))
  /\ exists cd avg,
       parse_table (table_text [(lit "1", [10; 20]%Z)]) = Ok (cd, avg)
       /\ first_avg (readlines (table_text [(lit "1", [10; 20]%Z)]))
          = Ok avg.
Proof.
  split.
  - apply (proj1 readers_agree_on_the_average
                 (lit "avg 1" ++ [LF] ++ lit "1 2" ++ [LF]
                  ++ lit "avg 3" ++ [LF])
                 [(lit "1", [float_of_int 2])]).
    vm_compute. reflexivity.
  - apply (proj2 readers_agree_on_the_average [(lit "1", [10; 20]%Z)]).
    + repeat constructor; vm_compute; discriminate.
    + repeat constructor; simpl; intuition discriminate.
Defined.

End ReadersMore.

(** ** Names that do not come back *)

Section NamesMore.

Lemma rcut_at_spec (sep : ascii) (s a b : str) :
  rcut_at sep s = Some (a, b) -> s = a ++ sep :: b /\ ~ In sep b.
Proof.
  revert a b. induction s as [|c t IH]; intros a b H; [discriminate|].
  cbn [rcut_at] in H. destruct (rcut_at sep t) as [[a' b']|] eqn:R.
  - injection H as <- <-. destruct (IH a' b' eq_refl) as [E N].
    split; [now rewrite E | exact N].
  - destruct (chr_eqb c sep) eqn:E; [|discriminate].
    injection H as <- <-. apply chr_eqb_eq in E. subst c.
    split; [reflexivity|]. intro C.
    assert (X : rcut_at sep t <> None).
    { clear -C. induction t as [|d t IH]; [destruct C|]. cbn [rcut_at].
      destruct (rcut_at sep t) as [[a b]|] eqn:R; [discriminate|].
      destruct C as [->|C]; [now rewrite chr_eqb_refl | now apply IH in C]. }
    now apply X.
Qed.

(** A decoded fuzzer name never holds an underscore: the names are the two
    sides of the last underscore of the stem without its markers.  So a
    fuzzer whose name has an underscore is never read back from the file
    that the aggregator names after it. *)
Theorem decoded_fuzzer_has_no_underscore :
  (forall file_name target_name fuzzer_name : str,
      decode_name file_name = Some (target_name, fuzzer_name) ->
      ~ In "_"%char fuzzer_name
      /\ remove_all marker (stem file_name)
         = target_name ++ "_"%char :: fuzzer_name)
  /\ (forall target_name fuzzer_name : str,
         In "_"%char fuzzer_name ->
         decode_name (Aggregator.output_filename target_name fuzzer_name)
         <> Some (target_name, fuzzer_name)).
Proof.
  assert (G : forall file_name target_name fuzzer_name : str,
             decode_name file_name = Some (target_name, fuzzer_name) ->
             ~ In "_"%char fuzzer_name
             /\ remove_all marker (stem file_name)
                = target_name ++ "_"%char :: fuzzer_name).
  { intros n t f. unfold decode_name, rsplit1.
    destruct (rcut_at "_"%char (remove_all marker (stem n)))
      as [[a b]|] eqn:R; [|discriminate].
    intro H. injection H as <- <-.
    destruct (rcut_at_spec _ _ R) as [E N]. now split. }
  split; [exact G|].
  intros t f I H. exact (proj1 (G _ _ _ H) I).
Qed.

Lemma decoded_fuzzer_has_no_underscore_witness :
  decode_name (Aggregator.output_filename (lit "zlib") (lit "afl_fast"))
  <> Some (lit "zlib", lit "afl_fast")
  /\ decode_name (Aggregator.output_filename (lit "zlib") (lit "afl_fast"))
     = Some (lit "zlib_afl", lit "fast").
Proof.
  split; [|reflexivity].
  apply (proj2 decoded_fuzzer_has_no_underscore (lit "zlib")
               (lit "afl_fast")).
  simpl. auto 10.
Defined.

End NamesMore.

(** ** A batch of data files *)

Section BatchMore.

Lemma plot_files_app (fs1 fs2 : list data_file) :
  Forall (fun f => forall e, plot_file f <> Raise e) fs1 ->
  plot_files (fs1 ++ fs2)
  = (Aggregator.filter_map chart_of fs1 ++ fst (plot_files fs2),
     snd (plot_files fs2)).
Proof.
  induction 1 as [|f fs1 Hf H IH].
  - cbn [app Aggregator.filter_map]. now destruct (plot_files fs2).
  - cbn [app plot_files Aggregator.filter_map]. unfold chart_of at 1.
    destruct (plot_file f) as [[c|]|e] eqn:E.
    + rewrite IH. reflexivity.
    + exact IH.
    + now destruct (Hf e).
Qed.

(** The loop over the data files saves the figure of every file up to the
    first one that raises, and none after it: the exception ends the batch,
    and the figures saved before it stay.  When no file raises, every file
    with a figure gets it. *)
Theorem plot_files_stops_at_first_error :
  (forall fs,
      Forall (fun f => forall e, plot_file f <> Raise e) fs ->
      plot_files fs = (Aggregator.filter_map chart_of fs, None))
  /\ (forall fs1 f rest e,
         Forall (fun f => forall e, plot_file f <> Raise e) fs1 ->
         plot_file f = Raise e ->
         plot_files (fs1 ++ f :: rest)
         = (Aggregator.filter_map chart_of fs1, Some e)).
Proof.
  split.
  - intros fs H. rewrite <- (app_nil_r fs) at 1.
    rewrite plot_files_app by exact H. cbn. now rewrite app_nil_r.
  - intros fs1 f rest e H R. rewrite plot_files_app by exact H.
    cbn [plot_files]. rewrite R. cbn. now rewrite app_nil_r.
Qed.

Lemma plot_files_stops_at_first_error_witness :
  plot_files batch_with_bad_file
  = (Aggregator.filter_map chart_of [short_series_file], Some IndexError)
  /\ length (fst (plot_files batch_with_bad_file)) = 1.
Proof.
  split; [|vm_compute; reflexivity].
  apply (proj2 plot_files_stops_at_first_error [short_series_file]
               label_only_file).
  - constructor; [|constructor]. intros e H. vm_compute in H. discriminate.
  - reflexivity.
Defined.

End BatchMore.

(** ** From the aggregator to the renderer *)

Section ComposeMore.

Lemma decode_output_filename (target_name fuzzer_name : str) :
  ~ In "_"%char fuzzer_name ->
  contains marker (target_name ++ "_"%char :: fuzzer_name) = false ->
  decode_name (Aggregator.output_filename target_name fuzzer_name)
  = Some (target_name, fuzzer_name).
Proof.
  intros Hf Hm. unfold decode_name, Aggregator.output_filename.
  replace (target_name ++ lit "_" ++ fuzzer_name ++ lit "_branch_count.txt")
    with ((target_name ++ "_"%char :: fuzzer_name)
          ++ lit "_branch_count.txt")
    by (rewrite <- app_assoc; reflexivity).
  rewrite stem_of_data_file, (remove_marker _ Hm).
  unfold rsplit1. now rewrite rcut_at_last.
Qed.

Lemma min_columns_perm (cd sd : table) :
  cd <> [] -> Permutation cd sd -> min_columns cd = min_columns sd.
Proof.
  intros N P.
  assert (N' : sd <> []).
  { intro E. subst sd. apply Permutation_sym, Permutation_nil in P.
    contradiction. }
  destruct (min_columns_attained N) as [e [I L]].
  destruct (min_columns_attained N') as [e' [I' L']].
  pose proof (@min_columns_le sd e (Permutation_in _ P I)).
  pose proof (@min_columns_le cd e'
                (Permutation_in _ (Permutation_sym P) I')).
  lia.
Qed.

Lemma filter_keeps_all {T : Type} (p : T -> bool) (l : list T) :
  (forall x, In x l -> p x = true) -> filter p l = l.
Proof.
  induction l as [|x l IH]; intro H; [reflexivity|].
  cbn [filter]. rewrite (H x (or_introl eq_refl)).
  f_equal. apply IH. intros y Hy. apply H. now right.
Qed.

Lemma draw_whole (target_name fuzzer_name : str) (cd : dict (list float))
    (avg : list float) (n : nat) :
  cd <> [] -> NoDup (keys cd) ->
  Forall (fun k => py_int k <> None) (keys cd) ->
  length avg = S n ->
  (forall e, In e cd -> S n <= length (snd e)) ->
  exists c,
    draw target_name fuzzer_name cd (Some avg) = Ok c
    /\ Renderer.output_filename c
       = target_name ++ lit "_" ++ fuzzer_name ++ lit "_branch_graph.png"
    /\ length (lines c) = S (length cd)
    /\ Forall (fun l => length (ys l) = S n) (lines c)
    /\ xlim c = (0%Z, (Z.of_nat n * 30)%Z).
Proof.
  intros NE ND NK LA LE. unfold draw. cbv zeta.
  set (first := match cd with [] => [] | (_, vals) :: _ => vals end).
  assert (E : num_points first (Some avg) = S n).
  { unfold num_points. destruct avg as [|a l]; [discriminate|].
    cbn [truthy]. exact LA. }
  assert (T : truthy (Some avg) = Some avg).
  { destruct avg as [|a l]; [discriminate|reflexivity]. }
  rewrite E.
  destruct (sorted_labels cd) as [labels|x] eqn:SL.
  - unfold sorted_labels in SL.
    destruct (sorted_labels_entries cd SL) as [scd [-> [P _]]].
    cbn [bind]. rewrite last_point_of_points. cbn [bind].
    eexists. split; [reflexivity|]. cbn [Renderer.output_filename lines xlim].
    rewrite campaign_plots;
      [| exact ND
       | intros e He; exact (Permutation_in _ (Permutation_sym P) He)].
    rewrite filter_keeps_all.
    2:{ intros e He. apply Nat.leb_le, LE.
        exact (Permutation_in _ (Permutation_sym P) He). }
    unfold avg_plot. rewrite T.
    split; [reflexivity|]. split; [|split; [|reflexivity]].
    + rewrite length_app, length_map, <- (Permutation_length P).
      cbn [length]. lia.
    + apply Forall_app. split.
      * apply Forall_map, Forall_forall. intros e He.
        unfold series_line. cbn [ys]. rewrite length_firstn.
        pose proof (LE e (Permutation_in _ (Permutation_sym P) He)). lia.
      * constructor; [exact LA|constructor].
  - exfalso. unfold sorted_labels in SL.
    destruct (keyed_cases py_int (keys cd)) as [[_ [keyed K]]|[X _]].
    + rewrite K in SL. discriminate.
    + apply Exists_exists in X. destruct X as [k [I X]].
      rewrite Forall_forall in NK. exact (NK k I X).
Qed.

(** What the aggregator saves for a target, the renderer draws whole.  When
    the campaign labels are distinct and free of white space, the fuzzer
    name has no underscore and the two names hold no [_branch_count], the
    file written for the pair is read back under the same two names, and
    its figure has one line for each campaign with counts and the average
    line, each with as many values as the shortest campaign has counts. *)
Theorem saved_table_is_drawn_whole (fuzzer_name target_name : str)
    (campaigns : list (str * node)) (w : written) (n : nat) :
  save_target fuzzer_name target_name campaigns = (Some w, Ok (Some n)) ->
  NoDup (map fst (campaigns_of campaigns)) ->
  Forall (fun e => Forall (fun c => is_space c = false) (fst e))
         (campaigns_of campaigns) ->
  ~ In "_"%char fuzzer_name ->
  contains marker (target_name ++ "_"%char :: fuzzer_name) = false ->
  exists c,
    plot_file {| name := fst w; content := Some (snd w) |} = Ok (Some c)
    /\ Renderer.output_filename c
       = target_name ++ lit "_" ++ fuzzer_name ++ lit "_branch_graph.png"
    /\ length (lines c) = S n
    /\ Forall (fun l => length (ys l)
                        = min_columns (campaigns_of campaigns)) (lines c)
    /\ xlim c
       = (0%Z,
          ((Z.of_nat (min_columns (campaigns_of campaigns)) - 1) * 30)%Z).
Proof.
  intros H ND NS NU NM.
  destruct (save_target_cases fuzzer_name target_name campaigns)
    as [[_ ST]|[[_ ST]|[[sd [avgs [SC [N' [FV [A ST]]]]]]
        |[sd [_ [_ [_ ST]]]]]]];
    rewrite ST in H; try discriminate.
  injection H as <- <-. cbn [fst snd].
  pose proof (@sort_campaigns_perm _ _ SC) as P.
  assert (N : campaigns_of campaigns <> []).
  { intro E. rewrite E in P. apply Permutation_nil in P. contradiction. }
  rewrite (min_columns_perm N P).
  assert (LK : Forall label_ok (map fst sd)).
  { apply Forall_map, Forall_forall. intros a Ha. split.
    - pose proof (@sort_campaigns_keys _ _ SC) as K. rewrite Forall_forall in K.
      exact (K a Ha).
    - rewrite Forall_forall in NS.
      exact (NS a (Permutation_in _ (Permutation_sym P) Ha)). }
  assert (ND' : NoDup (map fst sd)).
  { exact (Permutation_NoDup (Permutation_map fst P) ND). }
  pose proof (@min_columns_positive sd N' FV) as M1.
  assert (M : exists m, min_columns sd = S m).
  { destruct (min_columns sd) as [|m]; [lia | now exists m]. }
  destruct M as [m M].
  assert (T : table_text sd
              = concat (map campaign_line sd) ++ avg_line avgs).
  { unfold table_text, write_block. destruct sd as [|a sd]; [congruence|].
    rewrite M, A. reflexivity. }
  rewrite <- T.
  unfold plot_file. cbn [name content].
  rewrite (@decode_output_filename _ _ NU NM).
  pose proof (@parse_table_text sd LK ND') as PT. unfold parse_table in PT.
  pose proof (@readlines_table_text sd LK) as RT.
  destruct (readlines (table_text sd)) as [|l ls] eqn:R.
  { destruct sd as [|a sd]; [contradiction|discriminate]. }
  rewrite PT. cbn [bind fst snd].
  destruct (map to_floats sd) as [|a0 fl] eqn:F.
  { destruct sd; [contradiction|discriminate]. }
  rewrite <- F. unfold read_average. rewrite M, A. cbn [Nat.ltb Nat.leb].
  destruct (@draw_whole target_name fuzzer_name (map to_floats sd)
              (map two_decimals avgs) m)
    as [c [D [O [L [Y X]]]]].
  - rewrite F. discriminate.
  - unfold keys. rewrite map_map. exact ND'.
  - unfold keys. rewrite map_map. apply Forall_map.
    rewrite Forall_map in LK. apply (Forall_impl _ (P:=fun a => label_ok (fst a)));
      [|exact LK]. intros a [Ka _]. exact Ka.
  - rewrite length_map, (@averages_length sd avgs N' A). exact M.
  - intros a Ia. apply in_map_iff in Ia. destruct Ia as [b [<- Ib]].
    unfold to_floats. cbn [snd]. rewrite length_map, <- M.
    exact (@min_columns_le sd b Ib).
  - exists c. rewrite D. cbn [bind]. split; [reflexivity|].
    split; [exact O|]. rewrite length_map in L. split; [exact L|].
    split; [exact Y|]. rewrite X. f_equal. lia.
Qed.

Lemma saved_table_is_drawn_whole_witness :
  exists c,
    plot_file
      {| name := Aggregator.output_filename (lit "target_a") (lit "afl");
         content := Some (table_text [(lit "1", [10; 20]%Z);
                                      (lit "2", [12; 22]%Z)]) |}
    = Ok (Some c)
    /\ length (lines c) = 3.
Proof.
  destruct (@saved_table_is_drawn_whole (lit "afl") (lit "target_a")
              sample_campaigns
              (Aggregator.output_filename (lit "target_a") (lit "afl"),
               table_text [(lit "1", [10; 20]%Z); (lit "2", [12; 22]%Z)])
              2)
    as [c [Hp [_ [Hl _]]]].
  - vm_compute. reflexivity.
  - vm_compute. constructor; [|constructor; [intros []|constructor]].
    intros [H|[]]. discriminate.
  - vm_compute. repeat constructor.
  - vm_compute. intuition discriminate.
  - vm_compute. reflexivity.
  - exists c. split; [exact Hp|exact Hl].
Defined.

End ComposeMore.

(** ** The command that only draws *)

Section GraphsOnlyMore.

Import GraphsOnly.

Lemma parent_join (p : path) (c : str) : parent (join p c) = p.
Proof. unfold parent, join. apply removelast_last. Qed.

Lemma path_name_join (p : path) (c : str) : path_name (join p c) = c.
Proof. unfold path_name, join. apply last_last. Qed.

Lemma directories_of_data_path (w : path) :
  directories {| workdir := join (join w (lit "graph")) (lit "data");
                 data_dir := None |}
  = (join (join w (lit "graph")) (lit "data"), join w (lit "graph")).
Proof.
  unfold directories. cbn [data_dir workdir].
  rewrite path_name_join, parent_join, path_name_join. reflexivity.
Qed.

(** Whatever the command line, the figures go to the parent of the directory
    that is read; without the option [--data-dir] the directory that is read
    is named [data] and the directory that is written is named [graph]. *)
Theorem graph_dir_is_parent_of_data_dir (a : args) :
  snd (directories a) = parent (fst (directories a))
  /\ (data_dir a = None ->
      path_name (fst (directories a)) = lit "data"
      /\ path_name (snd (directories a)) = lit "graph").
Proof.
  unfold directories. destruct (data_dir a) as [d|].
  - split; [reflexivity|discriminate].
  - cbv zeta.
    destruct (str_eqb (path_name (workdir a)) (lit "data")) eqn:D;
      cbn [andb].
    + destruct (str_eqb (path_name (parent (workdir a))) (lit "graph"))
        eqn:G; cbn [fst snd].
      * apply str_eqb_eq in D, G. split; [reflexivity|]. intros _.
        split; assumption.
      * rewrite parent_join, !path_name_join. now split.
    + cbn [fst snd]. rewrite parent_join, !path_name_join. now split.
Qed.

Lemma graph_dir_is_parent_of_data_dir_witness :
  path_name (fst (directories {| workdir := [lit "results"];
                                 data_dir := None |})) = lit "data"
  /\ path_name (snd (directories {| workdir := [lit "results"];
                                    data_dir := None |})) = lit "graph".
Proof.
  apply (proj2 (graph_dir_is_parent_of_data_dir
                  {| workdir := [lit "results"]; data_dir := None |})).
  reflexivity.
Defined.

(** The command may be given the data directory in place of the result
    directory: for a result directory that is not itself named as a data
    directory, both runs read and write the same directories and leave the
    same figures. *)
Theorem data_directory_as_workdir (fs : path -> option (list data_file))
    (w : path) :
  is_data_path w = false ->
  main fs {| workdir := join (join w (lit "graph")) (lit "data");
             data_dir := None |}
  = main fs {| workdir := w; data_dir := None |}.
Proof.
  intro H. unfold main. rewrite directories_of_data_path.
  unfold directories. cbn [data_dir workdir]. cbv zeta.
  unfold is_data_path in H. rewrite H. reflexivity.
Qed.

Lemma data_directory_as_workdir_witness :
  main sample_fs {| workdir := join (join [lit "results"] (lit "graph"))
                                    (lit "data");
                    data_dir := None |}
  = main sample_fs {| workdir := [lit "results"]; data_dir := None |}.
Proof.
  apply (@data_directory_as_workdir sample_fs [lit "results"]).
  reflexivity.
Defined.

(** The command that only draws repeats the figures of a complete run: when
    [plot_coverage.py] ends with status 0, [plot_graphs_only.py] on the data
    directory that it leaves ends with status 0 and saves the same per-pair
    figures and the same comparison figures. *)
Theorem graphs_only_redraws_the_run (w : world)
    (fs : path -> option (list data_file)) (a : args) :
  status (Pipeline.main w) = 0%Z ->
  fs (fst (directories a)) = Some (data_after w) ->
  exit_code (main fs a) = 0%Z
  /\ figures (main fs a) = graphs (Pipeline.main w)
  /\ comparison_figures (main fs a) = comparisons (Pipeline.main w).
Proof.
  unfold Pipeline.main, main, data_after.
  destruct (directories a) as [d g]. cbn [fst]. intros S F. rewrite F.
  destruct (check_coverage_directory (coverage w)) as [msgs [[|]|x]];
    cbn [status] in S; try discriminate.
  unfold run_phases in *.
  destruct (collect_and_save_branch_data _) as [p [e1|]]; cbn [fst] in *;
    [discriminate|].
  destruct (plot_branch_graphs _) as [cs [e2|]]; [discriminate|].
  destruct (plot_comparison_graphs _) as [ks e3].
  cbn [status graphs comparisons exit_code figures comparison_figures] in *.
  now repeat split.
Qed.

Lemma graphs_only_redraws_the_run_witness :
  exit_code (main sample_fs {| workdir := [lit "results"];
                               data_dir := None |}) = 0%Z
  /\ figures (main sample_fs {| workdir := [lit "results"];
                                data_dir := None |})
     = graphs (Pipeline.main sample_world)
  /\ comparison_figures (main sample_fs {| workdir := [lit "results"];
                                           data_dir := None |})
     = comparisons (Pipeline.main sample_world).
Proof.
  apply (@graphs_only_redraws_the_run sample_world sample_fs
           {| workdir := [lit "results"]; data_dir := None |}).
  - vm_compute. reflexivity.
  - vm_compute. reflexivity.
Defined.

End GraphsOnlyMore.

(** ** The order of the directory listing *)

Section ListingMore.

Lemma code_inj (x y : ascii) : code x = code y -> x = y.
Proof.
  unfold code. intro H.
  rewrite <- (ascii_nat_embedding x), <- (ascii_nat_embedding y).
  now rewrite H.
Qed.

Lemma str_leb_total (a b : str) : str_leb a b = true \/ str_leb b a = true.
Proof.
  revert b. induction a as [|x a IH]; intros [|y b]; cbn [str_leb];
    try (now left); try (now right).
  destruct (code x <? code y) eqn:L1; [now left|].
  destruct (code y <? code x) eqn:L2; [now right|].
  apply IH.
Qed.

Lemma str_leb_trans (a b c : str) :
  str_leb a b = true -> str_leb b c = true -> str_leb a c = true.
Proof.
  revert b c. induction a as [|x a IH]; intros [|y b] [|z c];
    cbn [str_leb]; try congruence.
  destruct (Nat.ltb_spec (code x) (code y)),
           (Nat.ltb_spec (code y) (code x)),
           (Nat.ltb_spec (code y) (code z)),
           (Nat.ltb_spec (code z) (code y)),
           (Nat.ltb_spec (code x) (code z)),
           (Nat.ltb_spec (code z) (code x));
    intros Hab Hbc; try discriminate; try reflexivity; try lia.
  eapply IH; eassumption.
Qed.

Lemma str_leb_antisym (a b : str) :
  str_leb a b = true -> str_leb b a = true -> a = b.
Proof.
  revert b. induction a as [|x a IH]; intros [|y b]; cbn [str_leb];
    try congruence.
  destruct (code x <? code y) eqn:XY, (code y <? code x) eqn:YX;
    try congruence.
  - apply Nat.ltb_lt in XY, YX. lia.
  - apply Nat.ltb_ge in XY, YX. intros H1 H2.
    rewrite (code_inj x y) by lia. f_equal. now apply IH.
Qed.

Lemma sorted_perm_unique {T : Type} (R : T -> T -> Prop) (l1 l2 : list T) :
  (forall x y, In x l1 -> In y l1 -> R x y -> R y x -> x = y) ->
  StronglySorted R l1 -> StronglySorted R l2 -> Permutation l1 l2 ->
  l1 = l2.
Proof.
  revert l2. induction l1 as [|x t IH]; intros l2 A S1 S2 P.
  - apply Permutation_nil in P. now subst.
  - destruct l2 as [|y u].
    { apply Permutation_sym, Permutation_nil in P. discriminate. }
    inversion S1 as [|? ? St Hx]; subst.
    inversion S2 as [|? ? Su Hy]; subst.
    rewrite Forall_forall in Hx, Hy.
    assert (E : x = y).
    { assert (Ix : In x (y :: u))
        by exact (Permutation_in _ P (or_introl eq_refl)).
      assert (Iy : In y (x :: t))
        by exact (Permutation_in _ (Permutation_sym P) (or_introl eq_refl)).
      destruct Ix as [->|Ix]; [reflexivity|].
      destruct Iy as [->|Iy]; [reflexivity|].
      apply A; [now left | now right | now apply Hx | now apply Hy]. }
    subst y. f_equal. apply IH; [| exact St | exact Su |].
    + intros a b Ia Ib. apply A; now right.
    + exact (Permutation_cons_inv P).
Qed.

Lemma same_name_same_file (l : list data_file) (x y : data_file) :
  NoDup (map name l) -> In x l -> In y l -> name x = name y -> x = y.
Proof.
  induction l as [|a l IH]; intros N Ix Iy E; [destruct Ix|].
  cbn [map] in N. inversion N as [|? ? Na Nl]; subst.
  destruct Ix as [->|Ix], Iy as [->|Iy].
  - reflexivity.
  - exfalso. apply Na. rewrite E. now apply in_map.
  - exfalso. apply Na. rewrite <- E. now apply in_map.
  - now apply IH.
Qed.

Lemma filter_perm {T : Type} (p : T -> bool) (l l' : list T) :
  Permutation l l' -> Permutation (filter p l) (filter p l').
Proof.
  induction 1 as [|x l l' P IH|x y l|l l' l'' P1 IH1 P2 IH2];
    cbn [filter].
  - constructor.
  - destruct (p x); [now constructor|exact IH].
  - destruct (p x), (p y); try reflexivity. constructor.
  - now transitivity (filter p l').
Qed.

Lemma glob_sorted_perm (es es' : list data_file) :
  NoDup (map name es) -> Permutation es es' ->
  glob_sorted es = glob_sorted es'.
Proof.
  intros N P. unfold glob_sorted.
  set (leb := fun a b : data_file => str_leb (name a) (name b)).
  assert (T : forall x y, leb x y = true \/ leb y x = true)
    by (intros x y; apply str_leb_total).
  assert (R : forall x y z, leb x y = true -> leb y z = true ->
                            leb x z = true)
    by (intros x y z; apply str_leb_trans).
  apply (@sorted_perm_unique _ (fun a b => leb a b = true)).
  - intros x y Ix Iy H1 H2.
    apply (Permutation_in _ (Permutation_sym (sort_perm leb _))) in Ix, Iy.
    apply filter_In in Ix, Iy.
    apply (@same_name_same_file es x y N (proj1 Ix) (proj1 Iy)).
    now apply str_leb_antisym.
  - now apply sort_sorted.
  - now apply sort_sorted.
  - rewrite <- !sort_perm. now apply filter_perm.
Qed.

(** The figures do not depend on the order in which the data directory is
    listed: for entries with distinct names, any other listing of the same
    entries gives the same per-pair figures and the same comparison
    figures, in the same order. *)
Theorem figures_ignore_listing_order (es es' : list data_file) :
  NoDup (map name es) -> Permutation es es' ->
  plot_branch_graphs (Some es') = plot_branch_graphs (Some es)
  /\ plot_comparison_graphs (Some es') = plot_comparison_graphs (Some es).
Proof.
  intros N P. unfold plot_branch_graphs, plot_comparison_graphs.
  now rewrite (glob_sorted_perm N P).
Qed.

Lemma figures_ignore_listing_order_witness :
  plot_branch_graphs (Some (rev comparison_files))
  = plot_branch_graphs (Some comparison_files)
  /\ plot_comparison_graphs (Some (rev comparison_files))
     = plot_comparison_graphs (Some comparison_files).
Proof.
  apply (@figures_ignore_listing_order comparison_files
           (rev comparison_files)).
  - vm_compute.
    repeat (constructor; [cbv [In]; intuition discriminate|]).
    constructor.
  - apply Permutation_rev.
Defined.

End ListingMore.

(** ** The names of the tables and the summary *)

Section SummaryMore.

(** The name of a table tells its pair apart from every other pair whose
    fuzzer name has no underscore; with an underscore in a fuzzer name, two
    different pairs are given one and the same name. *)
Theorem output_filename_tells_pairs_apart :
  (forall t f t' f' : str,
      ~ In "_"%char f -> ~ In "_"%char f' ->
      Aggregator.output_filename t f = Aggregator.output_filename t' f' ->
      t = t' /\ f = f')
  /\ (forall t a f : str,
         Aggregator.output_filename (t ++ lit "_" ++ a) f
         = Aggregator.output_filename t (a ++ lit "_" ++ f)).
Proof.
  split.
  - intros t f t' f' N N' E. unfold Aggregator.output_filename in E.
    rewrite !app_assoc in E. apply app_inv_tail in E.
    rewrite <- !app_assoc in E.
    change (lit "_" ++ f) with ("_"%char :: f) in E.
    change (lit "_" ++ f') with ("_"%char :: f') in E.
    pose proof (@rcut_at_last "_"%char t f N) as R.
    rewrite E, (@rcut_at_last "_"%char t' f' N') in R.
    injection R as <- <-. now split.
  - intros t a f. unfold Aggregator.output_filename.
    now rewrite <- !app_assoc.
Qed.

Lemma output_filename_tells_pairs_apart_witness :
  lit "png" = lit "png" /\ lit "afl" = lit "afl".
Proof.
  apply (proj1 output_filename_tells_pairs_apart
               (lit "png") (lit "afl") (lit "png") (lit "afl")).
  - vm_compute. intuition discriminate.
  - vm_compute. intuition discriminate.
  - reflexivity.
Defined.








End SummaryMore.
